(** * zeek-mcp: the query, filter and aggregation engine and its analytics

    A shallow embedding of the TypeScript sources

    - [src/query/filters.ts]      (CIDR, wildcard and range matching),
    - [src/query/engine.ts]       (filter evaluation, sort and limit),
    - [src/query/aggregation.ts]  (field resolution, group-by, sums),
    - [src/analytics/entropy.ts], [beaconing.ts] and [anomaly.ts],

    followed by the properties proved about them.

    Conventions of the embedding:

    - a JavaScript string is a [string]: one [ascii] per UTF-16 code unit,
      which covers the code units below 256 (log fields are ASCII);
    - a JavaScript number that holds a measurement (bytes, seconds, scores)
      is a primitive [float], the same IEEE 754 binary64 values and the same
      rounding as the language has;
    - a JavaScript number that is an integer by construction (the result of
      [parseInt], an array length, a counter bounded by an array length) is
      a [Z] or a [nat]; [parseInt] is [option Z], [None] standing for NaN.
      This is exact below 2^53, which every array length is;
    - 32-bit operators are written out on [Z] with their wrap-around;
    - a [Map] or [Set] is an association list or a list in insertion
      order, the order in which the language iterates them. *)

From Stdlib Require Import ZArith List String Ascii Bool Lia Floats.
From Stdlib Require Import DecimalString DecimalNat Sorted Permutation.
Import ListNotations.

Set Warnings "-register-all,-inexact-float".

Local Open Scope string_scope.
Local Open Scope list_scope.

(** ** The parts of the language the sources use *)

Module Js.

(** *** Strings *)

Definition str1 (c : ascii) : string := String c EmptyString.

(** [s.includes(sub)] *)
Fixpoint includes (s sub : string) : bool :=
  String.prefix sub s
  || match s with
     | EmptyString => false
     | String _ s' => includes s' sub
     end.

(** [s.split(sep)] for a non-empty separator: the pieces between the
    leftmost non-overlapping occurrences of [sep].  [skip] counts the code
    units of a separator still to be passed over, [cur] is the piece being
    read. *)
Fixpoint split_go (sep : string) (skip : nat) (cur s : string) : list string :=
  match s with
  | EmptyString => [cur]
  | String c s' =>
      match skip with
      | S k => split_go sep k cur s'
      | O =>
          if String.prefix sep s
          then cur :: split_go sep (String.length sep - 1) "" s'
          else split_go sep 0 (cur ++ str1 c) s'
      end
  end.

Definition split (sep s : string) : list string := split_go sep 0 "" s.

(** [parts.join(sep)] *)
Definition join (sep : string) (parts : list string) : string :=
  String.concat sep parts.

Fixpoint repeatChar (c : ascii) (n : nat) : string :=
  match n with
  | O => ""
  | S k => String c (repeatChar c k)
  end.

(** [s.padStart(n, c)] with a one-character filler *)
Definition padStart (n : nat) (c : ascii) (s : string) : string :=
  repeatChar c (n - String.length s) ++ s.

Definition code (c : ascii) : Z := Z.of_nat (nat_of_ascii c).

(** [toLowerCase] on the code units below 256: A-Z and the Latin-1 capitals. *)
Definition lowerChar (c : ascii) : ascii :=
  let n := code c in
  if ((65 <=? n) && (n <=? 90))%Z
     || ((192 <=? n) && (n <=? 222) && negb (n =? 215))%Z
  then ascii_of_nat (nat_of_ascii c + 32)
  else c.

Fixpoint toLowerCase (s : string) : string :=
  match s with
  | EmptyString => ""
  | String c s' => String (lowerChar c) (toLowerCase s')
  end.

(** *** parseInt *)

(** White space that [parseInt] skips (the code units below 256 of it). *)
Definition isWhite (c : ascii) : bool :=
  let n := code c in
  (((9 <=? n) && (n <=? 13)) || (n =? 32) || (n =? 160))%Z.

Fixpoint trimStart (s : string) : string :=
  match s with
  | String c s' => if isWhite c then trimStart s' else s
  | EmptyString => ""
  end.

Definition digitVal (c : ascii) : option Z :=
  let n := code c in
  if ((48 <=? n) && (n <=? 57))%Z then Some (n - 48)%Z
  else if ((97 <=? n) && (n <=? 122))%Z then Some (n - 87)%Z
  else if ((65 <=? n) && (n <=? 90))%Z then Some (n - 55)%Z
  else None.

(** The longest prefix of digits of the radix, as a number; [acc] is [None]
    until a digit has been read. *)
Fixpoint digits (radix : Z) (acc : option Z) (s : string) : option Z :=
  match s with
  | EmptyString => acc
  | String c s' =>
      match digitVal c with
      | Some d =>
          if (d <? radix)%Z
          then digits radix
                 (Some (match acc with
                        | Some a => a * radix + d
                        | None => d
                        end)%Z) s'
          else acc
      | None => acc
      end
  end.

(** [parseInt(s, radix)] for an explicit radix (10 and 16 in the sources):
    leading white space, an optional sign, for radix 16 an optional [0x],
    then the longest run of digits.  [None] is NaN. *)
Definition parseInt (s : string) (radix : Z) : option Z :=
  let s1 := trimStart s in
  let '(neg, s2) :=
    match s1 with
    | String "-"%char r => (true, r)
    | String "+"%char r => (false, r)
    | _ => (false, s1)
    end in
  let s3 :=
    if (radix =? 16)%Z
    then match s2 with
         | String "0"%char (String "x"%char r) => r
         | String "0"%char (String "X"%char r) => r
         | _ => s2
         end
    else s2 in
  match digits radix None s3 with
  | Some n => Some (if neg then - n else n)%Z
  | None => None
  end.

(** *** 32-bit integer operators *)

Definition toInt32 (z : Z) : Z := ((z + 2 ^ 31) mod 2 ^ 32 - 2 ^ 31)%Z.
Definition toUint32 (z : Z) : Z := (z mod 2 ^ 32)%Z.

(** [a << n]: the count is taken modulo 32 *)
Definition shl (a n : Z) : Z := toInt32 (toInt32 a * 2 ^ (n mod 32))%Z.
(** [a >> n] *)
Definition sar (a n : Z) : Z := Z.shiftr (toInt32 a) (n mod 32)%Z.
(** [a & b] *)
Definition band (a b : Z) : Z := Z.land (toInt32 a) (toInt32 b).
(** [a | b] *)
Definition bor (a b : Z) : Z := Z.lor (toInt32 a) (toInt32 b).
(** [a >>> 0] *)
Definition ushr0 (a : Z) : Z := toUint32 a.

(** *** Arrays *)

(** [a.slice(0, end)] for an integer [end]: a negative [end] counts from
    the end of the array. *)
Definition slice0 {A : Type} (fin : Z) (l : list A) : list A :=
  if (fin <? 0)%Z
  then firstn (Z.to_nat (Z.max (Z.of_nat (List.length l) + fin) 0)) l
  else firstn (Z.to_nat fin) l.

(** [a.sort(cmp)].  For a consistent comparator the language fixes the
    result: the stable sorted order, which insertion sort computes.  (For
    an inconsistent comparator the order is implementation-defined; this is
    one such order.)  A comparator result is negative, zero or positive; NaN
    counts as zero.  [insert cmp x l] puts [x], which stood before the
    elements of [l], in front of the first element that is not strictly
    before it. *)
Fixpoint insert {A : Type} (cmp : A -> A -> float) (x : A) (l : list A) : list A :=
  match l with
  | [] => [x]
  | y :: l' =>
      if PrimFloat.ltb (cmp y x) 0 then y :: insert cmp x l'
      else x :: l
  end.

Definition sort {A : Type} (cmp : A -> A -> float) (l : list A) : list A :=
  fold_right (insert cmp) [] l.

(** *** Numbers *)

(** The number that an integer denotes, rounded to nearest when it has
    more than 53 significant bits. *)
Definition ofZ (z : Z) : float :=
  SF2Prim (binary_normalize prec emax z 0 false).

(** The number of an array length or of a counter bounded by one (these
    are below 2^32, so the conversion is exact). *)
Definition ofNat (n : nat) : float :=
  PrimFloat.of_uint63 (Uint63.of_Z (Z.of_nat n)).

(** The number of a [parseInt] result. *)
Definition ofInt (o : option Z) : float :=
  match o with
  | Some z => ofZ z
  | None => PrimFloat.nan
  end.

Definition two52 : float := 4503599627370496%float.

(** [Math.floor] *)
Definition floor (x : float) : float :=
  if PrimFloat.is_nan x || PrimFloat.is_infinity x || PrimFloat.eqb x 0 then x
  else if PrimFloat.leb two52 (PrimFloat.abs x) then x
  else
    let a := PrimFloat.abs x in
    let t := ((a + two52) - two52)%float in
    if PrimFloat.ltb x 0
    then PrimFloat.opp (if PrimFloat.ltb t a then t + 1 else t)%float
    else (if PrimFloat.ltb a t then t - 1 else t)%float.

(** [Math.round]: to the nearest integer, ties towards plus infinity, and
    minus zero for the results that round up to zero from below. *)
Definition round (x : float) : float :=
  if PrimFloat.is_nan x || PrimFloat.is_infinity x || PrimFloat.eqb x 0 then x
  else if PrimFloat.leb two52 (PrimFloat.abs x) then x
  else
    let f := floor x in
    let r := (if PrimFloat.leb 0.5 (x - f) then f + 1 else f)%float in
    if PrimFloat.eqb r 0 && PrimFloat.ltb x 0 then (-0)%float else r.

Definition isNegZero (x : float) : bool :=
  match PrimFloat.classify x with
  | NZero => true
  | _ => false
  end.

(** [Math.max(a, b)] and [Math.min(a, b)] *)
Definition max (a b : float) : float :=
  if PrimFloat.is_nan a || PrimFloat.is_nan b then PrimFloat.nan
  else if PrimFloat.ltb a b then b
  else if PrimFloat.ltb b a then a
  else if isNegZero a then b else a.

Definition min (a b : float) : float :=
  if PrimFloat.is_nan a || PrimFloat.is_nan b then PrimFloat.nan
  else if PrimFloat.ltb a b then a
  else if PrimFloat.ltb b a then b
  else if isNegZero a then a else b.

(** *** Map and Set, in insertion order *)

Fixpoint mapGet {V : Type} (k : string) (m : list (string * V)) : option V :=
  match m with
  | [] => None
  | (k', v) :: m' => if (k' =? k)%string then Some v else mapGet k m'
  end.

Definition mapHas {V : Type} (k : string) (m : list (string * V)) : bool :=
  match mapGet k m with
  | Some _ => true
  | None => false
  end.

(** [m.set(k, v)]: a key that is present keeps its place. *)
Fixpoint mapSet {V : Type} (k : string) (v : V) (m : list (string * V)) : list (string * V) :=
  match m with
  | [] => [(k, v)]
  | (k', v') :: m' =>
      if (k' =? k)%string then (k', v) :: m'
      else (k', v') :: mapSet k v m'
  end.

(** [s.add(x)] for a set whose members are compared by [same]. *)
Definition setAdd {A : Type} (same : A -> A -> bool) (x : A) (s : list A) : list A :=
  if existsb (same x) s then s else s ++ [x].

(** The decimal numeral of a natural number. *)
Definition natToString (n : nat) : string :=
  NilZero.string_of_uint (Nat.to_uint n).

End Js.

(** ** src/query/filters.ts *)

Module Filters.

Fixpoint ipv4Octets (parts : list string) (num : Z) : option Z :=
  match parts with
  | [] => Some (Js.ushr0 num)
  | part :: rest =>
      match Js.parseInt part 10 with
      | None => None
      | Some octet =>
          if ((octet <? 0) || (octet >? 255))%Z then None
          else ipv4Octets rest (Js.bor (Js.shl num 8) octet)
      end
  end.

Definition ipv4ToNum (ip : string) : option Z :=
  let parts := Js.split "." ip in
  if negb (List.length parts =? 4)%nat then None
  else ipv4Octets parts 0.

(** [prefix === 0 ? 0 : ~0 << (32 - prefix)]; with a NaN prefix the shift
    count is NaN, which the shift reads as 0. *)
Definition mask32 (prefix : option Z) : Z :=
  match prefix with
  | Some 0%Z => 0
  | Some p => Js.shl (-1) (32 - p)
  | None => Js.shl (-1) 0
  end.

Definition expandIpv6 (ip : string) : option string :=
  if Js.includes ip "::" then
    let pieces := Js.split "::" ip in
    let left := nth 0 pieces "" in
    let right := nth 1 pieces "" in
    let leftGroups := if (left =? "")%string then [] else Js.split ":" left in
    let rightGroups := if (right =? "")%string then [] else Js.split ":" right in
    let missing := (8 - Z.of_nat (List.length leftGroups) - Z.of_nat (List.length rightGroups))%Z in
    if (missing <? 0)%Z then None
    else
      let middle := repeat "0000" (Z.to_nat missing) in
      let all := leftGroups ++ middle ++ rightGroups in
      Some (Js.join ":" (map (Js.padStart 4 "0"%char) all))
  else Some ip.

Fixpoint groupBytes (groups : list string) : option (list Z) :=
  match groups with
  | [] => Some []
  | group :: rest =>
      match Js.parseInt group 16 with
      | None => None
      | Some val =>
          match groupBytes rest with
          | None => None
          | Some bytes =>
              Some (Js.band (Js.sar val 8) 255 :: Js.band val 255 :: bytes)
          end
      end
  end.

Definition ipv6ToBytes (ip : string) : option (list Z) :=
  match expandIpv6 ip with
  | None => None
  | Some expanded =>
      if (expanded =? "")%string then None
      else
        let groups := Js.split ":" expanded in
        if negb (List.length groups =? 8)%nat then None
        else groupBytes groups
  end.

(** The loop of [matchCidr6] from index [i], [fuel] iterations left;
    [remaining] is [None] when the prefix was NaN, for which both
    comparisons are false. *)
Fixpoint cidr6Loop (fuel i : nat) (remaining : option Z) (ipBytes netBytes : list Z) : bool :=
  match fuel with
  | O => true
  | S fuel' =>
      match remaining with
      | None => true
      | Some r =>
          if (r >=? 8)%Z then
            if negb (nth i ipBytes 0 =? nth i netBytes 0)%Z then false
            else cidr6Loop fuel' (S i) (Some (r - 8)%Z) ipBytes netBytes
          else if (r >? 0)%Z then
            let mask := Js.band (Js.shl (-1) (8 - r)) 255 in
            if negb (Js.band (nth i ipBytes 0%Z) mask =? Js.band (nth i netBytes 0%Z) mask)%Z
            then false
            else cidr6Loop fuel' (S i) (Some 0%Z) ipBytes netBytes
          else true
      end
  end.

Definition matchCidr6 (ip network : string) (prefix : option Z) : bool :=
  match ipv6ToBytes ip, ipv6ToBytes network with
  | Some ipBytes, Some netBytes => cidr6Loop 16 0 prefix ipBytes netBytes
  | _, _ => false
  end.

Definition matchCidr (ip cidr : string) : bool :=
  if negb (Js.includes cidr "/") then (ip =? cidr)%string
  else
    let parts := Js.split "/" cidr in
    let network := nth 0 parts "" in
    let prefixStr := nth 1 parts "" in
    let prefix := Js.parseInt prefixStr 10 in
    if Js.includes ip ":" || Js.includes network ":" then
      matchCidr6 ip network prefix
    else
      match ipv4ToNum ip, ipv4ToNum network with
      | Some ipNum, Some netNum =>
          let mask := mask32 prefix in
          (Js.band ipNum mask =? Js.band netNum mask)%Z
      | _, _ => false
      end.

Definition matchIp (recordIp filterIp : string) : bool :=
  if Js.includes filterIp "/" then matchCidr recordIp filterIp
  else (recordIp =? filterIp)%string.

End Filters.

(** ** Records and values (src/types.ts) *)

(** The three services of the language runtime that the sources call and
    that are not spelled out here: [Number::toString], [StringToNumber]
    and the collation of [String.prototype.localeCompare]. *)
Record Runtime : Type := {
  numberToString : float -> string;
  stringToNumber : string -> float;
  localeCompare : string -> string -> float
}.

(** A field value: what [JSON.parse] and the TSV reader produce.  An
    object is its own properties in insertion order; inherited properties
    are not part of the model. *)
Inductive Value : Type :=
| VUndefined
| VNull
| VBool (b : bool)
| VNum (x : float)
| VStr (s : string)
| VArr (elems : list Value)
| VObj (props : list (string * Value)).

(** [ZeekRecord]: a mapping from field names, which may contain dots, to
    values. *)
Definition ZeekRecord : Type := list (string * Value).

Module Val.

Section WithRuntime.
Context (rt : Runtime).

(** [String(v)] *)
Fixpoint toString (v : Value) : string :=
  match v with
  | VUndefined => "undefined"
  | VNull => "null"
  | VBool true => "true"
  | VBool false => "false"
  | VNum x => numberToString rt x
  | VStr s => s
  | VArr elems =>
      Js.join ","
        (map (fun e => match e with
                       | VUndefined | VNull => ""
                       | _ => toString e
                       end) elems)
  | VObj _ => "[object Object]"
  end.

(** [Number(v)], the conversion the arithmetic and relational operators
    apply to an operand. *)
Definition toNumber (v : Value) : float :=
  match v with
  | VUndefined => PrimFloat.nan
  | VNull => 0%float
  | VBool true => 1%float
  | VBool false => 0%float
  | VNum x => x
  | VStr s => stringToNumber rt s
  | VArr _ => stringToNumber rt (toString v)
  | VObj _ => PrimFloat.nan
  end.

End WithRuntime.

(** [!v] is [negb (truthy v)] *)
Definition truthy (v : Value) : bool :=
  match v with
  | VUndefined | VNull => false
  | VBool b => b
  | VNum x => negb (PrimFloat.eqb x 0 || PrimFloat.is_nan x)
  | VStr s => negb (s =? "")%string
  | VArr _ | VObj _ => true
  end.

(** [a === b].  Two arrays or objects are equal only when they are the
    same object; the values compared here come from different records, or
    from a record and a filter, and are never the same object. *)
Definition strictEq (a b : Value) : bool :=
  match a, b with
  | VUndefined, VUndefined => true
  | VNull, VNull => true
  | VBool x, VBool y => Bool.eqb x y
  | VNum x, VNum y => PrimFloat.eqb x y
  | VStr x, VStr y => (x =? y)%string
  | _, _ => false
  end.

(** SameValueZero, the equality of [Set], [Map] and [Array.prototype.includes]:
    as [===] except that NaN is the same as NaN. *)
Definition sameValueZero (a b : Value) : bool :=
  match a, b with
  | VNum x, VNum y => PrimFloat.eqb x y || (PrimFloat.is_nan x && PrimFloat.is_nan y)
  | _, _ => strictEq a b
  end.

(** [v ?? d] *)
Definition orElse (v d : Value) : Value :=
  match v with
  | VUndefined | VNull => d
  | _ => v
  end.

(** [o[k]] on the properties of an object *)
Fixpoint prop (k : string) (o : list (string * Value)) : Value :=
  match o with
  | [] => VUndefined
  | (k', v) :: o' => if (k' =? k)%string then v else prop k o'
  end.

(** [k in o] *)
Definition hasProp (k : string) (o : list (string * Value)) : bool :=
  existsb (fun kv => (fst kv =? k)%string) o.

Fixpoint allDigits (s : string) : bool :=
  match s with
  | EmptyString => true
  | String c s' =>
      ((48 <=? Js.code c) && (Js.code c <=? 57))%Z && allDigits s'
  end.

(** The array index that a property name denotes: a decimal numeral
    without a leading zero. *)
Definition arrayIndex (k : string) : option nat :=
  match k with
  | EmptyString => None
  | String c rest =>
      if allDigits k && ((k =? "0")%string || negb (Ascii.eqb c "0"%char))
      then match Js.parseInt k 10 with
           | Some z => Some (Z.to_nat z)
           | None => None
           end
      else None
  end.

(** [current[part]] for a value whose [typeof] is ["object"]. *)
Definition member (current : Value) (part : string) : Value :=
  match current with
  | VObj props => prop part props
  | VArr elems =>
      if (part =? "length")%string then VNum (Js.ofNat (List.length elems))
      else match arrayIndex part with
           | Some i => nth i elems VUndefined
           | None => VUndefined
           end
  | _ => VUndefined
  end.

End Val.

(** An instance of [Runtime] for closed examples.  It agrees with the
    language where the examples use it: it prints the numbers that are
    integers (below 10^21 the language prints them as their decimal
    numeral), reads decimal numerals, and orders strings by code unit,
    which is the language's order on equal strings and on numerals of
    equal length. *)
Module Host.

Definition integerOf (x : float) : option Z :=
  match Prim2SF x with
  | S754_zero _ => Some 0%Z
  | S754_finite sign m e =>
      let mag :=
        if (0 <=? e)%Z then Some (Z.pos m * 2 ^ e)%Z
        else if (Z.pos m mod 2 ^ (- e) =? 0)%Z then Some (Z.pos m / 2 ^ (- e))%Z
        else None in
      match mag with
      | Some z => Some (if sign then - z else z)%Z
      | None => None
      end
  | _ => None
  end.

Definition zToString (z : Z) : string :=
  if (z <? 0)%Z then "-" ++ Js.natToString (Z.to_nat (- z))
  else Js.natToString (Z.to_nat z).

Definition runtime : Runtime := {|
  numberToString := fun x =>
    if PrimFloat.is_nan x then "NaN"
    else if PrimFloat.is_infinity x
    then (if PrimFloat.ltb x 0 then "-Infinity" else "Infinity")
    else match integerOf x with
         | Some z => zToString z
         | None => ""
         end;
  stringToNumber := fun s =>
    if negb (s =? "")%string && Val.allDigits s then Js.ofInt (Js.parseInt s 10)
    else PrimFloat.nan;
  localeCompare := fun a b =>
    match String.compare a b with
    | Lt => (-1)%float
    | Eq => 0%float
    | Gt => 1%float
    end
|}.

End Host.

(** ** src/query/aggregation.ts *)

Module Aggregation.

(** The walk of [getNestedValue] along the parts of a dotted path. *)
Fixpoint walk (parts : list string) (current : Value) : Value :=
  match parts with
  | [] => current
  | part :: rest =>
      match current with
      | VNull | VUndefined => VUndefined
      | VObj _ | VArr _ => walk rest (Val.member current part)
      | _ => VUndefined
      end
  end.

Definition getNestedValue (record : ZeekRecord) (field : string) : Value :=
  if Val.hasProp field record then Val.prop field record
  else walk (Js.split "." field) (VObj record).

Record GroupResult : Type := {
  key : string;
  count : nat;
  percentage : float
}.

Record AggregationResult : Type := {
  field : string;
  groups : list GroupResult;
  total : nat
}.

Section WithRuntime.
Context (rt : Runtime).

(** One iteration of the counting loop of [groupBy]. *)
Definition groupCount (field : string) (counts : list (string * nat)) (record : ZeekRecord)
  : list (string * nat) :=
  let value := getNestedValue record field in
  let key :=
    match value with
    | VUndefined | VNull => "(unset)"
    | _ => Val.toString rt value
    end in
  Js.mapSet key (match Js.mapGet key counts with Some n => n | None => 0 end + 1) counts.

(** [(a, b) => b[1] - a[1]] *)
Definition byCountDesc (a b : string * nat) : float :=
  (Js.ofNat (snd b) - Js.ofNat (snd a))%float.

(** [groupBy(records, field, limit = 20)]; [None] is an omitted limit. *)
Definition groupBy (records : list ZeekRecord) (field : string) (limit : option Z)
  : AggregationResult :=
  let counts := fold_left (groupCount field) records [] in
  let sorted :=
    Js.slice0 (match limit with Some n => n | None => 20%Z end)
      (Js.sort byCountDesc counts) in
  let total := List.length records in
  {| field := field;
     total := total;
     groups :=
       map (fun kc : string * nat =>
              {| key := fst kc;
                 count := snd kc;
                 percentage :=
                   if (0 <? total)%nat
                   then (Js.round ((Js.ofNat (snd kc) / Js.ofNat total) * 10000) / 100)%float
                   else 0%float |})
           sorted |}.

End WithRuntime.

Definition sumField (records : list ZeekRecord) (field : string) : float :=
  fold_left
    (fun total record =>
       match getNestedValue record field with
       | VNum x => if negb (PrimFloat.is_nan x) then (total + x)%float else total
       | _ => total
       end)
    records 0%float.

(** The loop of [avgField]: the running [total] and [count]. *)
Definition avgStep (field : string) (acc : float * float) (record : ZeekRecord) : float * float :=
  match getNestedValue record field with
  | VNum x =>
      if negb (PrimFloat.is_nan x) then (fst acc + x, snd acc + 1)%float else acc
  | _ => acc
  end.

Definition avgField (records : list ZeekRecord) (field : string) : float :=
  let '(total, count) := fold_left (avgStep field) records (0%float, 0%float) in
  if PrimFloat.ltb 0 count then (total / count)%float else 0%float.

End Aggregation.

(** ** src/query/engine.ts *)

Module Engine.

Inductive Op : Type :=
| OpEq | OpNeq | OpGt | OpGte | OpLt | OpLte
| OpContains | OpWildcard | OpCidr | OpIn | OpExists
| OpOther.   (* any other tag: the [default] branch *)

Record FilterDef : Type := {
  field : string;
  op : Op;
  value : Value
}.

Inductive SortOrder : Type := Asc | Desc.

(** [QueryOptions]; an optional member that is left out is [None].
    [limit] is an integer. *)
Record QueryOptions : Type := {
  logType : string;
  filters : option (list FilterDef);
  timeFrom : option string;
  timeTo : option string;
  sortBy : option string;
  sortOrder : option SortOrder;
  limit : option Z
}.

(** [ZeekConfig] (src/config.ts); [maxResults] is an integer. *)
Record ZeekConfig : Type := {
  logDir : string;
  logArchive : string;
  logFormat : string;
  maxResults : Z
}.

(** *** The matchers private to the engine *)

(** The engine's own [ipv4ToNum], the same text as the one of
    [filters.ts]. *)
Fixpoint ipv4Octets (parts : list string) (num : Z) : option Z :=
  match parts with
  | [] => Some (Js.ushr0 num)
  | part :: rest =>
      match Js.parseInt part 10 with
      | None => None
      | Some octet =>
          if ((octet <? 0) || (octet >? 255))%Z then None
          else ipv4Octets rest (Js.bor (Js.shl num 8) octet)
      end
  end.

Definition ipv4ToNum (ip : string) : option Z :=
  let parts := Js.split "." ip in
  if negb (List.length parts =? 4)%nat then None
  else ipv4Octets parts 0.

(** The engine's own [matchCidr]: it has no IPv6 branch. *)
Definition matchCidr (ip cidr : string) : bool :=
  if negb (Js.includes cidr "/") then (ip =? cidr)%string
  else
    let parts := Js.split "/" cidr in
    let network := nth 0 parts "" in
    let prefixStr := nth 1 parts "" in
    let prefix := Js.parseInt prefixStr 10 in
    match ipv4ToNum ip, ipv4ToNum network with
    | Some ipNum, Some netNum =>
        let mask := Filters.mask32 prefix in
        (Js.band ipNum mask =? Js.band netNum mask)%Z
    | _, _ => false
    end.

(** The regular expression that [matchWildcard] builds is
    [^seg0.*seg1.* ... .*segn$] with the flag [i]: the segments of the
    pattern between the stars, each matched literally and without regard
    to case, with any run of characters other than line terminators in
    between. *)
Definition isLineTerminator (c : ascii) : bool :=
  ((Js.code c =? 10) || (Js.code c =? 13))%Z.

Fixpoint stripPrefixCI (seg v : string) : option string :=
  match seg, v with
  | EmptyString, _ => Some v
  | String a seg', String b v' =>
      if Ascii.eqb (Js.lowerChar a) (Js.lowerChar b) then stripPrefixCI seg' v'
      else None
  | String _ _, EmptyString => None
  end.

(** [.*] followed by what [k] accepts *)
Fixpoint anyThen (k : string -> bool) (v : string) : bool :=
  k v
  || match v with
     | EmptyString => false
     | String c v' => negb (isLineTerminator c) && anyThen k v'
     end.

Fixpoint matchSegments (segs : list string) (v : string) : bool :=
  match segs with
  | [] => (v =? "")%string
  | seg :: rest =>
      anyThen (fun v' => match stripPrefixCI seg v' with
                         | Some v'' => matchSegments rest v''
                         | None => false
                         end) v
  end.

Definition matchWildcard (value pattern : string) : bool :=
  if negb (Js.includes pattern "*")
  then (Js.toLowerCase value =? Js.toLowerCase pattern)%string
  else
    match Js.split "*" pattern with
    | [] => false
    | seg :: rest =>
        match stripPrefixCI seg value with
        | Some v' => matchSegments rest v'
        | None => false
        end
    end.

Section WithRuntime.
Context (rt : Runtime).

Definition applyFilter (record : ZeekRecord) (filter : FilterDef) : bool :=
  let value := Aggregation.getNestedValue record (field filter) in
  let fv := Engine.value filter in
  match op filter with
  | OpEq =>
      Val.strictEq value fv
      || (Val.toString rt value =? Val.toString rt fv)%string
  | OpNeq =>
      negb (Val.strictEq value fv)
      && negb (Val.toString rt value =? Val.toString rt fv)%string
  | OpGt =>
      match value with
      | VNum x => PrimFloat.ltb (Val.toNumber rt fv) x
      | _ => false
      end
  | OpGte =>
      match value with
      | VNum x => PrimFloat.leb (Val.toNumber rt fv) x
      | _ => false
      end
  | OpLt =>
      match value with
      | VNum x => PrimFloat.ltb x (Val.toNumber rt fv)
      | _ => false
      end
  | OpLte =>
      match value with
      | VNum x => PrimFloat.leb x (Val.toNumber rt fv)
      | _ => false
      end
  | OpContains =>
      let needle := Js.toLowerCase (Val.toString rt fv) in
      match value with
      | VStr s => Js.includes (Js.toLowerCase s) needle
      | VArr elems =>
          existsb (fun v => Js.includes (Js.toLowerCase (Val.toString rt v)) needle) elems
      | _ => false
      end
  | OpWildcard =>
      matchWildcard (Val.toString rt (Val.orElse value (VStr ""))) (Val.toString rt fv)
  | OpCidr =>
      matchCidr (Val.toString rt (Val.orElse value (VStr ""))) (Val.toString rt fv)
  | OpIn =>
      match fv with
      | VArr elems =>
          existsb (fun e => Val.sameValueZero e value) elems
          || existsb (fun e => (e =? Val.toString rt value)%string)
               (map (Val.toString rt) elems)
      | _ => false
      end
  | OpExists =>
      match value with
      | VUndefined | VNull => false
      | _ => true
      end
  | OpOther => true
  end.

(** The comparator of [executeQuery]. *)
Definition compareRecords (sortField : string) (sortOrder : SortOrder) (a b : ZeekRecord) : float :=
  let aVal := Aggregation.getNestedValue a sortField in
  let bVal := Aggregation.getNestedValue b sortField in
  match aVal, bVal with
  | VUndefined, VUndefined => 0%float
  | VUndefined, _ => 1%float
  | _, VUndefined => (-1)%float
  | _, _ =>
      let cmp :=
        match aVal, bVal with
        | VNum x, VNum y => (x - y)%float
        | _, _ => localeCompare rt (Val.toString rt aVal) (Val.toString rt bVal)
        end in
      match sortOrder with
      | Desc => (- cmp)%float
      | Asc => cmp
      end
  end.

(** The records that pass every filter, sorted: [filtered] at the point
    where [executeQuery] computes its limit. *)
Definition sortedMatches (options : QueryOptions) (records : list ZeekRecord) : list ZeekRecord :=
  let filtered :=
    match filters options with
    | Some (f :: fs) =>
        filter (fun record => forallb (applyFilter record) (f :: fs)) records
    | _ => records
    end in
  let sortField := match sortBy options with Some f => f | None => "ts" end in
  let sortOrder := match sortOrder options with Some o => o | None => Desc end in
  Js.sort (compareRecords sortField sortOrder) filtered.

(** [executeQuery(config, options)], as a function of the records that
    [queryLog] returned for the options' log type and time range. *)
Definition executeQuery (config : ZeekConfig) (options : QueryOptions)
    (records : list ZeekRecord) : list ZeekRecord :=
  let filtered := sortedMatches options records in
  let limit :=
    Z.min (match limit options with Some n => n | None => 100%Z end)
          (maxResults config) in
  Js.slice0 limit filtered.

End WithRuntime.

End Engine.

(** ** src/analytics/entropy.ts *)

Module Entropy.

Definition isHexDigit (c : ascii) : bool :=
  let n := Js.code c in
  (((48 <=? n) && (n <=? 57)) || ((97 <=? n) && (n <=? 102))
   || ((65 <=? n) && (n <=? 70)))%Z.

Definition isBase64Char (c : ascii) : bool :=
  let n := Js.code c in
  (((65 <=? n) && (n <=? 90)) || ((97 <=? n) && (n <=? 122))
   || ((48 <=? n) && (n <=? 57)) || (n =? 43) || (n =? 47))%Z.

(** [/^[0-9a-fA-F]+$/.test(s)] *)
Definition hexRe (s : string) : bool :=
  match s with
  | EmptyString => false
  | String c s' => isHexDigit c && forallb isHexDigit (list_ascii_of_string s')
  end.

(** The tail of [/^[A-Za-z0-9+/]+={0,2}$/] once a character of the class
    has been read: more of the class, then at most two [=], then the end. *)
Fixpoint base64Tail (s : string) : bool :=
  match s with
  | EmptyString => true
  | String c s' =>
      (isBase64Char c && base64Tail s')
      || (s =? "=")%string
      || (s =? "==")%string
  end.

(** [/^[A-Za-z0-9+/]+={0,2}$/.test(s)] *)
Definition base64Re (s : string) : bool :=
  match s with
  | EmptyString => false
  | String c s' => isBase64Char c && base64Tail s'
  end.

Inductive Encoding : Type := Hex | Base64.

(** [detectEncoding]; [None] is [null]. *)
Definition detectEncoding (input : string) : option Encoding :=
  if hexRe input && (10 <? String.length input)%nat
     && (String.length input mod 2 =? 0)%nat
  then Some Hex
  else if base64Re input && (10 <? String.length input)%nat
  then Some Base64
  else None.

End Entropy.

(** ** src/analytics/beaconing.ts *)

Module Beaconing.

Record BeaconCandidate : Type := {
  srcIp : string;
  dstIp : string;
  dstPort : float;
  connectionCount : nat;
  avgInterval : float;
  stdDevInterval : float;
  jitter : float;
  avgBytes : float;
  score : float
}.

(** [timestamps[i] - timestamps[i - 1]] for [i] from 1 *)
Fixpoint intervalsOf (timestamps : list float) : list float :=
  match timestamps with
  | a :: rest =>
      match rest with
      | b :: _ => (b - a)%float :: intervalsOf rest
      | [] => []
      end
  | [] => []
  end.

(** [intervals.reduce((a, b) => a + b, 0) / intervals.length] *)
Definition meanOf (intervals : list float) : float :=
  (fold_left PrimFloat.add intervals 0 / Js.ofNat (List.length intervals))%float.

(** The population standard deviation of the intervals around [avg];
    [Math.pow(d, 2)] is [d * d], the correctly rounded square. *)
Definition stdDevOf (intervals : list float) (avg : float) : float :=
  let variance :=
    (fold_left (fun sum i => sum + (i - avg) * (i - avg)) intervals 0
     / Js.ofNat (List.length intervals))%float in
  PrimFloat.sqrt variance.

(** [(stdDev / avgInterval) * 100] *)
Definition jitterOf (intervals : list float) : float :=
  let avg := meanOf intervals in
  ((stdDevOf intervals avg / avg) * 100)%float.

Section WithRuntime.
Context (rt : Runtime).

Definition srcOf (record : ZeekRecord) : string :=
  Val.toString rt (Val.orElse (Val.prop "id.orig_h" record) (VStr "")).

Definition dstOf (record : ZeekRecord) : string :=
  Val.toString rt (Val.orElse (Val.prop "id.resp_h" record) (VStr "")).

(** [!src || !dst || !ts] is false *)
Definition usable (record : ZeekRecord) : bool :=
  negb (srcOf record =? "")%string
  && negb (dstOf record =? "")%string
  && Val.truthy (Val.prop "ts" record).

Definition keyOf (record : ZeekRecord) : string :=
  srcOf record ++ "|" ++ dstOf record ++ "|"
  ++ Val.toString rt (Val.prop "id.resp_p" record).

(** One iteration of the grouping loop. *)
Definition pairStep (pairs : list (string * list Value)) (record : ZeekRecord)
  : list (string * list Value) :=
  if usable record then
    let key := keyOf record in
    Js.mapSet key
      (match Js.mapGet key pairs with Some l => l | None => [] end
       ++ [Val.prop "ts" record])
      pairs
  else pairs.

Definition pairsOf (records : list ZeekRecord) : list (string * list Value) :=
  fold_left pairStep records [].

(** [timestamps.sort((a, b) => a - b)], as numbers *)
Definition sortedTimes (timestamps : list Value) : list float :=
  map (Val.toNumber rt)
    (Js.sort (fun a b => (Val.toNumber rt a - Val.toNumber rt b)%float) timestamps).

(** The loop that averages the bytes of the related records: the running
    [totalBytes] and [byteCount]. *)
Definition bytesStep (acc : float * float) (r : ZeekRecord) : float * float :=
  let acc1 :=
    match Val.prop "orig_bytes" r with
    | VNum orig => (fst acc + orig, snd acc + 1)%float
    | _ => acc
    end in
  match Val.prop "resp_bytes" r with
  | VNum resp => (fst acc1 + resp, snd acc1)%float
  | _ => acc1
  end.

(** The body of the loop over the groups: [None] where the source says
    [continue]. *)
Definition analyzeGroup (records : list ZeekRecord) (minConnections maxJitterPercent : float)
    (entry : string * list Value) : option BeaconCandidate :=
  let key := fst entry in
  let timestamps := sortedTimes (snd entry) in
  if PrimFloat.ltb (Js.ofNat (List.length timestamps)) minConnections then None
  else
    let intervals := intervalsOf timestamps in
    if (List.length intervals =? 0)%nat then None
    else
      let avgInterval := meanOf intervals in
      if PrimFloat.eqb avgInterval 0 then None
      else
        let stdDev := stdDevOf intervals avgInterval in
        let jitter := ((stdDev / avgInterval) * 100)%float in
        if PrimFloat.ltb maxJitterPercent jitter then None
        else
          let parts := Js.split "|" key in
          let src := nth 0 parts "" in
          let dst := nth 1 parts "" in
          let port := nth 2 parts "" in
          let relatedRecords :=
            filter (fun r =>
                      (Val.toString rt (Val.prop "id.orig_h" r) =? src)%string
                      && (Val.toString rt (Val.prop "id.resp_h" r) =? dst)%string
                      && Val.strictEq (Val.prop "id.resp_p" r)
                           (VNum (Js.ofInt (Js.parseInt port 10))))
                   records in
          let '(totalBytes, byteCount) :=
            fold_left bytesStep relatedRecords (0%float, 0%float) in
          let avgBytes :=
            if PrimFloat.ltb 0 byteCount then (totalBytes / byteCount)%float
            else 0%float in
          let regularityScore := Js.max 0 (100 - jitter) in
          let volumeScore := Js.min 100 (Js.ofNat (List.length timestamps) / 2) in
          let score := (regularityScore * 0.7 + volumeScore * 0.3)%float in
          Some {| srcIp := src;
                  dstIp := dst;
                  dstPort := Js.ofInt (Js.parseInt port 10);
                  connectionCount := List.length timestamps;
                  avgInterval := (Js.round (avgInterval * 100) / 100)%float;
                  stdDevInterval := (Js.round (stdDev * 100) / 100)%float;
                  jitter := (Js.round (jitter * 100) / 100)%float;
                  avgBytes := Js.round avgBytes;
                  score := (Js.round (score * 100) / 100)%float |}.

Fixpoint collect (records : list ZeekRecord) (minConnections maxJitterPercent : float)
    (pairs : list (string * list Value)) : list BeaconCandidate :=
  match pairs with
  | [] => []
  | entry :: rest =>
      match analyzeGroup records minConnections maxJitterPercent entry with
      | Some c => c :: collect records minConnections maxJitterPercent rest
      | None => collect records minConnections maxJitterPercent rest
      end
  end.

(** [detectBeaconing(records, minConnections = 10, maxJitterPercent = 30)] *)
Definition detectBeaconing (records : list ZeekRecord)
    (minConnections maxJitterPercent : float) : list BeaconCandidate :=
  Js.sort (fun a b => (score b - score a)%float)
    (collect records minConnections maxJitterPercent (pairsOf records)).

End WithRuntime.

End Beaconing.

(** ** src/analytics/anomaly.ts: the port-scan detector *)

Module Anomaly.

Inductive Severity : Type := Low | Medium | High | Critical.

(** The [details] of a port-scan anomaly. *)
Record PortScanDetails : Type := {
  sourceIp : string;
  portsScanned : nat;
  uniqueTargets : nat;
  samplePorts : list Value
}.

Record AnomalyResult : Type := {
  type : string;
  severity : Severity;
  description : string;
  details : PortScanDetails
}.

Section WithRuntime.
Context (rt : Runtime).

Definition srcOf (record : ZeekRecord) : string :=
  Val.toString rt (Val.orElse (Val.prop "id.orig_h" record) (VStr "")).

Definition dstOf (record : ZeekRecord) : string :=
  Val.toString rt (Val.orElse (Val.prop "id.resp_h" record) (VStr "")).

Definition portOf (record : ZeekRecord) : Value := Val.prop "id.resp_p" record.

(** [connState === "S0" || connState === "REJ"] *)
Definition noResponse (record : ZeekRecord) : bool :=
  let connState := Val.toString rt (Val.orElse (Val.prop "conn_state" record) (VStr "")) in
  (connState =? "S0")%string || (connState =? "REJ")%string.

(** One iteration of the first loop, on [srcToPorts]. *)
Definition portsStep (srcToPorts : list (string * list Value)) (record : ZeekRecord)
  : list (string * list Value) :=
  if noResponse record then
    let src := srcOf record in
    Js.mapSet src
      (Js.setAdd Val.sameValueZero (portOf record)
         (match Js.mapGet src srcToPorts with Some s => s | None => [] end))
      srcToPorts
  else srcToPorts.

(** One iteration of the first loop, on [srcToTargets]. *)
Definition targetsStep (srcToTargets : list (string * list string)) (record : ZeekRecord)
  : list (string * list string) :=
  if noResponse record then
    let src := srcOf record in
    Js.mapSet src
      (Js.setAdd String.eqb (dstOf record)
         (match Js.mapGet src srcToTargets with Some s => s | None => [] end))
      srcToTargets
  else srcToTargets.

(** The body of the second loop: the anomalies that one entry of
    [srcToPorts] adds. *)
Definition report (srcToTargets : list (string * list string))
    (entry : string * list Value) : list AnomalyResult :=
  let src := fst entry in
  let ports := snd entry in
  if (50 <? List.length ports)%nat then
    let targets := match Js.mapGet src srcToTargets with Some s => s | None => [] end in
    [ {| type := "port_scan";
         severity := if (200 <? List.length ports)%nat then High else Medium;
         description :=
           src ++ " scanned " ++ Js.natToString (List.length ports)
           ++ " ports across " ++ Js.natToString (List.length targets) ++ " hosts";
         details :=
           {| sourceIp := src;
              portsScanned := List.length ports;
              uniqueTargets := List.length targets;
              samplePorts := Js.slice0 20 ports |} |} ]
  else [].

Definition detectPortScans (records : list ZeekRecord) : list AnomalyResult :=
  let srcToPorts := fold_left portsStep records [] in
  let srcToTargets := fold_left targetsStep records [] in
  flat_map (report srcToTargets) srcToPorts.

End WithRuntime.

End Anomaly.

(** ** src/query/filters.ts: the string and range matchers *)

Module Matchers.

(** [matchWildcard] of [filters.ts]: the same text as the engine's private
    one, hence the same regular expression. *)
Definition matchWildcard (value pattern : string) : bool :=
  if negb (Js.includes pattern "*")
  then (Js.toLowerCase value =? Js.toLowerCase pattern)%string
  else
    match Js.split "*" pattern with
    | [] => false
    | seg :: rest =>
        match Engine.stripPrefixCI seg value with
        | Some v' => Engine.matchSegments rest v'
        | None => false
        end
    end.

Definition matchPartial (value search : string) : bool :=
  Js.includes (Js.toLowerCase value) (Js.toLowerCase search).

(** [inRange(value, min?, max?)]; [None] is [undefined] (for the value,
    also [null]). *)
Definition inRange (value min max : option float) : bool :=
  match value with
  | None => false
  | Some v =>
      if match min with Some m => PrimFloat.ltb v m | None => false end then false
      else if match max with Some m => PrimFloat.ltb m v | None => false end then false
      else true
  end.

End Matchers.

(** ** src/query/aggregation.ts: [countUnique] and [topN] *)

Module Counting.

Record TopEntry : Type := {
  value : string;
  count : nat
}.

Section WithRuntime.
Context (rt : Runtime).

(** One iteration of the loop of [countUnique]. *)
Definition uniqueStep (field : string) (values : list string) (record : ZeekRecord)
  : list string :=
  match Aggregation.getNestedValue record field with
  | VUndefined | VNull => values
  | v => Js.setAdd String.eqb (Val.toString rt v) values
  end.

Definition countUnique (records : list ZeekRecord) (field : string) : nat :=
  List.length (fold_left (uniqueStep field) records []).

(** One iteration of the counting loop of [topN]. *)
Definition topStep (field : string) (counts : list (string * nat)) (record : ZeekRecord)
  : list (string * nat) :=
  match Aggregation.getNestedValue record field with
  | VUndefined | VNull => counts
  | v =>
      let key := Val.toString rt v in
      Js.mapSet key (match Js.mapGet key counts with Some n => n | None => 0 end + 1) counts
  end.

(** [topN(records, field, n = 10)]; [None] is an omitted [n]. *)
Definition topN (records : list ZeekRecord) (field : string) (n : option Z)
  : list TopEntry :=
  map (fun kc : string * nat => {| value := fst kc; count := snd kc |})
    (Js.slice0 (match n with Some k => k | None => 10%Z end)
       (Js.sort Aggregation.byCountDesc (fold_left (topStep field) records []))).

End WithRuntime.

End Counting.

(** ** src/analytics/anomaly.ts: the other detectors *)

Module Detectors.

Record ExfiltrationDetails : Type := {
  sourceIp : string;
  bytesSent : float;
  threshold : float;
  iqr : float
}.

Record UnusualPortDetails : Type := {
  port : Value;
  connectionCount : nat
}.

(** The [details] of an anomaly, by the detector that reports it. *)
Inductive Details : Type :=
| PortScan (d : Anomaly.PortScanDetails)
| Exfiltration (d : ExfiltrationDetails)
| UnusualPort (d : UnusualPortDetails).

Record AnomalyResult : Type := {
  type : string;
  severity : Anomaly.Severity;
  description : string;
  details : Details
}.

(** An anomaly of the port-scan detector, as a member of the common list. *)
Definition ofPortScan (a : Anomaly.AnomalyResult) : AnomalyResult :=
  {| type := Anomaly.type a;
     severity := Anomaly.severity a;
     description := Anomaly.description a;
     details := PortScan (Anomaly.details a) |}.

(** [allBytes[index]] for a number [index]: the element at an integer
    index within the array, [undefined] otherwise, which the arithmetic
    that follows reads as NaN. *)
Definition at_ (allBytes : list float) (index : float) : float :=
  match Host.integerOf index with
  | Some z => if (z <? 0)%Z then PrimFloat.nan else nth (Z.to_nat z) allBytes PrimFloat.nan
  | None => PrimFloat.nan
  end.

Definition commonPorts : list float :=
  [ 20; 21; 22; 25; 53; 67; 68; 80; 110; 123; 143; 161;
    162; 389; 443; 445; 465; 514; 587; 636; 993; 995;
    1433; 1521; 3306; 3389; 5432; 5900; 8080; 8443; 8888 ]%float.

(** [unusualPortCounts.get(port)] and [unusualPortCounts.set(port, n)]: a
    [Map] keyed by the port values, compared by SameValueZero. *)
Fixpoint portGet (k : Value) (m : list (Value * nat)) : option nat :=
  match m with
  | [] => None
  | (k', n) :: m' => if Val.sameValueZero k' k then Some n else portGet k m'
  end.

Fixpoint portSet (k : Value) (n : nat) (m : list (Value * nat)) : list (Value * nat) :=
  match m with
  | [] => [(k, n)]
  | (k', n') :: m' =>
      if Val.sameValueZero k' k then (k', n) :: m'
      else (k', n') :: portSet k n m'
  end.

Section WithRuntime.
Context (rt : Runtime).

(** [x.toFixed(1)], a service of the runtime. *)
Context (toFixed1 : float -> string).

Definition formatBytes (bytes : float) : string :=
  if PrimFloat.leb 1073741824 bytes then toFixed1 (bytes / 1073741824)%float ++ " GB"
  else if PrimFloat.leb 1048576 bytes then toFixed1 (bytes / 1048576)%float ++ " MB"
  else if PrimFloat.leb 1024 bytes then toFixed1 (bytes / 1024)%float ++ " KB"
  else numberToString rt bytes ++ " B".

(** One iteration of the first loop of [detectDataExfiltration]. *)
Definition bytesStep (srcBytes : list (string * float)) (record : ZeekRecord)
  : list (string * float) :=
  let src := Anomaly.srcOf rt record in
  match Val.prop "orig_bytes" record with
  | VNum bytes =>
      if PrimFloat.ltb 0 bytes
      then Js.mapSet src
             (match Js.mapGet src srcBytes with Some b => b | None => 0%float end + bytes)%float
             srcBytes
      else srcBytes
  | _ => srcBytes
  end.

(** The body of the second loop: the anomalies that one entry of
    [srcBytes] adds. *)
Definition exfiltrationReport (threshold iqr : float) (entry : string * float)
  : list AnomalyResult :=
  let src := fst entry in
  let bytes := snd entry in
  if PrimFloat.ltb threshold bytes && PrimFloat.ltb 104857600 bytes then
    [ {| type := "data_exfiltration";
         severity := if PrimFloat.ltb 1073741824 bytes then Anomaly.Critical else Anomaly.High;
         description := src ++ " sent " ++ formatBytes bytes ++ " - statistical outlier";
         details :=
           Exfiltration {| sourceIp := src;
                           bytesSent := bytes;
                           threshold := threshold;
                           iqr := iqr |} |} ]
  else [].

(** [allBytes], sorted in place. *)
Definition sortedBytes (srcBytes : list (string * float)) : list float :=
  Js.sort (fun a b => (a - b)%float) (map snd srcBytes).

Definition q3Of (allBytes : list float) : float :=
  at_ allBytes (Js.floor (Js.ofNat (List.length allBytes) * 0.75)%float).

Definition q1Of (allBytes : list float) : float :=
  at_ allBytes (Js.floor (Js.ofNat (List.length allBytes) * 0.25)%float).

Definition detectDataExfiltration (records : list ZeekRecord) : list AnomalyResult :=
  let srcBytes := fold_left bytesStep records [] in
  if (List.length (map snd srcBytes) <? 3)%nat then []
  else
    let allBytes := sortedBytes srcBytes in
    let q3 := q3Of allBytes in
    let q1 := q1Of allBytes in
    let iqr := (q3 - q1)%float in
    let threshold := (q3 + 3 * iqr)%float in
    flat_map (exfiltrationReport threshold iqr) srcBytes.

(** [port && !commonPorts.has(port) && port > 0 && port < 65536 && !service] *)
Definition unusual (record : ZeekRecord) : bool :=
  let port := Anomaly.portOf record in
  let service := Val.toString rt (Val.orElse (Val.prop "service" record) (VStr "")) in
  Val.truthy port
  && negb (existsb (fun c => Val.sameValueZero (VNum c) port) commonPorts)
  && PrimFloat.ltb 0 (Val.toNumber rt port)
  && PrimFloat.ltb (Val.toNumber rt port) 65536
  && (service =? "")%string.

(** One iteration of the loop of [detectUnusualPorts]. *)
Definition portStep (unusualPortCounts : list (Value * nat)) (record : ZeekRecord)
  : list (Value * nat) :=
  if unusual record then
    let port := Anomaly.portOf record in
    portSet port
      (match portGet port unusualPortCounts with Some n => n | None => 0 end + 1)
      unusualPortCounts
  else unusualPortCounts.

(** [(a, b) => b[1] - a[1]] *)
Definition byCountDesc (a b : Value * nat) : float :=
  (Js.ofNat (snd b) - Js.ofNat (snd a))%float.

Definition highVolumePorts (records : list ZeekRecord) : list (Value * nat) :=
  Js.sort byCountDesc
    (filter (fun e => (20 <? snd e)%nat) (fold_left portStep records [])).

Definition unusualPortReport (entry : Value * nat) : AnomalyResult :=
  {| type := "unusual_port";
     severity := Anomaly.Low;
     description :=
       Js.natToString (snd entry) ++ " connections to unusual port "
       ++ Val.toString rt (fst entry) ++ " without identified service";
     details := UnusualPort {| port := fst entry; connectionCount := snd entry |} |}.

Definition detectUnusualPorts (records : list ZeekRecord) : list AnomalyResult :=
  map unusualPortReport (Js.slice0 10 (highVolumePorts records)).

Definition detectConnectionAnomalies (records : list ZeekRecord) : list AnomalyResult :=
  map ofPortScan (Anomaly.detectPortScans rt records)
  ++ detectDataExfiltration records
  ++ detectUnusualPorts records.

End WithRuntime.

End Detectors.

(** ** src/config.ts *)

Module Config.

(** The double quote. *)
Definition quote : string := Js.str1 (ascii_of_nat 34).

(** [getConfig()], as a function of the environment: [env name] is
    [process.env[name]], [None] for a variable that is not set.  The result
    is the configuration, or the message of the error thrown. *)
Definition getConfig (env : string -> option string) : string + Engine.ZeekConfig :=
  let logDir :=
    match env "ZEEK_LOG_DIR" with Some v => v | None => "/opt/zeek/logs/current" end in
  let logArchive :=
    match env "ZEEK_LOG_ARCHIVE" with Some v => v | None => "/opt/zeek/logs" end in
  let logFormat :=
    match env "ZEEK_LOG_FORMAT" with Some v => v | None => "json" end in
  let maxResults :=
    Js.parseInt (match env "ZEEK_MAX_RESULTS" with Some v => v | None => "1000" end) 10 in
  if negb (logFormat =? "json")%string && negb (logFormat =? "tsv")%string then
    inl ("Invalid ZEEK_LOG_FORMAT: " ++ quote ++ logFormat ++ quote ++ ". Must be "
         ++ quote ++ "json" ++ quote ++ " or " ++ quote ++ "tsv" ++ quote ++ ".")%string
  else
    let invalid :=
      ("Invalid ZEEK_MAX_RESULTS: " ++ quote
      ++ match env "ZEEK_MAX_RESULTS" with Some v => v | None => "undefined" end
      ++ quote ++ ". Must be a positive integer.")%string in
    match maxResults with
    | None => inl invalid
    | Some n =>
        if (n <? 1)%Z then inl invalid
        else inr {| Engine.logDir := logDir;
                    Engine.logArchive := logArchive;
                    Engine.logFormat := logFormat;
                    Engine.maxResults := n |}
    end.

End Config.

(** ** src/parser/index.ts: the time window of [queryLog] *)

Module Parser.

Section WithRuntime.
Context (rt : Runtime).

(** [new Date(s).getTime() / 1000], a service of the runtime; NaN for a
    string that is not a date. *)
Context (dateSeconds : string -> float).

(** [timeFrom ? new Date(timeFrom).getTime() / 1000 : undefined] *)
Definition bound (time : option string) : option float :=
  match time with
  | Some s => if (s =? "")%string then None else Some (dateSeconds s)
  | None => None
  end.

(** The predicate of the closing [filter] of [queryLog]. *)
Definition inWindow (fromTs toTs : option float) (r : ZeekRecord) : bool :=
  if match fromTs with
     | Some f => PrimFloat.ltb (Val.toNumber rt (Val.prop "ts" r)) f
     | None => false
     end
  then false
  else if match toTs with
          | Some t => PrimFloat.ltb t (Val.toNumber rt (Val.prop "ts" r))
          | None => false
          end
  then false
  else true.

(** [queryLog(config, logType, timeFrom, timeTo)], as a function of
    [allRecords], the records read from the log files. *)
Definition queryLog (timeFrom timeTo : option string) (allRecords : list ZeekRecord)
  : list ZeekRecord :=
  filter (inWindow (bound timeFrom) (bound timeTo)) allRecords.

End WithRuntime.

End Parser.

(** ** The connection tools (src/tools/connections.ts): their queries *)

Module ConnectionTools.








(** The options of [zeek_connection_summary]. *)
Definition summaryQuery (config : Engine.ZeekConfig) (timeFrom timeTo : option string)
  : Engine.QueryOptions :=
  {| Engine.logType := "conn";
     Engine.filters := None;
     Engine.timeFrom := timeFrom;
     Engine.timeTo := timeTo;
     Engine.sortBy := None;
     Engine.sortOrder := None;
     Engine.limit := Some (Engine.maxResults config) |}.

(** The options of [zeek_long_connections]. *)
Definition longConnectionsQuery (minDuration : float) (timeFrom timeTo : option string)
    (limit : Z) : Engine.QueryOptions :=
  {| Engine.logType := "conn";
     Engine.filters :=
       Some [ {| Engine.field := "duration"; Engine.op := Engine.OpGte;
                 Engine.value := VNum minDuration |} ];
     Engine.timeFrom := timeFrom;
     Engine.timeTo := timeTo;
     Engine.sortBy := Some "duration";
     Engine.sortOrder := Some Engine.Desc;
     Engine.limit := Some limit |}.

End ConnectionTools.

(** ** src/parser/tsv.ts: the reader of a data line *)

Module Tsv.

Record TsvHeader : Type := {
  separator : string;
  setSeparator : string;
  emptyField : string;
  unsetField : string;
  path : option string;
  open : option string;
  fields : list string;
  types : list string
}.

(** What [parseTsvRecord] does with a line: it returns a record, returns
    [null], or throws the [TypeError] of [type.startsWith] on a column
    that has a field name but no type. *)
Inductive Outcome : Type :=
| Parsed (record : ZeekRecord)
| Null
| Thrown.

(** [s.split(sep)]: for the empty separator the code units of [s]. *)
Definition splitBy (sep s : string) : list string :=
  if (sep =? "")%string then map Js.str1 (list_ascii_of_string s)
  else Js.split sep s.

Definition isCollection (type : string) : bool :=
  String.prefix "set[" type || String.prefix "vector[" type.

Definition getEmptyValue (type : string) : Value :=
  if isCollection type then VArr []
  else if (type =? "string")%string then VStr ""
  else if (type =? "count")%string || (type =? "int")%string || (type =? "port")%string
  then VNum 0
  else if (type =? "double")%string || (type =? "time")%string || (type =? "interval")%string
  then VNum 0
  else if (type =? "bool")%string then VBool false
  else VStr "".

(** [s.replace(/\]$/, "")] *)
Fixpoint dropFinalBracket (s : string) : string :=
  match s with
  | EmptyString => ""
  | String c s' =>
      if (s =? "]")%string then "" else String c (dropFinalBracket s')
  end.

(** [type.replace(/^(set|vector)\[/, "")] *)
Definition dropCollectionPrefix (type : string) : string :=
  if String.prefix "set[" type then String.substring 4 (String.length type - 4) type
  else if String.prefix "vector[" type then String.substring 7 (String.length type - 7) type
  else type.

Section WithRuntime.

(** [parseFloat], a service of the runtime. *)
Context (parseFloat : string -> float).

Definition convertScalar (raw type : string) : Value :=
  if (type =? "time")%string || (type =? "double")%string || (type =? "interval")%string
  then VNum (parseFloat raw)
  else if (type =? "count")%string || (type =? "int")%string || (type =? "port")%string
  then VNum (Js.ofInt (Js.parseInt raw 10))
  else if (type =? "bool")%string
  then VBool ((raw =? "T")%string || (raw =? "true")%string)
  else VStr raw.

Definition convertValue (raw type setSeparator : string) : Value :=
  if isCollection type then
    if (raw =? "")%string then VArr []
    else
      let innerType := dropFinalBracket (dropCollectionPrefix type) in
      VArr (map (fun item => convertScalar item innerType) (splitBy setSeparator raw))
  else convertScalar raw type.

(** The loop over the columns, from the column whose field name, type and
    value head the three lists; [None] when it throws. *)
Fixpoint columns (header : TsvHeader) (fields types values : list string)
    (record : ZeekRecord) : option ZeekRecord :=
  match fields, values with
  | field :: fields', raw :: values' =>
      if (raw =? unsetField header)%string
      then columns header fields' (tl types) values' record
      else
        match types with
        | [] => None
        | type :: types' =>
            let v :=
              if (raw =? emptyField header)%string then getEmptyValue type
              else convertValue raw type (setSeparator header) in
            columns header fields' types' values' (Js.mapSet field v record)
        end
  | _, _ => Some record
  end.

Context (rt : Runtime).

(** The closing step: a [ts] that is there becomes a number. *)
Definition normalizeTs (record : ZeekRecord) : ZeekRecord :=
  match Val.prop "ts" record with
  | VUndefined => record
  | VNum x => Js.mapSet "ts" (VNum x) record
  | v => Js.mapSet "ts" (VNum (parseFloat (Val.toString rt v))) record
  end.

Definition parseTsvRecord (line : string) (header : TsvHeader) : Outcome :=
  if String.prefix "#" line || (Js.trimStart line =? "")%string then Null
  else
    let values := splitBy (separator header) line in
    match columns header (fields header) (types header) values [] with
    | None => Thrown
    | Some record => Parsed (normalizeTs record)
    end.

End WithRuntime.

End Tsv.

(** ** The SSH tools: the brute-force report *)

Module SshTools.

(** What the handler of [zeek_ssh_bruteforce] keeps for a source. *)
Record Entry : Type := {
  count : nat;
  targets : list string;
  firstSeen : float;
  lastSeen : float
}.



Section WithRuntime.
Context (rt : Runtime).

(** [new Date(x).toISOString()], a service of the runtime; [None] where it
    throws, as it does for a time that is no number. *)
Context (toISOString : float -> option string).


(** [(a, b) => b[1].count - a[1].count] *)
Definition byCountDesc (a b : string * Entry) : float :=
  (Js.ofNat (count (snd b)) - Js.ofNat (count (snd a)))%float.





End WithRuntime.

End SshTools.

(** * The vocabulary of the properties

    What the statements below speak of: the readings of the claims'
    words on the embedding, and the records of the examples. *)

(** ** Encoding detection *)

(** What the second regular expression accepts, in words: a non-empty run
    of characters of the base64 alphabet, then at most two [=]. *)
Definition base64Shape (s : string) : Prop :=
  exists body pad : string,
    s = (body ++ pad)%string
    /\ body <> ""
    /\ forallb Entropy.isBase64Char (list_ascii_of_string body) = true
    /\ (pad = "" \/ pad = "=" \/ pad = "==").

(** The condition under which [detectEncoding] answers "hex". *)
Definition hexCondition (s : string) : bool :=
  forallb Entropy.isHexDigit (list_ascii_of_string s)
  && (10 <? String.length s)%nat
  && Nat.even (String.length s).

(** ** The query executor *)

(** The limit a caller asks for: the option's, or 100. *)
Definition requestedLimit (options : Engine.QueryOptions) : Z :=
  match Engine.limit options with
  | Some n => n
  | None => 100%Z
  end.

(** The options with another limit. *)
Definition withLimit (limit : option Z) (options : Engine.QueryOptions) : Engine.QueryOptions :=
  {| Engine.logType := Engine.logType options;
     Engine.filters := Engine.filters options;
     Engine.timeFrom := Engine.timeFrom options;
     Engine.timeTo := Engine.timeTo options;
     Engine.sortBy := Engine.sortBy options;
     Engine.sortOrder := Engine.sortOrder options;
     Engine.limit := limit |}.

(** The field a query sorts by. *)
Definition sortFieldOf (options : Engine.QueryOptions) : string :=
  match Engine.sortBy options with
  | Some f => f
  | None => "ts"
  end.

(** The direction a query sorts in. *)
Definition sortOrderOf (options : Engine.QueryOptions) : Engine.SortOrder :=
  match Engine.sortOrder options with
  | Some o => o
  | None => Engine.Desc
  end.

(** The sort field of a record resolves to absent. *)
Definition absentIn (options : Engine.QueryOptions) (record : ZeekRecord) : Prop :=
  Aggregation.getNestedValue record (sortFieldOf options) = VUndefined.

(** Four records that carry a timestamp only. *)
Definition fourRecords : list ZeekRecord :=
  [ [("ts", VNum 1)]; [("ts", VNum 2)]; [("ts", VNum 3)]; [("ts", VNum 4)] ].

(** A configuration whose ceiling is 2. *)
Definition ceilingTwo : Engine.ZeekConfig :=
  {| Engine.logDir := "/opt/zeek/logs/current";
     Engine.logArchive := "/opt/zeek/logs";
     Engine.logFormat := "json";
     Engine.maxResults := 2 |}.

(** A query without filters, sorted by the default, with the given limit. *)
Definition plainQuery (limit : option Z) : Engine.QueryOptions :=
  {| Engine.logType := "conn";
     Engine.filters := None;
     Engine.timeFrom := None;
     Engine.timeTo := None;
     Engine.sortBy := None;
     Engine.sortOrder := None;
     Engine.limit := limit |}.

(** [n] records with the timestamps 1 to [n]. *)
Definition manyRecords (n : nat) : list ZeekRecord :=
  map (fun i => [("ts", VNum (Js.ofNat i))]) (seq 1 n).

(** The default configuration: a ceiling of 1000. *)
Definition ceilingThousand : Engine.ZeekConfig :=
  {| Engine.logDir := "/opt/zeek/logs/current";
     Engine.logArchive := "/opt/zeek/logs";
     Engine.logFormat := "json";
     Engine.maxResults := 1000 |}.

(** The direction applied to a comparison result. *)
Definition directed (order : Engine.SortOrder) (cmp : float) : float :=
  match order with
  | Engine.Desc => (- cmp)%float
  | Engine.Asc => cmp
  end.

(** "An absent record is followed by absent records only." *)
Definition absentThen (f : string) (a b : ZeekRecord) : Prop :=
  Aggregation.getNestedValue a f = VUndefined ->
  Aggregation.getNestedValue b f = VUndefined.

(** A query that sorts by [duration]. *)
Definition byDuration (order : Engine.SortOrder) : Engine.QueryOptions :=
  {| Engine.logType := "conn";
     Engine.filters := None;
     Engine.timeFrom := None;
     Engine.timeTo := None;
     Engine.sortBy := Some "duration";
     Engine.sortOrder := Some order;
     Engine.limit := Some 100%Z |}.

(** Records with the durations 5, none, 1 and 3. *)
Definition durations : list ZeekRecord :=
  [ [("uid", VStr "a"); ("duration", VNum 5)];
    [("uid", VStr "b")];
    [("uid", VStr "c"); ("duration", VNum 1)];
    [("uid", VStr "d"); ("duration", VNum 3)] ].

(** ** Aggregation *)

(** [typeof value === "number" && !isNaN(value)]: the values that
    [sumField] and [avgField] take into account. *)
Definition isNumberNotNaN (value : Value) : bool :=
  match value with
  | VNum x => negb (PrimFloat.is_nan x)
  | _ => false
  end.

(** A finite number: a number that is neither NaN nor infinite. *)
Definition isFiniteNumber (value : Value) : bool :=
  match value with
  | VNum x => negb (PrimFloat.is_nan x) && negb (PrimFloat.is_infinity x)
  | _ => false
  end.

(** The records whose value for the field is taken into account. *)
Definition counted (field : string) (record : ZeekRecord) : bool :=
  isNumberNotNaN (Aggregation.getNestedValue record field).

(** One iteration of the loop of [sumField]. *)
Definition sumStep (field : string) (total : float) (record : ZeekRecord) : float :=
  match Aggregation.getNestedValue record field with
  | VNum x => if negb (PrimFloat.is_nan x) then (total + x)%float else total
  | _ => total
  end.

(** The numbers that are taken into account, in the order of their
    records. *)
Definition countedValues (field : string) (records : list ZeekRecord) : list float :=
  flat_map (fun r =>
              match Aggregation.getNestedValue r field with
              | VNum x => if PrimFloat.is_nan x then [] else [x]
              | _ => []
              end)
           records.

(** [total += value] for each of the numbers in turn, from 0. *)
Definition addUp (values : list float) : float :=
  fold_left PrimFloat.add values 0%float.

(** [count++] for each of the numbers in turn, from 0. *)
Definition countUp (values : list float) : float :=
  fold_left (fun count _ => (count + 1)%float) values 0%float.

(** A record with an infinite duration, and two with opposite ones. *)
Definition infiniteDuration : list ZeekRecord :=
  [ [("ts", VNum 1); ("duration", VNum PrimFloat.infinity)] ].

Definition oppositeInfinities : list ZeekRecord :=
  [ [("ts", VNum 1); ("duration", VNum PrimFloat.infinity)];
    [("ts", VNum 2); ("duration", VNum PrimFloat.neg_infinity)] ].

(** The sum of the counts of a list of buckets. *)
Definition sumCounts (counts : list (string * nat)) : nat :=
  list_sum (map snd counts).

(** ** The port-scan detector *)

(** The distinct values of a list, in the order of their first
    occurrence: the [Set] that the values build up one by one. *)
Definition distinct {A : Type} (same : A -> A -> bool) (l : list A) : list A :=
  fold_left (fun s x => Js.setAdd same x s) l [].

(** A connection attempt to a port of one host that is not answered. *)
Definition attempt (port : nat) : ZeekRecord :=
  [ ("ts", VNum (1706745600 + Js.ofNat port));
    ("id.orig_h", VStr "192.168.1.50");
    ("id.resp_h", VStr "10.0.0.1");
    ("id.resp_p", VNum (Js.ofNat port));
    ("proto", VStr "tcp");
    ("conn_state", VStr "S0") ].

(** One hundred such attempts from one source, to the ports 1 to 100. *)
Definition hundredPorts : list ZeekRecord := map attempt (seq 1 100).

(** ** Addresses *)

(** No character of the string is [c]. *)
Fixpoint lacks (c : ascii) (s : string) : bool :=
  match s with
  | EmptyString => true
  | String x s' => negb (Ascii.eqb c x) && lacks c s'
  end.

(** The number a string of decimal digits denotes, after [acc]. *)
Fixpoint decimal (acc : Z) (s : string) : Z :=
  match s with
  | EmptyString => acc
  | String c s' => decimal (acc * 10 + (Js.code c - 48)) s'
  end.

(** A decimal digit. *)
Definition isDigit (c : ascii) : bool :=
  ((48 <=? Js.code c) && (Js.code c <=? 57))%Z.

(** A decimal octet: a non-empty string of decimal digits that denotes a
    number up to 255. *)
Definition isOctet (s : string) : bool :=
  negb (s =? "")%string && Val.allDigits s && (decimal 0 s <=? 255)%Z.

(** A dotted quad: four decimal octets separated by dots. *)
Definition validIPv4 (ip : string) : Prop :=
  exists a b c d : string,
    ip = (a ++ "." ++ b ++ "." ++ c ++ "." ++ d)%string
    /\ isOctet a = true /\ isOctet b = true
    /\ isOctet c = true /\ isOctet d = true.

(** ** The beacon detector *)

(** Two connections of one triple whose timestamps are both infinite (as
    the readers deliver for the numeral [1e999]). *)
Definition infiniteTimes : list ZeekRecord :=
  [ [ ("ts", VNum PrimFloat.infinity); ("id.orig_h", VStr "10.0.0.5");
      ("id.resp_h", VStr "10.0.0.9"); ("id.resp_p", VNum 443) ];
    [ ("ts", VNum PrimFloat.infinity); ("id.orig_h", VStr "10.0.0.5");
      ("id.resp_h", VStr "10.0.0.9"); ("id.resp_p", VNum 443) ] ].

(** The [i]-th of a series of connections of one triple, 60 seconds apart. *)
Definition beacon (i : nat) : ZeekRecord :=
  [ ("ts", VNum (1706745600 + Js.ofNat i * 60));
    ("id.orig_h", VStr "192.168.1.100");
    ("id.resp_h", VStr "45.33.32.156");
    ("id.resp_p", VNum 443);
    ("proto", VStr "tcp");
    ("orig_bytes", VNum 100);
    ("resp_bytes", VNum 200) ].

(** The first [n] of them. *)
Definition beacons (n : nat) : list ZeekRecord := map beacon (seq 0 n).

(** Twelve connections 60 seconds apart, by turns of two triples whose
    joined keys are the same text: from [a] to [b|c] and from [a|b] to
    [c], both to port 443. *)
Definition sharedKey : list ZeekRecord :=
  map (fun i =>
         [ ("ts", VNum (Js.ofNat i * 60));
           ("id.orig_h", VStr (if Nat.even i then "a|b" else "a"));
           ("id.resp_h", VStr (if Nat.even i then "c" else "b|c"));
           ("id.resp_p", VNum 443) ])
      (seq 1 12).

(** Twelve connections 60 seconds apart between one source and one
    destination, by turns to the port 443, a number, and to the port
    ["443"], a text. *)
Definition mixedPorts : list ZeekRecord :=
  map (fun i =>
         [ ("ts", VNum (Js.ofNat i * 60));
           ("id.orig_h", VStr "10.0.0.5");
           ("id.resp_h", VStr "10.0.0.9");
           ("id.resp_p", if Nat.even i then VNum 443 else VStr "443") ])
      (seq 1 12).

(** The records of the aggregation tests. *)
Definition testRecords : list ZeekRecord :=
  [ [("ts", VNum 1); ("id.orig_h", VStr "192.168.1.1"); ("id.resp_p", VNum 80);
     ("service", VStr "http"); ("orig_bytes", VNum 100)];
    [("ts", VNum 2); ("id.orig_h", VStr "192.168.1.1"); ("id.resp_p", VNum 443);
     ("service", VStr "ssl"); ("orig_bytes", VNum 200)];
    [("ts", VNum 3); ("id.orig_h", VStr "192.168.1.2"); ("id.resp_p", VNum 80);
     ("service", VStr "http"); ("orig_bytes", VNum 300)];
    [("ts", VNum 4); ("id.orig_h", VStr "192.168.1.2"); ("id.resp_p", VNum 22);
     ("service", VStr "ssh"); ("orig_bytes", VNum 50)];
    [("ts", VNum 5); ("id.orig_h", VStr "192.168.1.3"); ("id.resp_p", VNum 80);
     ("service", VStr "http"); ("orig_bytes", VNum 150)] ].

(** ** Grouping loops *)

(** A loop that files the selected records under a key, updating the
    value held for the key ([init] where there is none yet). *)
Section GroupingVocabulary.
Context {R V : Type}.
Context (sel : R -> bool) (keyOf : R -> string) (upd : V -> R -> V) (init : V).

Definition groupStep (m : list (string * V)) (r : R) : list (string * V) :=
  if sel r then
    Js.mapSet (keyOf r)
      (upd (match Js.mapGet (keyOf r) m with Some v => v | None => init end) r) m
  else m.

(** The selected records that are filed under [k]. *)
Definition members (k : string) (rs : list R) : list R :=
  filter (fun r => sel r && (keyOf r =? k)%string) rs.

End GroupingVocabulary.

(** ** What depends on the runtime *)

Section RuntimeVocabulary.
Context (rt : Runtime).

(** The comparison of two present sort values, before the direction is
    applied. *)
Definition comparePresent (aVal bVal : Value) : float :=
  match aVal, bVal with
  | VNum x, VNum y => (x - y)%float
  | _, _ => localeCompare rt (Val.toString rt aVal) (Val.toString rt bVal)
  end.

(** The records of a source that are in a no-response state. *)
Definition failedFrom (src : string) (records : list ZeekRecord) : list ZeekRecord :=
  filter (fun r => Anomaly.noResponse rt r && (Anomaly.srcOf rt r =? src)%string) records.

(** The distinct destination ports over those records. *)
Definition distinctPorts (src : string) (records : list ZeekRecord) : list Value :=
  distinct Val.sameValueZero (map Anomaly.portOf (failedFrom src records)).

(** The timestamps of the records of a key: of the records that carry a
    source, a destination and a timestamp and whose triple has this key. *)
Definition timestampsOf (key : string) (records : list ZeekRecord) : list Value :=
  map (Val.prop "ts")
    (filter (fun r => Beaconing.usable rt r && (Beaconing.keyOf rt r =? key)%string)
       records).

(** The consecutive intervals of the sorted timestamps of a key. *)
Definition intervalsFor (key : string) (records : list ZeekRecord) : list float :=
  Beaconing.intervalsOf (Beaconing.sortedTimes rt (timestampsOf key records)).

(** The records of a triple: those that carry a source, a destination
    and a timestamp and that have this source, this destination and this
    destination port, the port being compared by [===] as the detector
    compares it. *)
Definition ofTriple (src dst : string) (port : float) (r : ZeekRecord) : bool :=
  Beaconing.usable rt r
  && (Beaconing.srcOf rt r =? src)%string
  && (Beaconing.dstOf rt r =? dst)%string
  && Val.strictEq (Val.prop "id.resp_p" r) (VNum port).

(** The timestamps of the records of a triple, in the order of the
    records. *)
Definition tripleTimes (src dst : string) (port : float) (records : list ZeekRecord)
  : list Value :=
  map (Val.prop "ts") (filter (ofTriple src dst port) records).

(** The consecutive intervals of the sorted timestamps of a triple. *)
Definition tripleIntervals (src dst : string) (port : float) (records : list ZeekRecord)
  : list float :=
  Beaconing.intervalsOf (Beaconing.sortedTimes rt (tripleTimes src dst port records)).

(** A record with a plain triple: neither address holds the character
    [|], and the destination port is a whole number from 0 to 65535, which
    the runtime prints as its decimal numeral. *)
Definition plainTriple (r : ZeekRecord) : Prop :=
  lacks "|"%char (Beaconing.srcOf rt r) = true
  /\ lacks "|"%char (Beaconing.dstOf rt r) = true
  /\ exists n : nat,
       (Z.of_nat n <= 65535)%Z
       /\ Val.prop "id.resp_p" r = VNum (Js.ofNat n)
       /\ numberToString rt (Js.ofNat n) = Js.natToString n.

End RuntimeVocabulary.

(** ** Queries and their filters *)

(** The filters of a query; none when the option is left out. *)
Definition filtersOf (options : Engine.QueryOptions) : list Engine.FilterDef :=
  match Engine.filters options with
  | Some fs => fs
  | None => []
  end.




(** ** Addresses and prefixes *)

(** The dotted quad of four octets, and the 32-bit number it denotes. *)
Definition dotted (a b c d : string) : string :=
  a ++ "." ++ b ++ "." ++ c ++ "." ++ d.

Definition addressNumber (a b c d : string) : Z :=
  (decimal 0 a * 2 ^ 24 + decimal 0 b * 2 ^ 16 + decimal 0 c * 2 ^ 8 + decimal 0 d)%Z.

(** A non-empty string of decimal digits. *)
Definition isNumeral (s : string) : bool :=
  negb (s =? "")%string && Val.allDigits s.

(** The number that a list of bytes denotes, the first byte being the
    most significant. *)
Fixpoint bytesNumber (bytes : list Z) : Z :=
  match bytes with
  | [] => 0
  | b :: rest => b * 256 ^ Z.of_nat (List.length rest) + bytesNumber rest
  end%Z.

Definition isByte (b : Z) : Prop := (0 <= b <= 255)%Z.

(** A group of an IPv6 address: one to four hexadecimal digits. *)
Definition isHexGroup (g : string) : bool :=
  negb (g =? "")%string
  && (String.length g <=? 4)%nat
  && forallb Entropy.isHexDigit (list_ascii_of_string g).

(** The value of a hexadecimal digit, and the number that a string of
    them denotes after [acc]. *)
Definition hexDigit (c : ascii) : Z :=
  match Js.digitVal c with
  | Some d => d
  | None => 0
  end.

Fixpoint hexadecimal (acc : Z) (s : string) : Z :=
  match s with
  | EmptyString => acc
  | String c s' => hexadecimal (acc * 16 + hexDigit c) s'
  end.

(** The two bytes of a group, and the bytes of a list of groups. *)
Definition groupPair (g : string) : list Z :=
  [ (hexadecimal 0 g / 256)%Z; (hexadecimal 0 g mod 256)%Z ].

Definition groupsBytes (groups : list string) : list Z :=
  flat_map groupPair groups.

(** The text of an address with the run of zero groups elided: the groups
    before the [::], then those after it. *)
Definition elided (left right : list string) : string :=
  Js.join ":" left ++ "::" ++ Js.join ":" right.

(** No [::] in a string, and no colon at its end: what a separator that
    follows the string needs in order to be the first one found. *)
Fixpoint single (s : string) : bool :=
  match s with
  | EmptyString => true
  | String c s' =>
      match s' with
      | EmptyString => negb (Ascii.eqb ":"%char c)
      | String c' _ => negb (Ascii.eqb ":"%char c && Ascii.eqb ":"%char c') && single s'
      end
  end.

(** The string begins with a character other than a colon. *)
Definition startsPlain (s : string) : bool :=
  match s with
  | EmptyString => false
  | String c _ => negb (Ascii.eqb ":"%char c)
  end.

(** The 16 bytes of an elided address: the bytes of the groups before the
    [::], zeros for the groups left out, the bytes of the groups after. *)
Definition elidedBytes (left right : list string) : list Z :=
  groupsBytes left
  ++ repeat 0%Z (2 * (8 - List.length left - List.length right))
  ++ groupsBytes right.

(** The text of an IPv6 address in one of its two notations: eight groups
    in full, or some groups elided by [::]. *)
Inductive Ipv6Notation : Type :=
| InFull (groups : list string)
| Elided (before after : list string).

Definition ipv6Text (t : Ipv6Notation) : string :=
  match t with
  | InFull groups => Js.join ":" groups
  | Elided before after => elided before after
  end.

Definition wellFormed (t : Ipv6Notation) : Prop :=
  match t with
  | InFull groups =>
      Forall (fun g => isHexGroup g = true) groups /\ List.length groups = 8
  | Elided before after =>
      Forall (fun g => isHexGroup g = true) before
      /\ Forall (fun g => isHexGroup g = true) after
      /\ List.length before + List.length after <= 8
  end.

(** The 16 bytes that the notation denotes. *)
Definition ipv6Bytes (t : Ipv6Notation) : list Z :=
  match t with
  | InFull groups => groupsBytes groups
  | Elided before after => elidedBytes before after
  end.

(** ** Text matching *)

(** No character of the string is a line terminator: what [.*] can pass
    over. *)
(** A text of ASCII characters: every code unit is below 128.  On such
    texts [toLowerCase] and the [i] flag of a regular expression change
    the letters A-Z only, one code unit for one. *)
Definition isAscii (s : string) : bool :=
  forallb (fun c => (Js.code c <? 128)%Z) (list_ascii_of_string s).

Fixpoint noBreak (s : string) : bool :=
  match s with
  | EmptyString => true
  | String c s' => negb (Engine.isLineTerminator c) && noBreak s'
  end.

(** ** Buckets *)

(** The bucket that [groupBy] files a record under. *)
Definition bucketOf (rt : Runtime) (field : string) (record : ZeekRecord) : string :=
  let value := Aggregation.getNestedValue record field in
  match value with
  | VUndefined | VNull => "(unset)"
  | _ => Val.toString rt value
  end.

(** The record has a value for the field: neither [undefined] nor [null]. *)
Definition present (field : string) (record : ZeekRecord) : bool :=
  match Aggregation.getNestedValue record field with
  | VUndefined | VNull => false
  | _ => true
  end.

(** The value of the field, printed. *)
Definition printed (rt : Runtime) (field : string) (record : ZeekRecord) : string :=
  Val.toString rt (Aggregation.getNestedValue record field).

(** ** Configuration *)

(** An environment in which the given variables are set. *)
Fixpoint envOf (vars : list (string * string)) (name : string) : option string :=
  match vars with
  | [] => None
  | (n, v) :: rest => if (n =? name)%string then Some v else envOf rest name
  end.

(** The limit of a query is left out or is not negative. *)
Definition limitNotNegative (options : Engine.QueryOptions) : Prop :=
  forall n, Engine.limit options = Some n -> (0 <= n)%Z.

(** ** The other detectors *)

(** The connections to a port that [detectUnusualPorts] counts: those to
    an unusual port without a service whose port is the same value. *)
Definition connectionsTo (rt : Runtime) (port : Value) (records : list ZeekRecord)
  : list ZeekRecord :=
  filter (fun r => Detectors.unusual rt r && Val.sameValueZero (Anomaly.portOf r) port) records.

(** The key of a [Map] that is the same value as [x]. *)
Definition sameKey (x k : Value) : bool := Val.sameValueZero k x.

(** The records whose bytes [detectDataExfiltration] adds up: those with a
    positive number of [orig_bytes]. *)
Definition sends (record : ZeekRecord) : bool :=
  match Val.prop "orig_bytes" record with
  | VNum bytes => PrimFloat.ltb 0 bytes
  | _ => false
  end.

Definition sentBytes (record : ZeekRecord) : float :=
  match Val.prop "orig_bytes" record with
  | VNum bytes => bytes
  | _ => 0%float
  end.

(** The bytes that a source sent, added up in the order of the records. *)
Definition totalSent (rt : Runtime) (src : string) (records : list ZeekRecord) : float :=
  fold_left (fun total r => (total + sentBytes r)%float)
    (filter (fun r => sends r && (Anomaly.srcOf rt r =? src)%string) records) 0%float.

(** ** The TSV reader *)

(** The value that the reader stores for a column that is set. *)
Definition cellValue (parseFloat : string -> float) (header : Tsv.TsvHeader)
    (type raw : string) : Value :=
  if (raw =? Tsv.emptyField header)%string then Tsv.getEmptyValue type
  else Tsv.convertValue parseFloat raw type (Tsv.setSeparator header).

(** The header of the connection log of the tests. *)
Definition connHeader : Tsv.TsvHeader :=
  {| Tsv.separator := Js.str1 (ascii_of_nat 9);
     Tsv.setSeparator := ",";
     Tsv.emptyField := "(empty)";
     Tsv.unsetField := "-";
     Tsv.path := Some "conn";
     Tsv.open := Some "2024-02-01-00-00-00";
     Tsv.fields := ["ts"; "uid"; "id.orig_h"; "id.orig_p"; "id.resp_h"; "id.resp_p";
                    "proto"; "service"; "duration"];
     Tsv.types := ["time"; "string"; "addr"; "port"; "addr"; "port";
                   "enum"; "string"; "interval"] |}.

(** The cells of a line, joined by tabs. *)
Definition tabbed (cells : list string) : string :=
  Js.join (Js.str1 (ascii_of_nat 9)) cells.

(** [parseFloat] on the texts the examples give it: decimal numerals
    without a fraction or an exponent, which it reads as [parseInt] does. *)
Definition readWhole (s : string) : float := Js.ofInt (Js.parseInt s 10).

(** ** Loops that keep an entry for each key *)

(** A loop that files every record under a key and computes the entry of
    the key from the entry held so far, if any, and the record. *)
Section KeyedVocabulary.
Context {R V : Type}.
Context (keyOf : R -> string) (upd : option V -> R -> V).




End KeyedVocabulary.





(** ** Records of the examples *)

(** [x.toFixed(1)] for a number that is neither negative nor NaN nor
    infinite: the numeral of the nearest tenth, the larger one when two
    are as near. *)
Definition printTenths (x : float) : string :=
  let tenths :=
    match Prim2SF x with
    | S754_finite false m e =>
        if (0 <=? e)%Z then (10 * (Z.pos m * 2 ^ e))%Z
        else ((20 * Z.pos m + 2 ^ (- e)) / 2 ^ (1 - e))%Z
    | _ => 0%Z
    end in
  Js.natToString (Z.to_nat (tenths / 10)) ++ "." ++ Js.natToString (Z.to_nat (tenths mod 10)).

(** Twenty-one connections to port 4444 for which no service was
    identified. *)
Definition backdoorCalls : list ZeekRecord :=
  map (fun i => [ ("ts", VNum (1 + Js.ofNat i));
                  ("id.orig_h", VStr "192.168.1.77");
                  ("id.resp_h", VStr "203.0.113.9");
                  ("id.resp_p", VNum 4444);
                  ("conn_state", VStr "SF") ])
      (seq 0 21).

(** A connection of a source that sent the given bytes. *)
Definition upload (src : string) (bytes : float) : ZeekRecord :=
  [ ("ts", VNum 1); ("id.orig_h", VStr src); ("id.resp_h", VStr "203.0.113.9");
    ("id.resp_p", VNum 443); ("service", VStr "ssl"); ("orig_bytes", VNum bytes) ].

(** Four sources with a few kilobytes and one with five gigabytes. *)
Definition uploads : list ZeekRecord :=
  [ upload "10.0.0.1" 1000; upload "10.0.0.2" 2000; upload "10.0.0.3" 3000;
    upload "10.0.0.4" 4000; upload "10.0.0.5" 5000000000 ].

(** Records with and without a usable timestamp. *)
Definition timedRecords : list ZeekRecord :=
  [ [("ts", VNum 10); ("uid", VStr "a")];
    [("ts", VNum 20); ("uid", VStr "b")];
    [("uid", VStr "c")] ].

(** A reader of dates for the examples: the text is the number of
    seconds. *)
Definition secondsOf (s : string) : float := readWhole s.

(** * Properties *)

(** Boolean tests on integers, read as propositions and sent to [lia]. *)
Ltac bool_to_prop :=
  repeat rewrite ?orb_true_iff, ?andb_true_iff, ?negb_true_iff,
    ?orb_false_iff, ?andb_false_iff, ?negb_false_iff,
    ?Z.leb_le, ?Z.ltb_lt, ?Z.eqb_eq, ?Z.gtb_ltb, ?Z.geb_leb,
    ?Z.leb_gt, ?Z.ltb_ge, ?Z.eqb_neq,
    ?Nat.leb_le, ?Nat.ltb_lt, ?Nat.eqb_eq, ?Nat.leb_gt, ?Nat.ltb_ge, ?Nat.eqb_neq in *.

Ltac blia := bool_to_prop; lia.

(** ** Encoding detection *)

Section EntropyFacts.

Lemma hexDigit_is_base64Char (c : ascii) :
  Entropy.isHexDigit c = true -> Entropy.isBase64Char c = true.
Proof.
  unfold Entropy.isHexDigit, Entropy.isBase64Char. cbv zeta.
  generalize (Js.code c). intros n H. blia.
Qed.

Lemma base64Tail_of_hex (s : string) :
  forallb Entropy.isHexDigit (list_ascii_of_string s) = true ->
  Entropy.base64Tail s = true.
Proof.
  induction s as [| c s IH]; simpl; intros H.
  - reflexivity.
  - apply andb_true_iff in H. destruct H as [Hc Hs].
    rewrite (hexDigit_is_base64Char c Hc), (IH Hs). reflexivity.
Qed.

Lemma base64Tail_shape (s : string) :
  Entropy.base64Tail s = true ->
  exists body pad : string,
    s = (body ++ pad)%string
    /\ forallb Entropy.isBase64Char (list_ascii_of_string body) = true
    /\ (pad = "" \/ pad = "=" \/ pad = "==").
Proof.
  induction s as [| c s IH]; intros H.
  - exists "", "". simpl. auto.
  - cbn [Entropy.base64Tail] in H.
    apply orb_true_iff in H. destruct H as [H | H].
    + apply orb_true_iff in H. destruct H as [H | H].
      * apply andb_true_iff in H. destruct H as [Hc Hs].
        destruct (IH Hs) as (body & pad & E & Hb & Hp).
        exists (String c body), pad. simpl. rewrite Hc, Hb, E. auto.
      * apply String.eqb_eq in H. exists "", "=". simpl. auto.
    + apply String.eqb_eq in H. exists "", "==". simpl. auto.
Qed.

Lemma base64Re_shape (s : string) :
  Entropy.base64Re s = true -> base64Shape s.
Proof.
  destruct s as [| c s]; simpl; intros H; [discriminate |].
  apply andb_true_iff in H. destruct H as [Hc Hs].
  destruct (base64Tail_shape s Hs) as (body & pad & E & Hb & Hp).
  exists (String c body), pad. simpl. rewrite Hc, Hb, E.
  repeat split; auto. discriminate.
Qed.

Lemma shape_base64Tail (body pad : string) :
  forallb Entropy.isBase64Char (list_ascii_of_string body) = true ->
  pad = "" \/ pad = "=" \/ pad = "==" ->
  Entropy.base64Tail (body ++ pad)%string = true.
Proof.
  intros Hb Hp. induction body as [| c body IH].
  - simpl. destruct Hp as [-> | [-> | ->]]; reflexivity.
  - simpl in Hb. apply andb_true_iff in Hb. destruct Hb as [Hc Hb].
    cbn [String.append Entropy.base64Tail]. rewrite Hc, (IH Hb). reflexivity.
Qed.

Lemma shape_base64Re (s : string) :
  base64Shape s -> Entropy.base64Re s = true.
Proof.
  intros (body & pad & -> & Hne & Hb & Hp).
  destruct body as [| c body]; [congruence |].
  simpl in Hb. apply andb_true_iff in Hb. destruct Hb as [Hc Hb].
  cbn [String.append Entropy.base64Re]. rewrite Hc. simpl.
  apply shape_base64Tail; assumption.
Qed.

Lemma hexRe_forallb (s : string) :
  Entropy.hexRe s = negb (s =? "")%string
                    && forallb Entropy.isHexDigit (list_ascii_of_string s).
Proof. destruct s; reflexivity. Qed.

Lemma even_mod2 (n : nat) : (n mod 2 =? 0)%nat = Nat.even n.
Proof.
  destruct (Nat.even n) eqn:E.
  - apply Nat.even_spec in E. destruct E as [k ->].
    apply Nat.eqb_eq. rewrite Nat.mul_comm. apply Nat.Div0.mod_mul.
  - apply Nat.eqb_neq. intros H.
    assert (Nat.even n = true); [| congruence].
    apply Nat.even_spec. exists (n / 2).
    pose proof (Nat.div_mod_eq n 2). lia.
Qed.

Lemma detectEncoding_hexCondition (s : string) :
  Entropy.detectEncoding s =
  if hexCondition s then Some Entropy.Hex
  else if Entropy.base64Re s && (10 <? String.length s)%nat then Some Entropy.Base64
  else None.
Proof.
  unfold Entropy.detectEncoding, hexCondition.
  rewrite hexRe_forallb, even_mod2.
  destruct s as [| c s]; [reflexivity |].
  reflexivity.
Qed.

(** C10: [detectEncoding] tests the hex condition first.  A string of more
    than 10 characters and of even length that consists of hexadecimal
    digits also matches the base64 expression, and the answer for it is
    "hex"; and the answer is "base64" only for a string of more than 10
    characters that has the base64 shape and fails the hex condition. *)
Theorem detectEncoding_hex_before_base64 (s : string) :
  (forallb Entropy.isHexDigit (list_ascii_of_string s) = true ->
   (10 < String.length s)%nat ->
   Nat.even (String.length s) = true ->
   Entropy.base64Re s = true
   /\ Entropy.detectEncoding s = Some Entropy.Hex
   /\ Entropy.detectEncoding s <> Some Entropy.Base64)
  /\ (Entropy.detectEncoding s = Some Entropy.Base64 ->
      (10 < String.length s)%nat
      /\ base64Shape s
      /\ hexCondition s = false).
Proof.
  split.
  - intros Hhex Hlen Heven.
    assert (Hd : Entropy.detectEncoding s = Some Entropy.Hex).
    { rewrite detectEncoding_hexCondition. unfold hexCondition.
      rewrite Hhex, Heven. apply Nat.ltb_lt in Hlen. rewrite Hlen. reflexivity. }
    repeat split.
    + destruct s as [| c s]; [simpl in Hlen; lia |].
      simpl in Hhex. apply andb_true_iff in Hhex. destruct Hhex as [Hc Hs].
      simpl. rewrite (hexDigit_is_base64Char c Hc). simpl.
      apply base64Tail_of_hex. exact Hs.
    + exact Hd.
    + rewrite Hd. discriminate.
  - rewrite detectEncoding_hexCondition.
    destruct (hexCondition s); [discriminate |].
    destruct (Entropy.base64Re s) eqn:Hre; [| discriminate].
    destruct (10 <? String.length s)%nat eqn:Hlen; [| discriminate].
    intros _. repeat split.
    + apply Nat.ltb_lt. exact Hlen.
    + apply base64Re_shape. exact Hre.
Qed.

Lemma detectEncoding_hex_before_base64_witness :
  Entropy.detectEncoding "48656c6c6f576f726c64" = Some Entropy.Hex
  /\ Entropy.base64Re "48656c6c6f576f726c64" = true
  /\ hexCondition "aGVsbG8td29ybGQtdGhpcw==" = false.
Proof.
  destruct (detectEncoding_hex_before_base64 "48656c6c6f576f726c64") as [H _].
  destruct H as (Hre & Hd & _); [reflexivity | simpl; lia | reflexivity |].
  destruct (detectEncoding_hex_before_base64 "aGVsbG8td29ybGQtdGhpcw==") as [_ H].
  destruct H as (_ & _ & Hc); [reflexivity |].
  repeat split; assumption.
Defined.

End EntropyFacts.

(** ** Arrays: slice and sort *)

Section ArrayFacts.
Context {A : Type}.

Lemma slice0_firstn (fin : Z) (l : list A) :
  exists n : nat, Js.slice0 fin l = firstn n l.
Proof.
  unfold Js.slice0. destruct (fin <? 0)%Z; eexists; reflexivity.
Qed.

Lemma slice0_length_le (fin : Z) (l : list A) :
  (0 <= fin)%Z -> (Z.of_nat (List.length (Js.slice0 fin l)) <= fin)%Z.
Proof.
  intros H. unfold Js.slice0.
  destruct (fin <? 0)%Z eqn:E; [blia |].
  rewrite length_firstn. lia.
Qed.

Lemma slice0_nonneg (fin : Z) (l : list A) :
  (0 <= fin)%Z -> Js.slice0 fin l = firstn (Z.to_nat fin) l.
Proof.
  intros H. unfold Js.slice0. destruct (fin <? 0)%Z eqn:E; [blia | reflexivity].
Qed.

Lemma insert_perm (cmp : A -> A -> float) (x : A) (l : list A) :
  Permutation (x :: l) (Js.insert cmp x l).
Proof.
  induction l as [| y l IH]; simpl.
  - apply Permutation_refl.
  - destruct (PrimFloat.ltb (cmp y x) 0).
    + eapply perm_trans; [apply perm_swap |]. apply perm_skip. exact IH.
    + apply Permutation_refl.
Qed.

Lemma sort_perm (cmp : A -> A -> float) (l : list A) :
  Permutation l (Js.sort cmp l).
Proof.
  induction l as [| x l IH]; simpl.
  - apply perm_nil.
  - eapply perm_trans; [| apply insert_perm]. apply perm_skip. exact IH.
Qed.

Lemma sort_length (cmp : A -> A -> float) (l : list A) :
  List.length (Js.sort cmp l) = List.length l.
Proof. symmetry. apply Permutation_length, sort_perm. Qed.

Lemma sort_In (cmp : A -> A -> float) (l : list A) (x : A) :
  In x (Js.sort cmp l) <-> In x l.
Proof.
  split; apply Permutation_in; [apply Permutation_sym |]; apply sort_perm.
Qed.

Lemma In_firstn (n : nat) (l : list A) (x : A) :
  In x (firstn n l) -> In x l.
Proof.
  intros H. rewrite <- (firstn_skipn n l). apply in_or_app. left. exact H.
Qed.

Lemma In_slice0 (fin : Z) (l : list A) (x : A) :
  In x (Js.slice0 fin l) -> In x l.
Proof.
  destruct (slice0_firstn fin l) as [n ->]. apply In_firstn.
Qed.

Lemma StronglySorted_firstn (R : A -> A -> Prop) (n : nat) (l : list A) :
  StronglySorted R l -> StronglySorted R (firstn n l).
Proof.
  intros H. revert n. induction H as [| a l Hl IH Ha]; intros [| n]; simpl;
    try constructor.
  - apply IH.
  - rewrite Forall_forall in *. intros x Hx. apply Ha.
    eapply In_firstn. exact Hx.
Qed.

Lemma StronglySorted_nth (R : A -> A -> Prop) (l : list A) :
  StronglySorted R l ->
  forall i j a b,
    nth_error l i = Some a -> nth_error l j = Some b -> (i < j)%nat -> R a b.
Proof.
  induction 1 as [| x l Hl IH Hx]; intros i j a b Hi Hj Hlt.
  - destruct i; discriminate.
  - destruct j as [| j]; [lia |]. simpl in Hj.
    destruct i as [| i]; simpl in Hi.
    + injection Hi as <-. rewrite Forall_forall in Hx. apply Hx.
      eapply nth_error_In. exact Hj.
    + eapply IH; eauto. lia.
Qed.

End ArrayFacts.

(** ** The query executor *)

Section EngineFacts.
Context (rt : Runtime).

(** *** The limit *)

(** C3, as stated, fails for a negative limit: [slice(0, -1)] drops the
    last record only, so four records come back as three, more than the
    minimum of limit and ceiling and more than the ceiling itself. *)
Lemma executeQuery_negative_limit_counterexample :
  Engine.executeQuery Host.runtime ceilingTwo (plainQuery (Some (-1)%Z)) fourRecords
  = [ [("ts", VNum 4)]; [("ts", VNum 3)]; [("ts", VNum 2)] ]
  /\ (Z.min (requestedLimit (plainQuery (Some (-1)%Z))) (Engine.maxResults ceilingTwo)
      < Z.of_nat (List.length
           (Engine.executeQuery Host.runtime ceilingTwo (plainQuery (Some (-1)%Z)) fourRecords)))%Z
  /\ (Engine.maxResults ceilingTwo
      < Z.of_nat (List.length
           (Engine.executeQuery Host.runtime ceilingTwo (plainQuery (Some (-1)%Z)) fourRecords)))%Z.
Proof.
  repeat split; vm_compute; reflexivity.
Qed.

(** C3, amended: when the minimum of the requested limit and the ceiling
    is not negative, [executeQuery] returns at most that many records, and
    so never more than the ceiling. *)
Theorem executeQuery_length_le_limit
    (config : Engine.ZeekConfig) (options : Engine.QueryOptions) (records : list ZeekRecord) :
  (0 <= Z.min (requestedLimit options) (Engine.maxResults config))%Z ->
  (Z.of_nat (List.length (Engine.executeQuery rt config options records))
   <= Z.min (requestedLimit options) (Engine.maxResults config))%Z
  /\ (Z.of_nat (List.length (Engine.executeQuery rt config options records))
      <= Engine.maxResults config)%Z.
Proof.
  intros H.
  assert (Hlen : (Z.of_nat (List.length (Engine.executeQuery rt config options records))
                  <= Z.min (requestedLimit options) (Engine.maxResults config))%Z).
  { unfold Engine.executeQuery. apply slice0_length_le. exact H. }
  split; [exact Hlen | lia].
Qed.

(** C9: without a limit the executor asks for 100 records, not for the
    ceiling: the result is the one for the explicit limit 100, the first
    [min(100, maxResults)] of the sorted matches; under a ceiling of 1000,
    150 matching records come back as 100. *)
Theorem executeQuery_default_limit_100
    (config : Engine.ZeekConfig) (options : Engine.QueryOptions) (records : list ZeekRecord) :
  Engine.executeQuery rt config (withLimit None options) records
  = Engine.executeQuery rt config (withLimit (Some 100%Z) options) records
  /\ Engine.executeQuery rt config (withLimit None options) records
     = Js.slice0 (Z.min 100 (Engine.maxResults config))
         (Engine.sortedMatches rt options records)
  /\ ((0 <= Engine.maxResults config)%Z ->
      List.length (Engine.executeQuery rt config (withLimit None options) records)
      = Nat.min (Z.to_nat (Z.min 100 (Engine.maxResults config)))
          (List.length (Engine.sortedMatches rt options records)))
  /\ List.length (Engine.executeQuery rt ceilingThousand (plainQuery None) (manyRecords 150))
     = 100.
Proof.
  split; [reflexivity | split; [reflexivity | split]].
  - intros Hmax. unfold Engine.executeQuery. cbn [withLimit Engine.limit].
    rewrite slice0_nonneg by lia. apply length_firstn.
  - unfold Engine.executeQuery. cbn [plainQuery Engine.limit ceilingThousand Engine.maxResults].
    rewrite slice0_nonneg by lia. rewrite length_firstn.
    unfold Engine.sortedMatches. cbn [plainQuery Engine.filters].
    rewrite sort_length. unfold manyRecords. rewrite length_map, length_seq.
    reflexivity.
Qed.

(** *** The order *)

Lemma compareRecords_present (f : string) (order : Engine.SortOrder) (a b : ZeekRecord) :
  Aggregation.getNestedValue a f <> VUndefined ->
  Aggregation.getNestedValue b f <> VUndefined ->
  Engine.compareRecords rt f order a b
  = directed order (comparePresent rt (Aggregation.getNestedValue a f)
                                   (Aggregation.getNestedValue b f)).
Proof.
  unfold Engine.compareRecords, comparePresent, directed.
  destruct (Aggregation.getNestedValue a f), (Aggregation.getNestedValue b f);
    intros Ha Hb; try congruence; reflexivity.
Qed.

Lemma compareRecords_absent_left (f : string) (order : Engine.SortOrder) (a b : ZeekRecord) :
  Aggregation.getNestedValue a f = VUndefined ->
  PrimFloat.ltb (Engine.compareRecords rt f order a b) 0 = false.
Proof.
  unfold Engine.compareRecords. intros ->.
  destruct (Aggregation.getNestedValue b f); reflexivity.
Qed.

Lemma compareRecords_absent_right (f : string) (order : Engine.SortOrder) (a b : ZeekRecord) :
  Aggregation.getNestedValue a f <> VUndefined ->
  Aggregation.getNestedValue b f = VUndefined ->
  PrimFloat.ltb (Engine.compareRecords rt f order a b) 0 = true.
Proof.
  unfold Engine.compareRecords. intros Ha ->.
  destruct (Aggregation.getNestedValue a f); try congruence; reflexivity.
Qed.

Lemma Value_absent_dec (v : Value) : {v = VUndefined} + {v <> VUndefined}.
Proof. destruct v; (left; reflexivity) || (right; discriminate). Qed.

Lemma insert_absentThen (f : string) (order : Engine.SortOrder) (x : ZeekRecord) (l : list ZeekRecord) :
  StronglySorted (absentThen f) l ->
  StronglySorted (absentThen f) (Js.insert (Engine.compareRecords rt f order) x l).
Proof.
  induction 1 as [| y l Hl IH Hy]; simpl.
  - constructor; constructor.
  - destruct (PrimFloat.ltb (Engine.compareRecords rt f order y x) 0) eqn:E.
    + (* [y] stays in front: it is present *)
      assert (Hpres : Aggregation.getNestedValue y f <> VUndefined).
      { intros Habs.
        rewrite (compareRecords_absent_left f order y x Habs) in E. discriminate. }
      constructor; [exact IH |].
      rewrite Forall_forall. intros z _ Habs. contradiction.
    + (* [x] goes in front of [y] *)
      constructor; [constructor; assumption |].
      destruct (Value_absent_dec (Aggregation.getNestedValue x f)) as [Hx | Hx].
      * (* [x] is absent: so is [y], and all that follows *)
        assert (Hyabs : Aggregation.getNestedValue y f = VUndefined).
        { destruct (Value_absent_dec (Aggregation.getNestedValue y f)) as [Hy' | Hy'];
            [exact Hy' |].
          rewrite (compareRecords_absent_right f order y x Hy' Hx) in E. discriminate. }
        constructor; [intros _; exact Hyabs |].
        rewrite Forall_forall in *. intros z Hz _. apply (Hy z Hz). exact Hyabs.
      * rewrite Forall_forall. intros z _ Habs. contradiction.
Qed.

Lemma sort_absentThen (f : string) (order : Engine.SortOrder) (l : list ZeekRecord) :
  StronglySorted (absentThen f) (Js.sort (Engine.compareRecords rt f order) l).
Proof.
  induction l as [| x l IH]; simpl.
  - constructor.
  - apply insert_absentThen. exact IH.
Qed.

Lemma executeQuery_absentThen
    (config : Engine.ZeekConfig) (options : Engine.QueryOptions) (records : list ZeekRecord) :
  StronglySorted (absentThen (sortFieldOf options))
    (Engine.executeQuery rt config options records).
Proof.
  unfold Engine.executeQuery.
  destruct (slice0_firstn
              (Z.min match Engine.limit options with Some n => n | None => 100%Z end
                     (Engine.maxResults config))
              (Engine.sortedMatches rt options records)) as [n ->].
  apply StronglySorted_firstn.
  unfold Engine.sortedMatches. apply sort_absentThen.
Qed.

(** C4: in the result of [executeQuery] a record whose sort field is
    present stands before every record whose sort field is absent,
    whatever the direction; and two records whose sort fields are both
    present are compared by the difference of the values when both are
    numbers and by [localeCompare] of their strings otherwise, negated
    for the descending direction. *)
Theorem executeQuery_absent_last
    (config : Engine.ZeekConfig) (options : Engine.QueryOptions) (records : list ZeekRecord) :
  (forall (i j : nat) (a b : ZeekRecord),
      nth_error (Engine.executeQuery rt config options records) i = Some a ->
      nth_error (Engine.executeQuery rt config options records) j = Some b ->
      ~ absentIn options a ->
      absentIn options b ->
      (i < j)%nat)
  /\ (forall a b : ZeekRecord,
         ~ absentIn options a ->
         ~ absentIn options b ->
         Engine.compareRecords rt (sortFieldOf options) (sortOrderOf options) a b
         = directed (sortOrderOf options)
             (comparePresent rt
                (Aggregation.getNestedValue a (sortFieldOf options))
                (Aggregation.getNestedValue b (sortFieldOf options)))).
Proof.
  split.
  - intros i j a b Hi Hj Ha Hb.
    destruct (Nat.lt_trichotomy i j) as [Hlt | [Heq | Hgt]]; [exact Hlt | |].
    + subst j. rewrite Hi in Hj. injection Hj as ->. contradiction.
    + exfalso. apply Ha.
      exact (StronglySorted_nth _ _ (executeQuery_absentThen config options records)
               j i b a Hj Hi Hgt Hb).
  - intros a b Ha Hb. apply compareRecords_present; assumption.
Qed.

End EngineFacts.

Example executeQuery_duration_asc :
  map (Val.prop "uid") (Engine.executeQuery Host.runtime ceilingThousand (byDuration Engine.Asc) durations)
  = [VStr "c"; VStr "d"; VStr "a"; VStr "b"].
Proof. vm_compute. reflexivity. Qed.

Example executeQuery_duration_desc :
  map (Val.prop "uid") (Engine.executeQuery Host.runtime ceilingThousand (byDuration Engine.Desc) durations)
  = [VStr "a"; VStr "d"; VStr "c"; VStr "b"].
Proof. vm_compute. reflexivity. Qed.

Lemma executeQuery_length_le_limit_witness :
  (Z.of_nat (List.length
     (Engine.executeQuery Host.runtime ceilingTwo (plainQuery (Some 3%Z)) fourRecords)) <= 2)%Z.
Proof.
  apply (executeQuery_length_le_limit Host.runtime ceilingTwo (plainQuery (Some 3%Z)) fourRecords).
  vm_compute. discriminate.
Defined.

Lemma executeQuery_default_limit_100_witness :
  List.length (Engine.executeQuery Host.runtime ceilingTwo
                 (withLimit None (plainQuery (Some 3%Z))) fourRecords)
  = 2.
Proof.
  refine (proj1 (proj2 (proj2
            (executeQuery_default_limit_100 Host.runtime ceilingTwo
               (plainQuery (Some 3%Z)) fourRecords))) _).
  vm_compute. discriminate.
Defined.

Lemma executeQuery_absent_last_witness :
  nth_error (Engine.executeQuery Host.runtime ceilingThousand (byDuration Engine.Desc) durations) 2
  = Some [("uid", VStr "c"); ("duration", VNum 1)]
  /\ nth_error (Engine.executeQuery Host.runtime ceilingThousand (byDuration Engine.Desc) durations) 3
     = Some [("uid", VStr "b")]
  /\ (2 < 3)%nat.
Proof.
  assert (H2 : nth_error (Engine.executeQuery Host.runtime ceilingThousand
                            (byDuration Engine.Desc) durations) 2
               = Some [("uid", VStr "c"); ("duration", VNum 1)])
    by (vm_compute; reflexivity).
  assert (H3 : nth_error (Engine.executeQuery Host.runtime ceilingThousand
                            (byDuration Engine.Desc) durations) 3
               = Some [("uid", VStr "b")])
    by (vm_compute; reflexivity).
  split; [exact H2 | split; [exact H3 |]].
  refine (proj1 (executeQuery_absent_last Host.runtime ceilingThousand
                   (byDuration Engine.Desc) durations) 2 3 _ _ H2 H3 _ _).
  - unfold absentIn. vm_compute. discriminate.
  - unfold absentIn. vm_compute. reflexivity.
Defined.

(** ** Aggregation *)

Section AggregationFacts.

Lemma sumStep_skip (field : string) (total : float) (record : ZeekRecord) :
  counted field record = false -> sumStep field total record = total.
Proof.
  unfold counted, sumStep, isNumberNotNaN.
  destruct (Aggregation.getNestedValue record field); try reflexivity.
  intros ->. reflexivity.
Qed.

Lemma avgStep_skip (field : string) (acc : float * float) (record : ZeekRecord) :
  counted field record = false -> Aggregation.avgStep field acc record = acc.
Proof.
  unfold counted, Aggregation.avgStep, isNumberNotNaN.
  destruct (Aggregation.getNestedValue record field); try reflexivity.
  intros ->. reflexivity.
Qed.

(** A loop that leaves its state alone on the records a test rejects
    gives the same state on the records that pass the test. *)
Lemma fold_left_filter {S : Type} (step : S -> ZeekRecord -> S) (keep : ZeekRecord -> bool)
    (records : list ZeekRecord) :
  (forall acc r, keep r = false -> step acc r = acc) ->
  forall acc, fold_left step records acc = fold_left step (filter keep records) acc.
Proof.
  intros Hskip. induction records as [| r records IH]; intros acc; simpl.
  - reflexivity.
  - destruct (keep r) eqn:E; simpl.
    + apply IH.
    + rewrite (Hskip acc r E). apply IH.
Qed.

Lemma fold_left_skip_all {S : Type} (step : S -> ZeekRecord -> S) (keep : ZeekRecord -> bool)
    (records : list ZeekRecord) :
  (forall acc r, keep r = false -> step acc r = acc) ->
  (forall r, In r records -> keep r = false) ->
  forall acc, fold_left step records acc = acc.
Proof.
  intros Hskip. induction records as [| r records IH]; intros Hall acc; simpl.
  - reflexivity.
  - rewrite (Hskip acc r (Hall r (or_introl eq_refl))).
    apply IH. intros r' Hr'. apply Hall. right. exact Hr'.
Qed.

(** C2, as stated, fails for an infinite value: it is added and counted.
    One record with an infinite duration, which is no finite number, makes
    the sum and the average infinite where the records with a finite
    number, none, give 0; and two opposite infinities make the average
    NaN. *)
Lemma sumField_counts_infinity_counterexample :
  filter (fun r => isFiniteNumber (Aggregation.getNestedValue r "duration")) infiniteDuration = []
  /\ Aggregation.sumField infiniteDuration "duration" = PrimFloat.infinity
  /\ Aggregation.sumField [] "duration" = 0%float
  /\ Aggregation.avgField infiniteDuration "duration" = PrimFloat.infinity
  /\ filter (fun r => isFiniteNumber (Aggregation.getNestedValue r "duration")) oppositeInfinities = []
  /\ PrimFloat.is_nan (Aggregation.avgField oppositeInfinities "duration") = true.
Proof.
  repeat split; vm_compute; reflexivity.
Qed.

Lemma countedValues_cons (field : string) (r : ZeekRecord) (records : list ZeekRecord) :
  countedValues field (r :: records)
  = (if counted field r
     then match Aggregation.getNestedValue r field with VNum x => [x] | _ => [] end
     else [])
    ++ countedValues field records.
Proof.
  unfold countedValues, counted, isNumberNotNaN. cbn [flat_map].
  destruct (Aggregation.getNestedValue r field); try reflexivity.
  match goal with |- context [PrimFloat.is_nan ?y] => destruct (PrimFloat.is_nan y) end;
    reflexivity.
Qed.

Lemma sumField_addUp (field : string) (records : list ZeekRecord) :
  forall total,
    fold_left (sumStep field) records total
    = fold_left PrimFloat.add (countedValues field records) total.
Proof.
  induction records as [| r records IH]; intros total; [reflexivity |].
  rewrite countedValues_cons, fold_left_app. cbn [fold_left]. rewrite IH.
  unfold sumStep, counted, isNumberNotNaN.
  destruct (Aggregation.getNestedValue r field); try reflexivity.
  match goal with |- context [PrimFloat.is_nan ?y] => destruct (PrimFloat.is_nan y) end;
    reflexivity.
Qed.

Lemma avgField_countUp (field : string) (records : list ZeekRecord) :
  forall acc,
    fold_left (Aggregation.avgStep field) records acc
    = (fold_left PrimFloat.add (countedValues field records) (fst acc),
       fold_left (fun count _ => (count + 1)%float) (countedValues field records) (snd acc)).
Proof.
  induction records as [| r records IH]; intros [total count]; [reflexivity |].
  rewrite countedValues_cons, !fold_left_app. cbn [fold_left]. rewrite IH.
  unfold Aggregation.avgStep, counted, isNumberNotNaN. cbn [fst snd].
  destruct (Aggregation.getNestedValue r field); try reflexivity.
  match goal with |- context [PrimFloat.is_nan ?y] => destruct (PrimFloat.is_nan y) end;
    reflexivity.
Qed.

Lemma countedValues_In (field : string) (records : list ZeekRecord) (x : float) :
  In x (countedValues field records)
  <-> exists r, In r records
                /\ Aggregation.getNestedValue r field = VNum x
                /\ PrimFloat.is_nan x = false.
Proof.
  unfold countedValues. rewrite in_flat_map. split.
  - intros (r & Hr & Hx). exists r. split; [exact Hr |].
    destruct (Aggregation.getNestedValue r field); try (now destruct Hx).
    match goal with
    | H : In x (if PrimFloat.is_nan ?y then _ else _) |- _ =>
        destruct (PrimFloat.is_nan y) eqn:E; [now destruct H |]
    end.
    destruct Hx as [<- | []]. auto.
  - intros (r & Hr & Hv & Hn). exists r. split; [exact Hr |].
    rewrite Hv, Hn. left. reflexivity.
Qed.

Lemma countedValues_length (field : string) (records : list ZeekRecord) :
  List.length (countedValues field records)
  = List.length (filter (counted field) records).
Proof.
  induction records as [| r records IH]; [reflexivity |].
  rewrite countedValues_cons, length_app, IH. cbn [filter].
  unfold counted at 1 3, isNumberNotNaN.
  destruct (Aggregation.getNestedValue r field); try reflexivity.
  match goal with |- context [PrimFloat.is_nan ?y] => destruct (PrimFloat.is_nan y) end;
    reflexivity.
Qed.

(** An infinite number is no NaN. *)
Lemma infinity_not_nan (x : float) :
  PrimFloat.is_infinity x = true -> PrimFloat.is_nan x = false.
Proof.
  unfold PrimFloat.is_infinity, PrimFloat.is_nan.
  rewrite !FloatAxioms.eqb_spec, FloatAxioms.abs_spec.
  destruct (Prim2SF x) as [sg | sg | | sg m e]; try reflexivity;
    try (destruct sg; reflexivity); discriminate.
Qed.

(** C2, amended: [sumField] and [avgField] skip the records whose
    resolved value is not a number or is NaN, and only those (an infinite
    value is added and counted): the results are those for the records
    with a number other than NaN.  Where no record has such a value, and
    so on the empty list, the sum and the average are 0.  The sum is what
    adding the numbers other than NaN to 0 gives, one after the other, and
    the average is that sum divided by their count (1 added to 0 for each
    of them), or 0 where the count is not above 0; every number other
    than NaN that a record has is among the numbers added and counted, an
    infinite one too. *)
Theorem sumField_avgField_skip (records : list ZeekRecord) (field : string) :
  Aggregation.sumField records field
  = Aggregation.sumField (filter (counted field) records) field
  /\ Aggregation.avgField records field
     = Aggregation.avgField (filter (counted field) records) field
  /\ (filter (counted field) records = [] ->
      Aggregation.sumField records field = 0%float
      /\ Aggregation.avgField records field = 0%float)
  /\ Aggregation.avgField [] field = 0%float
  /\ Aggregation.sumField records field = addUp (countedValues field records)
  /\ Aggregation.avgField records field
     = (if PrimFloat.ltb 0 (countUp (countedValues field records))
        then (addUp (countedValues field records)
              / countUp (countedValues field records))%float
        else 0%float)
  /\ (forall x, In x (countedValues field records)
                <-> exists r, In r records
                              /\ Aggregation.getNestedValue r field = VNum x
                              /\ PrimFloat.is_nan x = false)
  /\ (forall r x, In r records ->
        Aggregation.getNestedValue r field = VNum x ->
        PrimFloat.is_infinity x = true ->
        In x (countedValues field records))
  /\ List.length (countedValues field records)
     = List.length (filter (counted field) records).
Proof.
  assert (Hsum : Aggregation.sumField records field
                 = Aggregation.sumField (filter (counted field) records) field).
  { unfold Aggregation.sumField.
    apply (fold_left_filter (sumStep field) (counted field)).
    intros acc r. apply sumStep_skip. }
  assert (Havg : Aggregation.avgField records field
                 = Aggregation.avgField (filter (counted field) records) field).
  { unfold Aggregation.avgField.
    rewrite (fold_left_filter (Aggregation.avgStep field) (counted field) records
               (fun acc r => avgStep_skip field acc r)).
    reflexivity. }
  split; [exact Hsum |]. split; [exact Havg |].
  split; [intros H; split; [rewrite Hsum, H | rewrite Havg, H]; reflexivity |].
  split; [reflexivity |].
  split; [apply (sumField_addUp field records 0%float) |].
  split.
  { unfold Aggregation.avgField. rewrite avgField_countUp. reflexivity. }
  split; [intros x; apply countedValues_In |].
  split; [| apply countedValues_length].
  intros r x Hr Hv Hinf. apply countedValues_In. exists r.
  split; [exact Hr |]. split; [exact Hv |]. apply infinity_not_nan. exact Hinf.
Qed.

Lemma sumField_avgField_skip_witness :
  Aggregation.avgField [ [("ts", VNum 1); ("service", VStr "dns")];
                         [("ts", VNum 2); ("duration", VNum PrimFloat.nan)] ] "duration"
  = 0%float.
Proof.
  refine (proj2 (proj1 (proj2 (proj2
            (sumField_avgField_skip
               [ [("ts", VNum 1); ("service", VStr "dns")];
                 [("ts", VNum 2); ("duration", VNum PrimFloat.nan)] ] "duration"))) _)).
  vm_compute. reflexivity.
Defined.

(** *** groupBy *)

Lemma mapSet_increment_sum (k : string) (counts : list (string * nat)) :
  sumCounts (Js.mapSet k (match Js.mapGet k counts with Some n => n | None => 0 end + 1) counts)
  = sumCounts counts + 1.
Proof.
  unfold sumCounts. induction counts as [| [k' n] counts IH]; simpl.
  - reflexivity.
  - destruct (k' =? k)%string; simpl.
    + lia.
    + rewrite IH. lia.
Qed.

Lemma sumCounts_firstn (n : nat) (counts : list (string * nat)) :
  sumCounts (firstn n counts) <= sumCounts counts.
Proof.
  unfold sumCounts. revert n. induction counts as [| c counts IH]; intros [| n]; simpl;
    try lia.
  specialize (IH n). lia.
Qed.

Lemma sumCounts_perm (l l' : list (string * nat)) :
  Permutation l l' -> sumCounts l = sumCounts l'.
Proof.
  unfold sumCounts. induction 1; simpl; lia.
Qed.

Context (rt : Runtime).

Lemma groupCount_sum (field : string) (records : list ZeekRecord) :
  forall counts,
    sumCounts (fold_left (Aggregation.groupCount rt field) records counts)
    = sumCounts counts + List.length records.
Proof.
  induction records as [| r records IH]; intros counts; simpl.
  - lia.
  - rewrite IH. unfold Aggregation.groupCount.
    rewrite mapSet_increment_sum. lia.
Qed.

(** C7: the total that [groupBy] reports is the number of records it was
    given, whatever the field and the group limit, and the counts of the
    groups it returns add up to that total at most. *)
Theorem groupBy_total_and_counts
    (records : list ZeekRecord) (field : string) (limit : option Z) :
  Aggregation.total (Aggregation.groupBy rt records field limit) = List.length records
  /\ list_sum (map Aggregation.count
                 (Aggregation.groups (Aggregation.groupBy rt records field limit)))
     <= Aggregation.total (Aggregation.groupBy rt records field limit).
Proof.
  split; [reflexivity |].
  unfold Aggregation.groupBy. cbn [Aggregation.groups Aggregation.total].
  rewrite map_map. cbn [Aggregation.count].
  change (list_sum (map (fun x : string * nat => snd x) ?l)) with (sumCounts l).
  destruct (slice0_firstn match limit with Some n => n | None => 20%Z end
              (Js.sort Aggregation.byCountDesc
                 (fold_left (Aggregation.groupCount rt field) records [])))
    as [n ->].
  eapply Nat.le_trans; [apply sumCounts_firstn |].
  rewrite <- (sumCounts_perm _ _ (sort_perm Aggregation.byCountDesc _)).
  rewrite groupCount_sum. simpl. lia.
Qed.

End AggregationFacts.

(** ** Maps in insertion order, and loops that group records by a key *)

Section MapFacts.
Context {V : Type}.

Lemma mapGet_mapSet_same (k : string) (v : V) (m : list (string * V)) :
  Js.mapGet k (Js.mapSet k v m) = Some v.
Proof.
  induction m as [| [k' v'] m IH]; simpl.
  - rewrite String.eqb_refl. reflexivity.
  - destruct (k' =? k)%string eqn:E; simpl; rewrite E; [reflexivity | exact IH].
Qed.

Lemma mapGet_mapSet_other (k k0 : string) (v : V) (m : list (string * V)) :
  k <> k0 -> Js.mapGet k0 (Js.mapSet k v m) = Js.mapGet k0 m.
Proof.
  intros Hne. induction m as [| [k' v'] m IH]; simpl.
  - destruct (k =? k0)%string eqn:E; [apply String.eqb_eq in E; contradiction | reflexivity].
  - destruct (k' =? k)%string eqn:E; simpl.
    + apply String.eqb_eq in E. subst k'.
      destruct (k =? k0)%string eqn:E0; [| reflexivity].
      apply String.eqb_eq in E0. contradiction.
    + rewrite IH. reflexivity.
Qed.

Lemma mapGet_In (k : string) (v : V) (m : list (string * V)) :
  Js.mapGet k m = Some v -> In (k, v) m.
Proof.
  induction m as [| [k' v'] m IH]; simpl; [discriminate |].
  destruct (k' =? k)%string eqn:E.
  - apply String.eqb_eq in E. intros [= ->]. left. subst. reflexivity.
  - intros H. right. apply IH. exact H.
Qed.

Lemma mapGet_None_keys (k : string) (m : list (string * V)) :
  Js.mapGet k m = None -> ~ In k (map fst m).
Proof.
  induction m as [| [k' v'] m IH]; simpl; [tauto |].
  destruct (k' =? k)%string eqn:E; [discriminate |].
  apply String.eqb_neq in E. intros H [Hk | Hk]; [contradiction | exact (IH H Hk)].
Qed.

Lemma In_mapGet (k : string) (v : V) (m : list (string * V)) :
  NoDup (map fst m) -> In (k, v) m -> Js.mapGet k m = Some v.
Proof.
  induction m as [| [k' v'] m IH]; simpl; [tauto |].
  intros Hnd [Hin | Hin].
  - injection Hin as -> ->. rewrite String.eqb_refl. reflexivity.
  - inversion Hnd as [| ? ? Hnot Hnd']; subst.
    destruct (k' =? k)%string eqn:E.
    + apply String.eqb_eq in E. subst k'. exfalso. apply Hnot.
      change k with (fst (k, v)). apply in_map. exact Hin.
    + apply IH; assumption.
Qed.

Lemma mapSet_keys (k : string) (v : V) (m : list (string * V)) :
  map fst (Js.mapSet k v m)
  = match Js.mapGet k m with
    | Some _ => map fst m
    | None => map fst m ++ [k]
    end.
Proof.
  induction m as [| [k' v'] m IH]; simpl.
  - reflexivity.
  - destruct (k' =? k)%string eqn:E; simpl.
    + reflexivity.
    + rewrite IH. destruct (Js.mapGet k m); reflexivity.
Qed.

Lemma mapSet_NoDup (k : string) (v : V) (m : list (string * V)) :
  NoDup (map fst m) -> NoDup (map fst (Js.mapSet k v m)).
Proof.
  intros Hnd. rewrite mapSet_keys.
  destruct (Js.mapGet k m) eqn:E; [exact Hnd |].
  apply NoDup_app; [exact Hnd | repeat constructor; simpl; tauto |].
  intros x Hx [<- | []]. exact (mapGet_None_keys k m E Hx).
Qed.

End MapFacts.

(** What a grouping loop holds in the end. *)
Section Grouping.
Context {R V : Type}.
Context (sel : R -> bool) (keyOf : R -> string) (upd : V -> R -> V) (init : V).

Lemma group_NoDup (rs : list R) :
  forall m, NoDup (map fst m) -> NoDup (map fst (fold_left (groupStep sel keyOf upd init) rs m)).
Proof.
  induction rs as [| r rs IH]; intros m Hm; simpl; [exact Hm |].
  apply IH. unfold groupStep. destruct (sel r); [| exact Hm].
  apply mapSet_NoDup. exact Hm.
Qed.

(** What the loop holds for a key: nothing when no record was filed under
    it, and else the updates by its members, in their order. *)
Lemma group_get (k : string) (rs : list R) :
  Js.mapGet k (fold_left (groupStep sel keyOf upd init) rs [])
  = match members sel keyOf k rs with
    | [] => None
    | _ :: _ => Some (fold_left upd (members sel keyOf k rs) init)
    end.
Proof.
  induction rs as [| r rs IH] using rev_ind; [reflexivity |].
  rewrite fold_left_app. cbn [fold_left].
  unfold members in *. rewrite filter_app. cbn [filter].
  unfold groupStep at 1.
  destruct (sel r) eqn:Hsel; cbn [andb].
  - destruct (keyOf r =? k)%string eqn:Hk.
    + apply String.eqb_eq in Hk. subst k.
      rewrite mapGet_mapSet_same, IH, fold_left_app. cbn [fold_left].
      destruct (filter _ rs); reflexivity.
    + apply String.eqb_neq in Hk.
      rewrite mapGet_mapSet_other by exact Hk.
      rewrite IH, app_nil_r. reflexivity.
  - rewrite IH, app_nil_r. reflexivity.
Qed.

Lemma group_In (k : string) (v : V) (rs : list R) :
  In (k, v) (fold_left (groupStep sel keyOf upd init) rs [])
  <-> members sel keyOf k rs <> [] /\ v = fold_left upd (members sel keyOf k rs) init.
Proof.
  split.
  - intros Hin.
    apply In_mapGet in Hin; [| apply group_NoDup; constructor].
    rewrite group_get in Hin.
    destruct (members sel keyOf k rs); [discriminate |].
    injection Hin as <-. split; [discriminate | reflexivity].
  - intros [Hne ->]. apply mapGet_In. rewrite group_get.
    destruct (members sel keyOf k rs); [congruence | reflexivity].
Qed.

End Grouping.

(** ** The port-scan detector *)

Lemma fold_left_map {A B S : Type} (f : S -> B -> S) (g : A -> B) (l : list A) :
  forall acc, fold_left (fun s x => f s (g x)) l acc = fold_left f (map g l) acc.
Proof.
  induction l as [| x l IH]; intros acc; simpl; [reflexivity | apply IH].
Qed.

Section DistinctFacts.
Context {A : Type} (same : A -> A -> bool).

Lemma distinct_snoc (l : list A) (z : A) :
  distinct same (l ++ [z]) = Js.setAdd same z (distinct same l).
Proof. unfold distinct. rewrite fold_left_app. reflexivity. Qed.

Lemma setAdd_keeps (s : list A) (z y : A) :
  In y s \/ existsb (same y) s = true ->
  In y (Js.setAdd same z s) \/ existsb (same y) (Js.setAdd same z s) = true.
Proof.
  unfold Js.setAdd. destruct (existsb (same z) s); [tauto |].
  intros [H | H].
  - left. apply in_or_app. left. exact H.
  - right. rewrite existsb_app, H. reflexivity.
Qed.

Lemma setAdd_has (s : list A) (z : A) :
  In z (Js.setAdd same z s) \/ existsb (same z) (Js.setAdd same z s) = true.
Proof.
  unfold Js.setAdd. destruct (existsb (same z) s) eqn:E; [right; exact E |].
  left. apply in_or_app. right. left. reflexivity.
Qed.

(** Every value of the list is among the distinct ones, itself or as a
    value that is the same. *)
Lemma distinct_covers (l : list A) (x : A) :
  In x l -> In x (distinct same l) \/ existsb (same x) (distinct same l) = true.
Proof.
  induction l as [| z l IH] using rev_ind; intros Hin; [destruct Hin |].
  rewrite distinct_snoc.
  apply in_app_or in Hin. destruct Hin as [Hin | [<- | []]].
  - apply setAdd_keeps, IH, Hin.
  - apply setAdd_has.
Qed.

(** No distinct value is the same as one that stands before it. *)
Lemma distinct_pairwise (l : list A) :
  forall s1 y s2, distinct same l = s1 ++ y :: s2 -> existsb (same y) s1 = false.
Proof.
  induction l as [| z l IH] using rev_ind; intros s1 y s2 E.
  - destruct s1; discriminate.
  - rewrite distinct_snoc in E. unfold Js.setAdd in E.
    destruct (existsb (same z) (distinct same l)) eqn:Hz; [eapply IH; exact E |].
    destruct s2 as [| y' s2' _] using rev_ind.
    + apply app_inj_tail in E. destruct E as [<- <-]. exact Hz.
    + change (s1 ++ y :: s2' ++ [y']) with (s1 ++ (y :: s2') ++ [y']) in E.
      rewrite app_assoc in E. apply app_inj_tail in E. destruct E as [E _].
      eapply IH. exact E.
Qed.

End DistinctFacts.

Section AnomalyFacts.
Context (rt : Runtime).

Lemma srcToPorts_In (src : string) (ports : list Value) (records : list ZeekRecord) :
  In (src, ports) (fold_left (Anomaly.portsStep rt) records [])
  <-> failedFrom rt src records <> [] /\ ports = distinctPorts rt src records.
Proof.
  change (Anomaly.portsStep rt)
    with (groupStep (Anomaly.noResponse rt) (Anomaly.srcOf rt)
            (fun s r => Js.setAdd Val.sameValueZero (Anomaly.portOf r) s) []).
  rewrite group_In. unfold distinctPorts, distinct, failedFrom, members.
  rewrite <- fold_left_map. reflexivity.
Qed.

Lemma report_In (targets : list (string * list string)) (entry : string * list Value)
    (a : Anomaly.AnomalyResult) :
  In a (Anomaly.report targets entry) ->
  (50 < List.length (snd entry))%nat
  /\ Anomaly.type a = "port_scan"
  /\ Anomaly.sourceIp (Anomaly.details a) = fst entry
  /\ Anomaly.portsScanned (Anomaly.details a) = List.length (snd entry)
  /\ Anomaly.severity a
     = if (200 <? List.length (snd entry))%nat then Anomaly.High else Anomaly.Medium.
Proof.
  unfold Anomaly.report.
  destruct (50 <? List.length (snd entry))%nat eqn:E; [| intros []].
  intros [<- | []]. apply Nat.ltb_lt in E. repeat split; assumption || reflexivity.
Qed.

Lemma distinct_nil_length (src : string) (records : list ZeekRecord) :
  failedFrom rt src records = [] -> List.length (distinctPorts rt src records) = 0.
Proof. unfold distinctPorts. intros ->. reflexivity. Qed.

(** C5: the port-scan detector reports an anomaly for a source exactly
    when the distinct destination ports over the source's no-response
    records (state S0 or REJ) number more than 50; an anomaly it reports
    is a [port_scan] whose [portsScanned] is that number and whose
    severity is high above 200 and medium otherwise.  One hundred
    distinct ports from one source give one anomaly, of 100 ports and
    medium severity. *)
Theorem detectPortScans_threshold (records : list ZeekRecord) :
  (forall src : string,
      (exists a, In a (Anomaly.detectPortScans rt records)
                 /\ Anomaly.type a = "port_scan"
                 /\ Anomaly.sourceIp (Anomaly.details a) = src)
      <-> (50 < List.length (distinctPorts rt src records))%nat)
  /\ (forall a, In a (Anomaly.detectPortScans rt records) ->
        Anomaly.type a = "port_scan"
        /\ Anomaly.portsScanned (Anomaly.details a)
           = List.length (distinctPorts rt (Anomaly.sourceIp (Anomaly.details a)) records)
        /\ Anomaly.severity a
           = if (200 <? Anomaly.portsScanned (Anomaly.details a))%nat
             then Anomaly.High else Anomaly.Medium)
  /\ map (fun a => (Anomaly.type a, Anomaly.severity a,
                    Anomaly.sourceIp (Anomaly.details a),
                    Anomaly.portsScanned (Anomaly.details a)))
         (Anomaly.detectPortScans rt hundredPorts)
     = [("port_scan", Anomaly.Medium, "192.168.1.50", 100)].
Proof.
  assert (Hin : forall a, In a (Anomaly.detectPortScans rt records) ->
            exists src, failedFrom rt src records <> []
              /\ (50 < List.length (distinctPorts rt src records))%nat
              /\ Anomaly.type a = "port_scan"
              /\ Anomaly.sourceIp (Anomaly.details a) = src
              /\ Anomaly.portsScanned (Anomaly.details a)
                 = List.length (distinctPorts rt src records)
              /\ Anomaly.severity a
                 = if (200 <? List.length (distinctPorts rt src records))%nat
                   then Anomaly.High else Anomaly.Medium).
  { intros a Ha. unfold Anomaly.detectPortScans in Ha.
    apply in_flat_map in Ha. destruct Ha as ([src ports] & Hentry & Hrep).
    apply srcToPorts_In in Hentry. destruct Hentry as [Hne ->].
    apply report_In in Hrep. cbn [fst snd] in Hrep.
    exists src. tauto. }
  split; [| split].
  - intros src. split.
    + intros (a & Ha & _ & Hsrc).
      destruct (Hin a Ha) as (src' & _ & Hlen & _ & Hsrc' & _). congruence.
    + intros Hlen.
      assert (Hne : failedFrom rt src records <> []).
      { intros E. rewrite (distinct_nil_length src records E) in Hlen. lia. }
      assert (Hentry : In (src, distinctPorts rt src records)
                         (fold_left (Anomaly.portsStep rt) records [])).
      { apply srcToPorts_In. split; [exact Hne | reflexivity]. }
      assert (Hrep : exists a, In a (Anomaly.report
                                       (fold_left (Anomaly.targetsStep rt) records [])
                                       (src, distinctPorts rt src records))
                               /\ Anomaly.type a = "port_scan"
                               /\ Anomaly.sourceIp (Anomaly.details a) = src).
      { unfold Anomaly.report. cbn [fst snd].
        apply Nat.ltb_lt in Hlen. rewrite Hlen.
        eexists. split; [left; reflexivity | split; reflexivity]. }
      destruct Hrep as (a & Ha & Hty & Hsrc).
      exists a. split; [| split; assumption].
      unfold Anomaly.detectPortScans. apply in_flat_map.
      exists (src, distinctPorts rt src records). split; assumption.
  - intros a Ha.
    destruct (Hin a Ha) as (src & _ & _ & Hty & Hsrc & Hn & Hsev).
    subst src. rewrite Hn. repeat split; assumption.
  - vm_compute. reflexivity.
Qed.

End AnomalyFacts.

(** ** CIDR matching on IPv4 *)

Section StringFacts.

Lemma prefix_char (c x : ascii) (s : string) :
  String.prefix (Js.str1 c) (String x s) = Ascii.eqb c x.
Proof.
  unfold Js.str1. simpl. destruct (ascii_dec c x) as [-> | Hne].
  - rewrite Ascii.eqb_refl. destruct s; reflexivity.
  - symmetry. apply Ascii.eqb_neq. exact Hne.
Qed.

Lemma append_assoc (a b c : string) : ((a ++ b) ++ c = a ++ (b ++ c))%string.
Proof. induction a as [| x a IH]; simpl; [reflexivity | rewrite IH; reflexivity]. Qed.

Lemma append_empty_r (a : string) : (a ++ "" = a)%string.
Proof. induction a as [| x a IH]; simpl; [reflexivity | rewrite IH; reflexivity]. Qed.

(** Splitting at a one-character separator: a piece that lacks the
    separator is read up to the separator that follows it, or to the end. *)
Lemma split_go_piece_end (c : ascii) (a : string) :
  lacks c a = true ->
  forall cur, Js.split_go (Js.str1 c) 0 cur a = [(cur ++ a)%string].
Proof.
  induction a as [| x a IH]; intros Hl cur.
  - simpl. rewrite append_empty_r. reflexivity.
  - simpl in Hl. apply andb_true_iff in Hl. destruct Hl as [Hx Hl].
    cbn [Js.split_go]. rewrite prefix_char.
    apply negb_true_iff in Hx. rewrite Hx.
    rewrite (IH Hl). rewrite append_assoc. reflexivity.
Qed.

Lemma split_go_piece (c : ascii) (a rest : string) :
  lacks c a = true ->
  forall cur,
    Js.split_go (Js.str1 c) 0 cur (a ++ String c rest)
    = (cur ++ a)%string :: Js.split_go (Js.str1 c) 0 "" rest.
Proof.
  induction a as [| x a IH]; intros Hl cur.
  - cbn [String.append Js.split_go]. rewrite prefix_char, Ascii.eqb_refl.
    rewrite append_empty_r. reflexivity.
  - simpl in Hl. apply andb_true_iff in Hl. destruct Hl as [Hx Hl].
    cbn [String.append Js.split_go]. rewrite prefix_char.
    apply negb_true_iff in Hx. rewrite Hx.
    rewrite (IH Hl). rewrite append_assoc. reflexivity.
Qed.

Lemma split_piece_end (c : ascii) (a : string) :
  lacks c a = true -> Js.split (Js.str1 c) a = [a].
Proof. intros H. unfold Js.split. rewrite split_go_piece_end by exact H. reflexivity. Qed.

Lemma split_piece (c : ascii) (a rest : string) :
  lacks c a = true ->
  Js.split (Js.str1 c) (a ++ String c rest) = a :: Js.split (Js.str1 c) rest.
Proof. intros H. unfold Js.split. rewrite split_go_piece by exact H. reflexivity. Qed.

Lemma includes_char (c : ascii) (s : string) :
  Js.includes s (Js.str1 c) = negb (lacks c s).
Proof.
  induction s as [| x s IH].
  - reflexivity.
  - cbn [Js.includes lacks]. rewrite prefix_char, IH.
    rewrite negb_andb, negb_involutive. reflexivity.
Qed.

Lemma lacks_append (c : ascii) (a b : string) :
  lacks c (a ++ b) = lacks c a && lacks c b.
Proof.
  induction a as [| x a IH]; simpl; [reflexivity |].
  rewrite IH, andb_assoc. reflexivity.
Qed.

(** *** Decimal numerals *)

Lemma digitVal_digit (c : ascii) :
  isDigit c = true ->
  Js.digitVal c = Some (Js.code c - 48)%Z /\ (0 <= Js.code c - 48 < 10)%Z.
Proof.
  unfold isDigit, Js.digitVal. cbv zeta. intros H. rewrite H. split; [reflexivity | blia].
Qed.

Lemma digits_decimal (s : string) :
  Val.allDigits s = true ->
  forall acc, Js.digits 10 (Some acc) s = Some (decimal acc s).
Proof.
  induction s as [| c s IH]; intros Hd acc; [reflexivity |].
  cbn [Val.allDigits] in Hd. apply andb_true_iff in Hd. destruct Hd as [Hc Hs].
  destruct (digitVal_digit c Hc) as [Hv Hr].
  cbn [Js.digits decimal]. rewrite Hv.
  replace (Js.code c - 48 <? 10)%Z with true by (symmetry; blia).
  apply IH. exact Hs.
Qed.

Lemma digit_not_white (c : ascii) : isDigit c = true -> Js.isWhite c = false.
Proof. unfold isDigit, Js.isWhite. cbv zeta. generalize (Js.code c). intros n H. blia. Qed.

Lemma code_inj_char (c : ascii) (n : nat) :
  (n < 256)%nat -> Js.code c = Z.of_nat n -> c = ascii_of_nat n.
Proof.
  unfold Js.code. intros Hn H. apply Nat2Z.inj in H. rewrite <- H.
  symmetry. apply ascii_nat_embedding.
Qed.

Lemma digit_not_sign (c : ascii) :
  isDigit c = true -> c <> "-"%char /\ c <> "+"%char.
Proof.
  unfold isDigit. intros H. split; intros ->; vm_compute in H; discriminate.
Qed.

(** [parseInt] of a non-empty string of decimal digits is the number the
    digits denote. *)
Lemma parseInt_decimal (s : string) :
  s <> "" -> Val.allDigits s = true -> Js.parseInt s 10 = Some (decimal 0 s).
Proof.
  destruct s as [| c s]; [congruence |]. intros _ Hd.
  pose proof Hd as Hd'.
  cbn [Val.allDigits] in Hd. apply andb_true_iff in Hd. destruct Hd as [Hc Hs].
  destruct (digit_not_sign c Hc) as [Hm Hp].
  destruct (digitVal_digit c Hc) as [Hv Hr].
  unfold Js.parseInt. cbn [Js.trimStart]. rewrite (digit_not_white c Hc).
  assert (Hsign : match String c s with
                  | String "-"%char r => (true, r)
                  | String "+"%char r => (false, r)
                  | _ => (false, String c s)
                  end = (false, String c s)).
  { destruct c as [[] [] [] [] [] [] [] []]; try reflexivity; congruence. }
  rewrite Hsign. change (10 =? 16)%Z with false. cbv iota.
  cbn [Js.digits]. rewrite Hv.
  replace (Js.code c - 48 <? 10)%Z with true by (symmetry; blia).
  rewrite (digits_decimal s Hs). reflexivity.
Qed.

Lemma decimal_nonneg (s : string) :
  Val.allDigits s = true -> forall acc, (0 <= acc)%Z -> (0 <= decimal acc s)%Z.
Proof.
  induction s as [| c s IH]; intros Hd acc Hacc; [exact Hacc |].
  cbn [Val.allDigits] in Hd. apply andb_true_iff in Hd. destruct Hd as [Hc Hs].
  cbn [decimal]. apply IH; [exact Hs |]. fold (isDigit c) in Hc.
  unfold isDigit in Hc. blia.
Qed.

Lemma digits_lack (c : ascii) (s : string) :
  isDigit c = false -> Val.allDigits s = true -> lacks c s = true.
Proof.
  intros Hc. induction s as [| x s IH]; intros Hd; [reflexivity |].
  cbn [Val.allDigits] in Hd. apply andb_true_iff in Hd. destruct Hd as [Hx Hs].
  cbn [lacks]. rewrite (IH Hs), andb_true_r. apply negb_true_iff.
  apply Ascii.eqb_neq. intros <-. unfold isDigit in Hc. congruence.
Qed.

End StringFacts.

Section CidrFacts.

Lemma octet_parse (s : string) :
  isOctet s = true ->
  Js.parseInt s 10 = Some (decimal 0 s) /\ (0 <= decimal 0 s <= 255)%Z.
Proof.
  unfold isOctet. intros H.
  apply andb_true_iff in H. destruct H as [H Hle].
  apply andb_true_iff in H. destruct H as [Hne Hd].
  apply negb_true_iff, String.eqb_neq in Hne. apply Z.leb_le in Hle.
  split; [apply parseInt_decimal; assumption |].
  split; [apply decimal_nonneg; [exact Hd | lia] | exact Hle].
Qed.

Lemma octet_lacks (c : ascii) (s : string) :
  isDigit c = false -> isOctet s = true -> lacks c s = true.
Proof.
  unfold isOctet. intros Hc H.
  apply andb_true_iff in H. destruct H as [H _].
  apply andb_true_iff in H. destruct H as [_ Hd].
  apply digits_lack; assumption.
Qed.

Lemma quad_lacks (c : ascii) (a b c' d : string) :
  isDigit c = false -> c <> "."%char ->
  isOctet a = true -> isOctet b = true -> isOctet c' = true -> isOctet d = true ->
  lacks c (a ++ "." ++ b ++ "." ++ c' ++ "." ++ d) = true.
Proof.
  intros Hc Hdot Ha Hb Hc' Hd.
  assert (Hne : negb (Ascii.eqb c ".") = true)
    by (apply negb_true_iff, Ascii.eqb_neq; exact Hdot).
  repeat (rewrite lacks_append || cbn [String.append lacks]).
  rewrite Hne, (octet_lacks c a Hc Ha), (octet_lacks c b Hc Hb),
    (octet_lacks c c' Hc Hc'), (octet_lacks c d Hc Hd).
  reflexivity.
Qed.

Lemma quad_split (a b c d : string) :
  isOctet a = true -> isOctet b = true -> isOctet c = true -> isOctet d = true ->
  Js.split "." (a ++ "." ++ b ++ "." ++ c ++ "." ++ d) = [a; b; c; d].
Proof.
  intros Ha Hb Hc Hd.
  assert (Hdot : isDigit "."%char = false) by reflexivity.
  change "." with (Js.str1 "."%char) at 1. cbn [String.append].
  rewrite split_piece by (apply octet_lacks; assumption).
  rewrite split_piece by (apply octet_lacks; assumption).
  rewrite split_piece by (apply octet_lacks; assumption).
  rewrite split_piece_end by (apply octet_lacks; assumption).
  reflexivity.
Qed.

(** Every dotted quad packs into a number. *)
Lemma ipv4ToNum_valid (ip : string) :
  validIPv4 ip -> exists n : Z, Filters.ipv4ToNum ip = Some n.
Proof.
  intros (a & b & c & d & -> & Ha & Hb & Hc & Hd).
  unfold Filters.ipv4ToNum. rewrite quad_split by assumption.
  cbn [List.length Nat.eqb negb Filters.ipv4Octets].
  destruct (octet_parse a Ha) as [-> Ra], (octet_parse b Hb) as [-> Rb],
    (octet_parse c Hc) as [-> Rc], (octet_parse d Hd) as [-> Rd].
  repeat match goal with
         | |- context [((?x <? 0) || (?x >? 255))%Z] =>
             replace ((x <? 0) || (x >? 255))%Z with false by (symmetry; blia)
         end.
  eexists. reflexivity.
Qed.

Lemma validIPv4_lacks (c : ascii) (ip : string) :
  isDigit c = false -> c <> "."%char -> validIPv4 ip -> lacks c ip = true.
Proof.
  intros Hc Hdot (a & b & c' & d & -> & Ha & Hb & Hc' & Hd).
  apply quad_lacks; assumption.
Qed.

Lemma engine_ipv4ToNum (ip : string) : Engine.ipv4ToNum ip = Filters.ipv4ToNum ip.
Proof. reflexivity. Qed.

(** On an address and a network without a colon the matcher of
    [filters.ts] is the engine's. *)
Lemma filters_matchCidr_ipv4 (ip cidr : string) :
  Js.includes ip ":" = false ->
  Js.includes (nth 0 (Js.split "/" cidr) "") ":" = false ->
  Filters.matchCidr ip cidr = Engine.matchCidr ip cidr.
Proof.
  intros Hip Hnet. unfold Filters.matchCidr, Engine.matchCidr.
  destruct (negb (Js.includes cidr "/")); [reflexivity |].
  cbv zeta. rewrite Hip, Hnet. reflexivity.
Qed.

Lemma toInt32_small (z : Z) : (- 2 ^ 31 <= z < 2 ^ 31)%Z -> Js.toInt32 z = z.
Proof. intros H. unfold Js.toInt32. rewrite Z.mod_small; lia. Qed.

Lemma toInt32_high (z : Z) :
  (2 ^ 31 <= z < 2 ^ 32)%Z -> Js.toInt32 z = (z - 2 ^ 32)%Z.
Proof.
  intros H. unfold Js.toInt32.
  replace (z + 2 ^ 31)%Z with ((z - 2 ^ 31) + 1 * 2 ^ 32)%Z by lia.
  rewrite Z.mod_add by lia. rewrite Z.mod_small; lia.
Qed.

Lemma toUint32_toInt32 (z : Z) :
  (0 <= z < 2 ^ 32)%Z -> Js.toUint32 (Js.toInt32 z) = z.
Proof.
  intros H. unfold Js.toUint32.
  destruct (Z_lt_dec z (2 ^ 31)) as [Hlt | Hge].
  - rewrite toInt32_small by lia. apply Z.mod_small. lia.
  - rewrite toInt32_high by lia.
    replace (z - 2 ^ 32)%Z with (z + (-1) * 2 ^ 32)%Z by lia.
    rewrite Z.mod_add by lia. apply Z.mod_small. lia.
Qed.

(** A multiple of 256 and a byte have no bit in common: or-ing them adds
    them. *)
Lemma lor_byte (k o : Z) :
  (0 <= o < 256)%Z -> Z.lor (k * 256) o = (k * 256 + o)%Z.
Proof.
  intros Ho.
  assert (Hland : Z.land (k * 256) o = 0%Z).
  { apply Z.bits_inj'. intros i Hi. rewrite Z.land_spec, Z.bits_0.
    destruct (Z_lt_dec i 8) as [Hlt | Hge].
    - change 256%Z with (2 ^ 8)%Z. rewrite Z.mul_pow2_bits_low by lia. reflexivity.
    - destruct (Z.eq_dec o 0) as [-> | Hne].
      + rewrite Z.bits_0. apply andb_false_r.
      + rewrite (Z.bits_above_log2 o i); [apply andb_false_r | lia |].
        assert (Z.log2 o < 8)%Z by (apply Z.log2_lt_pow2; lia). lia. }
  pose proof (Z.add_lor_land (k * 256) o) as H. rewrite Hland in H. lia.
Qed.

(** One turn of the packing loop, [(num << 8) | octet]. *)
Lemma pack_step (num octet : Z) :
  (0 <= num < 2 ^ 24)%Z -> (0 <= octet <= 255)%Z ->
  Js.bor (Js.shl num 8) octet = Js.toInt32 (num * 256 + octet).
Proof.
  intros Hn Ho. unfold Js.bor, Js.shl.
  rewrite (toInt32_small num) by lia.
  change (2 ^ (8 mod 32))%Z with 256%Z.
  rewrite (toInt32_small octet) by lia.
  destruct (Z_lt_dec (num * 256) (2 ^ 31)) as [Hlt | Hge].
  - rewrite (toInt32_small (num * 256)) by lia.
    rewrite (toInt32_small (num * 256)) by lia.
    rewrite lor_byte by lia. rewrite toInt32_small; lia.
  - rewrite (toInt32_high (num * 256)) by lia.
    rewrite (toInt32_small (num * 256 - 2 ^ 32)) by lia.
    replace (num * 256 - 2 ^ 32)%Z with ((num - 2 ^ 24) * 256)%Z by lia.
    rewrite lor_byte by lia. rewrite toInt32_high; lia.
Qed.

(** The number of a dotted quad is its four octets, packed. *)
Lemma ipv4ToNum_packed (a b c d : string) :
  isOctet a = true -> isOctet b = true -> isOctet c = true -> isOctet d = true ->
  Filters.ipv4ToNum (a ++ "." ++ b ++ "." ++ c ++ "." ++ d)
  = Some (decimal 0 a * 2 ^ 24 + decimal 0 b * 2 ^ 16 + decimal 0 c * 2 ^ 8 + decimal 0 d)%Z.
Proof.
  intros Ha Hb Hc Hd.
  unfold Filters.ipv4ToNum. rewrite quad_split by assumption.
  cbn [List.length Nat.eqb negb Filters.ipv4Octets].
  destruct (octet_parse a Ha) as [-> Ra], (octet_parse b Hb) as [-> Rb],
    (octet_parse c Hc) as [-> Rc], (octet_parse d Hd) as [-> Rd].
  repeat match goal with
         | |- context [((?x <? 0) || (?x >? 255))%Z] =>
             replace ((x <? 0) || (x >? 255))%Z with false by (symmetry; blia)
         end.
  rewrite (pack_step 0 (decimal 0 a)) by lia.
  rewrite (toInt32_small (0 * 256 + decimal 0 a)) by lia.
  rewrite (pack_step (0 * 256 + decimal 0 a) (decimal 0 b)) by lia.
  rewrite (toInt32_small ((0 * 256 + decimal 0 a) * 256 + decimal 0 b)) by lia.
  rewrite (pack_step ((0 * 256 + decimal 0 a) * 256 + decimal 0 b) (decimal 0 c)) by lia.
  rewrite (toInt32_small (((0 * 256 + decimal 0 a) * 256 + decimal 0 b) * 256 + decimal 0 c))
    by lia.
  rewrite pack_step by lia.
  unfold Js.ushr0. rewrite toUint32_toInt32 by lia.
  f_equal. lia.
Qed.

(** A /32 prefix is exact match: two dotted quads match under it exactly
    when their octets denote the same numbers. *)
Lemma matchCidr_32_exact (a1 b1 c1 d1 a2 b2 c2 d2 : string) :
  isOctet a1 = true -> isOctet b1 = true -> isOctet c1 = true -> isOctet d1 = true ->
  isOctet a2 = true -> isOctet b2 = true -> isOctet c2 = true -> isOctet d2 = true ->
  Engine.matchCidr (a1 ++ "." ++ b1 ++ "." ++ c1 ++ "." ++ d1)
    ((a2 ++ "." ++ b2 ++ "." ++ c2 ++ "." ++ d2) ++ "/32") = true
  <-> (decimal 0 a1 = decimal 0 a2 /\ decimal 0 b1 = decimal 0 b2
       /\ decimal 0 c1 = decimal 0 c2 /\ decimal 0 d1 = decimal 0 d2).
Proof.
  intros Ha1 Hb1 Hc1 Hd1 Ha2 Hb2 Hc2 Hd2.
  set (ip1 := (a1 ++ "." ++ b1 ++ "." ++ c1 ++ "." ++ d1)%string).
  set (ip2 := (a2 ++ "." ++ b2 ++ "." ++ c2 ++ "." ++ d2)%string).
  assert (Hslash : lacks "/"%char ip2 = true)
    by (apply quad_lacks; try assumption; [reflexivity | discriminate]).
  assert (Hsplit : Js.split "/" (ip2 ++ "/32") = [ip2; "32"]).
  { change "/" with (Js.str1 "/"%char).
    change (ip2 ++ "/32")%string with (ip2 ++ String "/"%char "32")%string.
    rewrite split_piece by exact Hslash. reflexivity. }
  assert (Hinc : Js.includes (ip2 ++ "/32") "/" = true).
  { change "/" with (Js.str1 "/"%char). rewrite includes_char.
    change (ip2 ++ "/32")%string with (ip2 ++ String "/"%char "32")%string.
    rewrite lacks_append. cbn [lacks]. rewrite Ascii.eqb_refl.
    rewrite andb_false_r. reflexivity. }
  destruct (octet_parse a1 Ha1) as [_ Ra1], (octet_parse b1 Hb1) as [_ Rb1],
    (octet_parse c1 Hc1) as [_ Rc1], (octet_parse d1 Hd1) as [_ Rd1],
    (octet_parse a2 Ha2) as [_ Ra2], (octet_parse b2 Hb2) as [_ Rb2],
    (octet_parse c2 Hc2) as [_ Rc2], (octet_parse d2 Hd2) as [_ Rd2].
  unfold Engine.matchCidr. rewrite Hinc, Hsplit. cbn [negb nth].
  rewrite !engine_ipv4ToNum. unfold ip1, ip2.
  rewrite !ipv4ToNum_packed by assumption.
  change (Filters.mask32 (Js.parseInt "32" 10)) with (-1)%Z.
  unfold Js.band. change (Js.toInt32 (-1)) with (-1)%Z. rewrite !Z.land_m1_r.
  rewrite Z.eqb_eq. split.
  - intros H. apply (f_equal Js.toUint32) in H.
    rewrite !toUint32_toInt32 in H by lia. lia.
  - intros (-> & -> & -> & ->). reflexivity.
Qed.

(** C8: for every dotted quad [ip], [matchCidr(ip, ip + "/32")] and
    [matchCidr(ip, "0.0.0.0/0")] are true, in [filters.ts] and in the
    engine alike: the mask of prefix 32 is all ones ([~0 << 0]), the mask
    of prefix 0 is 0, and the address packs into a 32-bit number. *)
Theorem matchCidr_ipv4_identities (ip : string) :
  validIPv4 ip ->
  Filters.matchCidr ip (ip ++ "/32") = true
  /\ Filters.matchCidr ip "0.0.0.0/0" = true
  /\ Engine.matchCidr ip (ip ++ "/32") = true
  /\ Engine.matchCidr ip "0.0.0.0/0" = true
  /\ Filters.mask32 (Some 32%Z) = (-1)%Z
  /\ Filters.mask32 (Some 0%Z) = 0%Z
  /\ exists n : Z, Filters.ipv4ToNum ip = Some n /\ (0 <= n < 2 ^ 32)%Z.
Proof.
  intros Hv.
  assert (Hpacked : exists n : Z, Filters.ipv4ToNum ip = Some n /\ (0 <= n < 2 ^ 32)%Z).
  { destruct Hv as (a & b & c & d & -> & Ha & Hb & Hc & Hd).
    rewrite ipv4ToNum_packed by assumption.
    destruct (octet_parse a Ha) as [_ Ra], (octet_parse b Hb) as [_ Rb],
      (octet_parse c Hc) as [_ Rc], (octet_parse d Hd) as [_ Rd].
    eexists. split; [reflexivity | lia]. }
  assert (Hslash : lacks "/"%char ip = true)
    by (apply validIPv4_lacks; [reflexivity | discriminate | exact Hv]).
  assert (Hcolon : Js.includes ip ":" = false).
  { change ":" with (Js.str1 ":"%char). rewrite includes_char.
    rewrite validIPv4_lacks; [reflexivity | reflexivity | discriminate | exact Hv]. }
  destruct (ipv4ToNum_valid ip Hv) as [n Hn].
  assert (Hsplit : Js.split "/" (ip ++ "/32") = [ip; "32"]).
  { change "/" with (Js.str1 "/"%char).
    change (ip ++ "/32")%string with (ip ++ String "/"%char "32")%string.
    rewrite split_piece by exact Hslash. reflexivity. }
  assert (Hinc : Js.includes (ip ++ "/32") "/" = true).
  { change "/" with (Js.str1 "/"%char). rewrite includes_char.
    change (ip ++ "/32")%string with (ip ++ String "/"%char "32")%string.
    rewrite lacks_append. cbn [lacks]. rewrite Ascii.eqb_refl.
    rewrite andb_false_r. reflexivity. }
  assert (E32 : Engine.matchCidr ip (ip ++ "/32") = true).
  { unfold Engine.matchCidr. rewrite Hinc, Hsplit. cbn [negb nth].
    rewrite engine_ipv4ToNum, Hn. apply Z.eqb_refl. }
  assert (E0 : Engine.matchCidr ip "0.0.0.0/0" = true).
  { unfold Engine.matchCidr.
    change (Js.includes "0.0.0.0/0" "/") with true.
    change (Js.split "/" "0.0.0.0/0") with ["0.0.0.0"; "0"].
    cbn [negb nth]. rewrite engine_ipv4ToNum, Hn.
    change (Filters.ipv4ToNum "0.0.0.0") with (Some 0%Z).
    change (Js.parseInt "0" 10) with (Some 0%Z).
    cbn [Filters.mask32]. unfold Js.band.
    change (Js.toInt32 0) with 0%Z. rewrite !Z.land_0_r. reflexivity. }
  repeat split.
  - rewrite filters_matchCidr_ipv4; [exact E32 | exact Hcolon |].
    rewrite Hsplit. exact Hcolon.
  - rewrite filters_matchCidr_ipv4; [exact E0 | exact Hcolon | reflexivity].
  - exact E32.
  - exact E0.
  - exact Hpacked.
Qed.

Lemma matchCidr_ipv4_identities_witness :
  Filters.matchCidr "192.168.1.1" "192.168.1.1/32" = true
  /\ Filters.matchCidr "192.168.1.1" "0.0.0.0/0" = true.
Proof.
  assert (Hv : validIPv4 "192.168.1.1").
  { exists "192", "168", "1", "1". repeat split; reflexivity. }
  destruct (matchCidr_ipv4_identities "192.168.1.1" Hv) as (H32 & H0 & _).
  split; [exact H32 | exact H0].
Defined.

End CidrFacts.

(** C1: the engine evaluates a [cidr] filter with its own [matchCidr],
    which has no IPv6 branch: an IPv6 address inside the filter's prefix
    evaluates to false, where [matchCidr] of [filters.ts] answers true.
    (And in [filters.ts] a prefix length that is no number matches every
    well-formed pair of addresses.) *)
Theorem applyFilter_cidr_ipv6_evaluation :
  Engine.applyFilter Host.runtime
    [("ts", VNum 1); ("id.orig_h", VStr "2001:db8::1")]
    {| Engine.field := "id.orig_h"; Engine.op := Engine.OpCidr;
       Engine.value := VStr "2001:db8::/32" |}
  = false
  /\ Filters.matchCidr "2001:db8::1" "2001:db8::/32" = true
  /\ Filters.matchCidr "2001:db9::1" "2001:db8::/32" = false
  /\ Filters.matchCidr "::1" "::2/x" = true.
Proof.
  repeat split; vm_compute; reflexivity.
Qed.

(** The engine's matcher rejects every address without a dot, so every
    IPv6 address in colon notation, whatever the network. *)
Lemma engine_matchCidr_no_dot (ip cidr : string) :
  lacks "."%char ip = true ->
  Js.includes cidr "/" = true ->
  Engine.matchCidr ip cidr = false.
Proof.
  intros Hdot Hinc. unfold Engine.matchCidr. rewrite Hinc. cbn [negb]. cbv zeta.
  unfold Engine.ipv4ToNum at 1.
  change "." with (Js.str1 "."%char). rewrite (split_piece_end "."%char ip Hdot).
  reflexivity.
Qed.

(** So does the [cidr] filter: on a record whose field holds such an
    address it is false for every network in prefix notation. *)
Lemma applyFilter_cidr_no_dot (rt : Runtime) (record : ZeekRecord) (filter : Engine.FilterDef) :
  Engine.op filter = Engine.OpCidr ->
  lacks "."%char
    (Val.toString rt
       (Val.orElse (Aggregation.getNestedValue record (Engine.field filter)) (VStr "")))
  = true ->
  Js.includes (Val.toString rt (Engine.value filter)) "/" = true ->
  Engine.applyFilter rt record filter = false.
Proof.
  intros Hop Hdot Hinc. unfold Engine.applyFilter. rewrite Hop.
  apply engine_matchCidr_no_dot; assumption.
Qed.

(** ** Floating-point comparisons *)

Section FloatFacts.

Lemma SFcompare_antisym (x y : spec_float) :
  SFcompare y x = option_map CompOpp (SFcompare x y).
Proof.
  destruct x as [sx | sx | | sx mx ex], y as [sy | sy | | sy my ey];
    try reflexivity; try (destruct sx; reflexivity); try (destruct sy; reflexivity);
    try (destruct sx, sy; reflexivity).
  simpl. destruct sx, sy; try reflexivity;
    rewrite (Z.compare_antisym ex ey); destruct (ex ?= ey)%Z; simpl; try reflexivity;
    pose proof (Pos.compare_cont_antisym mx my Eq) as H; simpl in H; rewrite <- H;
    destruct (Pos.compare_cont Eq mx my); reflexivity.
Qed.

Lemma not_nan_compare (a b : float) :
  PrimFloat.is_nan a = false -> PrimFloat.is_nan b = false ->
  exists c, SFcompare (Prim2SF a) (Prim2SF b) = Some c.
Proof.
  unfold PrimFloat.is_nan. rewrite !FloatAxioms.eqb_spec. unfold SFeqb.
  intros Ha Hb.
  destruct (Prim2SF a) as [sa | sa | | sa ma ea], (Prim2SF b) as [sb | sb | | sb mb eb];
    try discriminate; simpl; eexists; reflexivity.
Qed.

(** Between numbers, "not less" is "greater or equal". *)
Lemma not_ltb_leb (a b : float) :
  PrimFloat.is_nan a = false -> PrimFloat.is_nan b = false ->
  PrimFloat.ltb a b = false -> PrimFloat.leb b a = true.
Proof.
  intros Ha Hb. rewrite ltb_spec, leb_spec. unfold SFltb, SFleb.
  rewrite (SFcompare_antisym (Prim2SF a) (Prim2SF b)).
  destruct (not_nan_compare a b Ha Hb) as [c ->]. simpl.
  destruct c; simpl; congruence.
Qed.

(** The number of a length is a number: rounding a non-negative integer
    never gives NaN. *)
Lemma shr_1_nonneg (mrs : shr_record) :
  (0 <= shr_m mrs)%Z -> (0 <= shr_m (shr_1 mrs))%Z.
Proof.
  destruct mrs as [m r s]. simpl.
  destruct m as [| p | p]; simpl; try lia; destruct p; simpl; lia.
Qed.

Lemma shr_nonneg (mrs : shr_record) (e n : Z) :
  (0 <= shr_m mrs)%Z -> (0 <= shr_m (fst (shr mrs e n)))%Z.
Proof.
  intros H. unfold shr. destruct n as [| p | p]; simpl; try exact H.
  revert mrs H. induction p as [p IH | p IH |]; intros mrs H; simpl.
  - apply IH, IH, shr_1_nonneg, H.
  - apply IH, IH, H.
  - apply shr_1_nonneg, H.
Qed.

Lemma shr_fexp_nonneg (m e : Z) (l : location) :
  (0 <= m)%Z -> (0 <= shr_m (fst (shr_fexp prec emax m e l)))%Z.
Proof.
  intros H. unfold shr_fexp. apply shr_nonneg.
  destruct l as [| []]; simpl; exact H.
Qed.

Lemma round_nearest_even_nonneg (m : Z) (l : location) :
  (0 <= m)%Z -> (0 <= round_nearest_even m l)%Z.
Proof.
  intros H. unfold round_nearest_even. destruct l as [| []]; try lia.
  destruct (Z.even m); lia.
Qed.

Lemma binary_round_aux_not_nan (sx : bool) (mx ex : Z) (lx : location) :
  (0 <= mx)%Z -> binary_round_aux prec emax sx mx ex lx <> S754_nan.
Proof.
  intros H. unfold binary_round_aux.
  pose proof (shr_fexp_nonneg mx ex lx H) as H1.
  destruct (shr_fexp prec emax mx ex lx) as [mrs' e']. simpl in H1.
  pose proof (shr_fexp_nonneg _ e' loc_Exact
                (round_nearest_even_nonneg _ (loc_of_shr_record mrs') H1)) as H2.
  destruct (shr_fexp prec emax _ e' loc_Exact) as [mrs'' e'']. simpl in H2.
  destruct (shr_m mrs'') as [| p | p]; try discriminate; [| lia].
  destruct (e'' <=? emax - prec)%Z; discriminate.
Qed.

Lemma binary_normalize_not_nan (m e : Z) (szero : bool) :
  binary_normalize prec emax m e szero <> S754_nan.
Proof.
  unfold binary_normalize, binary_round.
  destruct m as [| p | p]; [discriminate | |];
    destruct (shl_align _ _ _) as [mz ez]; apply binary_round_aux_not_nan; lia.
Qed.

Lemma SFcompare_refl (x : spec_float) :
  x <> S754_nan -> SFcompare x x = Some Eq.
Proof.
  destruct x as [s | s | | s m e]; intros H; try congruence; simpl.
  - reflexivity.
  - destruct s; reflexivity.
  - rewrite Z.compare_refl, Pos.compare_cont_refl. destruct s; reflexivity.
Qed.

Lemma ofNat_not_nan (n : nat) : PrimFloat.is_nan (Js.ofNat n) = false.
Proof.
  unfold PrimFloat.is_nan, Js.ofNat.
  rewrite FloatAxioms.eqb_spec, of_uint63_spec.
  unfold SFeqb. rewrite SFcompare_refl; [reflexivity |].
  apply binary_normalize_not_nan.
Qed.

(** Two numbers that are equal are the same number, the two zeros apart. *)
Lemma SFeqb_cases (a b : spec_float) :
  SFeqb a b = true ->
  (exists s s', a = S754_zero s /\ b = S754_zero s') \/ (a = b /\ a <> S754_nan).
Proof.
  unfold SFeqb.
  destruct a as [sa | sa | | sa ma ea], b as [sb | sb | | sb mb eb]; simpl;
    try discriminate; try (destruct sa; discriminate); try (destruct sb; discriminate).
  - intros _. left. now exists sa, sb.
  - destruct sa, sb; try discriminate; intros _; right; split; congruence.
  - change (PosDef.Pos.compare_cont Eq ma mb) with (Pos.compare ma mb).
    destruct sa, sb; try discriminate;
      destruct (ea ?= eb)%Z eqn:Ee; try discriminate;
      destruct (ma ?= mb)%positive eqn:Em; try discriminate;
      intros _; apply Z.compare_eq in Ee; apply Pos.compare_eq in Em;
      subst; right; split; congruence.
Qed.

(** The number of a non-negative integer has no negative zero. *)
Lemma binary_normalize_zero_sign (m e : Z) (sg : bool) :
  (0 <= m)%Z -> binary_normalize prec emax m e false = S754_zero sg -> sg = false.
Proof.
  intros Hm. unfold binary_normalize, binary_round.
  destruct m as [| p | p]; [intros [= <-]; reflexivity | | lia].
  destruct (shl_align _ _ _) as [mz ez]. unfold binary_round_aux.
  destruct (shr_fexp prec emax (Z.pos mz) ez loc_Exact) as [mrs' e'].
  destruct (shr_fexp prec emax _ e' loc_Exact) as [mrs'' e''].
  destruct (shr_m mrs'') as [| q | q]; try discriminate.
  - intros [= <-]. reflexivity.
  - destruct (e'' <=? emax - prec)%Z; discriminate.
Qed.

(** Two counters that are equal as numbers are the same number. *)
Lemma ofNat_eqb_eq (n m : nat) :
  PrimFloat.eqb (Js.ofNat n) (Js.ofNat m) = true -> Js.ofNat n = Js.ofNat m.
Proof.
  rewrite FloatAxioms.eqb_spec. intros H. apply FloatAxioms.Prim2SF_inj.
  destruct (SFeqb_cases _ _ H) as [(sg & sg' & Ea & Eb) | [E _]]; [| exact E].
  rewrite Ea, Eb. unfold Js.ofNat in Ea, Eb. rewrite of_uint63_spec in Ea, Eb.
  apply binary_normalize_zero_sign in Ea; [| apply Uint63.to_Z_bounded].
  apply binary_normalize_zero_sign in Eb; [| apply Uint63.to_Z_bounded].
  congruence.
Qed.

Lemma ofNat_eqb_refl (n : nat) : PrimFloat.eqb (Js.ofNat n) (Js.ofNat n) = true.
Proof.
  pose proof (ofNat_not_nan n) as H. unfold PrimFloat.is_nan in H.
  apply negb_false_iff in H. exact H.
Qed.

(** The number of a small integer, made by [parseInt] or by counting. *)
Lemma ofZ_ofNat (n : nat) :
  (Z.of_nat n < 2 ^ 63)%Z -> Js.ofZ (Z.of_nat n) = Js.ofNat n.
Proof.
  intros Hn. unfold Js.ofZ, Js.ofNat.
  rewrite <- (FloatAxioms.SF2Prim_Prim2SF (of_uint63 (Uint63.of_Z (Z.of_nat n)))).
  rewrite of_uint63_spec, Uint63.of_Z_spec, Z.mod_small; [reflexivity |].
  change Uint63.wB with (2 ^ 63)%Z. lia.
Qed.

End FloatFacts.

(** ** The decimal numeral of a natural number *)

Section NumeralFacts.

Lemma string_of_uint_decimal (d : Decimal.uint) :
  forall acc : nat,
    Val.allDigits (NilEmpty.string_of_uint d) = true
    /\ decimal (Z.of_nat acc) (NilEmpty.string_of_uint d)
       = Z.of_nat (Nat.of_uint_acc d acc).
Proof.
  induction d as [| d IH | d IH | d IH | d IH | d IH | d IH | d IH | d IH | d IH | d IH];
    intros acc; cbn [NilEmpty.string_of_uint Val.allDigits decimal Nat.of_uint_acc];
    [split; reflexivity | ..];
    (split;
     [ rewrite (proj1 (IH 0%nat)); reflexivity
     | rewrite <- (proj2 (IH _)); f_equal; rewrite Nat.tail_mul_spec;
       match goal with
       | |- context [Js.code ?c] =>
           let v := eval vm_compute in (Js.code c) in change (Js.code c) with v
       end;
       lia ]).
Qed.

Lemma natToString_digits (n : nat) :
  Js.natToString n <> ""
  /\ Val.allDigits (Js.natToString n) = true
  /\ decimal 0 (Js.natToString n) = Z.of_nat n.
Proof.
  unfold Js.natToString.
  pose proof (DecimalNat.Unsigned.of_to n) as Hn. unfold Nat.of_uint in Hn.
  destruct (string_of_uint_decimal (Nat.to_uint n) 0%nat) as [Ha Hd].
  rewrite Hn in Hd.
  destruct (Nat.to_uint n) as [| d | d | d | d | d | d | d | d | d | d];
    cbn [NilZero.string_of_uint];
    (split; [discriminate | split; [exact Ha | exact Hd]]).
Qed.

(** [parseInt] reads the decimal numeral of a natural number back. *)
Lemma parseInt_natToString (n : nat) :
  Js.parseInt (Js.natToString n) 10 = Some (Z.of_nat n).
Proof.
  destruct (natToString_digits n) as (Hne & Ha & Hd).
  rewrite (parseInt_decimal _ Hne Ha), Hd. reflexivity.
Qed.

Lemma natToString_inj (n m : nat) :
  Js.natToString n = Js.natToString m -> n = m.
Proof.
  intros H. apply Nat2Z.inj.
  rewrite <- (proj2 (proj2 (natToString_digits n))),
          <- (proj2 (proj2 (natToString_digits m))), H.
  reflexivity.
Qed.

Lemma natToString_lacks (c : ascii) (n : nat) :
  isDigit c = false -> lacks c (Js.natToString n) = true.
Proof.
  intros Hc. apply digits_lack; [exact Hc |].
  apply (proj1 (proj2 (natToString_digits n))).
Qed.

End NumeralFacts.

(** ** The beacon detector *)

Section BeaconFacts.
Context (rt : Runtime).

Lemma fold_left_snoc {A B : Type} (f : A -> B) (l : list A) :
  forall acc, fold_left (fun s x => s ++ [f x]) l acc = acc ++ map f l.
Proof.
  induction l as [| x l IH]; intros acc; simpl.
  - rewrite app_nil_r. reflexivity.
  - rewrite IH, <- app_assoc. reflexivity.
Qed.

Lemma pairs_In (key : string) (tss : list Value) (records : list ZeekRecord) :
  In (key, tss) (Beaconing.pairsOf rt records)
  <-> timestampsOf rt key records <> [] /\ tss = timestampsOf rt key records.
Proof.
  unfold Beaconing.pairsOf.
  change (Beaconing.pairStep rt)
    with (groupStep (Beaconing.usable rt) (Beaconing.keyOf rt)
            (fun (l : list Value) r => l ++ [Val.prop "ts" r]) []).
  rewrite group_In, fold_left_snoc. unfold timestampsOf, members. cbn [app].
  split; intros [Hne ->]; (split; [| reflexivity]); intros E; apply Hne.
  - destruct (filter _ records); [reflexivity | discriminate].
  - rewrite E. reflexivity.
Qed.

Lemma sortedTimes_length (tss : list Value) :
  List.length (Beaconing.sortedTimes rt tss) = List.length tss.
Proof. unfold Beaconing.sortedTimes. rewrite length_map. apply sort_length. Qed.

(** What holds of a group that gets through the loop body. *)
Lemma analyzeGroup_Some (records : list ZeekRecord) (minC maxJ : float)
    (key : string) (tss : list Value) (c : Beaconing.BeaconCandidate) :
  Beaconing.analyzeGroup rt records minC maxJ (key, tss) = Some c ->
  Beaconing.connectionCount c = List.length tss
  /\ PrimFloat.ltb (Js.ofNat (List.length tss)) minC = false
  /\ PrimFloat.eqb
       (Beaconing.meanOf (Beaconing.intervalsOf (Beaconing.sortedTimes rt tss))) 0 = false
  /\ PrimFloat.ltb maxJ
       (Beaconing.jitterOf (Beaconing.intervalsOf (Beaconing.sortedTimes rt tss))) = false.
Proof.
  unfold Beaconing.analyzeGroup. cbn [fst snd]. rewrite sortedTimes_length.
  destruct (PrimFloat.ltb (Js.ofNat (List.length tss)) minC) eqn:Hmin; [discriminate |].
  destruct (List.length (Beaconing.intervalsOf (Beaconing.sortedTimes rt tss)) =? 0)%nat;
    [discriminate |].
  destruct (PrimFloat.eqb
              (Beaconing.meanOf (Beaconing.intervalsOf (Beaconing.sortedTimes rt tss))) 0)
    eqn:Hmean; [discriminate |].
  fold (Beaconing.jitterOf (Beaconing.intervalsOf (Beaconing.sortedTimes rt tss))).
  destruct (PrimFloat.ltb maxJ
              (Beaconing.jitterOf (Beaconing.intervalsOf (Beaconing.sortedTimes rt tss))))
    eqn:Hjit; [discriminate |].
  destruct (fold_left Beaconing.bytesStep _ _) as [totalBytes byteCount].
  intros [= <-]. cbn [Beaconing.connectionCount]. auto.
Qed.

Lemma analyzeGroup_few (records : list ZeekRecord) (minC maxJ : float)
    (key : string) (tss : list Value) :
  PrimFloat.ltb (Js.ofNat (List.length tss)) minC = true ->
  Beaconing.analyzeGroup rt records minC maxJ (key, tss) = None.
Proof.
  intros H. unfold Beaconing.analyzeGroup. cbn [fst snd].
  rewrite sortedTimes_length, H. reflexivity.
Qed.

Lemma collect_In (records : list ZeekRecord) (minC maxJ : float)
    (pairs : list (string * list Value)) (c : Beaconing.BeaconCandidate) :
  In c (Beaconing.collect rt records minC maxJ pairs)
  <-> exists entry, In entry pairs
                    /\ Beaconing.analyzeGroup rt records minC maxJ entry = Some c.
Proof.
  induction pairs as [| e pairs IH]; simpl.
  - split; [intros [] | intros (? & [] & _)].
  - destruct (Beaconing.analyzeGroup rt records minC maxJ e) eqn:E; simpl.
    + rewrite IH. split.
      * intros [<- | (e' & He' & Ha)]; [exists e; auto | exists e'; auto].
      * intros (e' & [<- | He'] & Ha); [left; congruence | right; exists e'; auto].
    + rewrite IH. split.
      * intros (e' & He' & Ha). exists e'. auto.
      * intros (e' & [<- | He'] & Ha); [congruence | exists e'; auto].
Qed.

(** The candidates are what the loop body makes of the groups. *)
Lemma detectBeaconing_In (records : list ZeekRecord) (minC maxJ : float)
    (c : Beaconing.BeaconCandidate) :
  In c (Beaconing.detectBeaconing rt records minC maxJ)
  <-> exists key,
        timestampsOf rt key records <> []
        /\ Beaconing.analyzeGroup rt records minC maxJ (key, timestampsOf rt key records)
           = Some c.
Proof.
  unfold Beaconing.detectBeaconing. rewrite sort_In, collect_In. split.
  - intros ([key tss] & Hin & Ha). apply pairs_In in Hin. destruct Hin as [Hne ->].
    exists key. auto.
  - intros (key & Hne & Ha). exists (key, timestampsOf rt key records).
    split; [apply pairs_In; auto | exact Ha].
Qed.

(** The names that a candidate carries are the parts of its key. *)
Lemma analyzeGroup_names (records : list ZeekRecord) (minC maxJ : float)
    (key : string) (tss : list Value) (c : Beaconing.BeaconCandidate) :
  Beaconing.analyzeGroup rt records minC maxJ (key, tss) = Some c ->
  Beaconing.srcIp c = nth 0 (Js.split "|" key) ""
  /\ Beaconing.dstIp c = nth 1 (Js.split "|" key) ""
  /\ Beaconing.dstPort c = Js.ofInt (Js.parseInt (nth 2 (Js.split "|" key) "") 10).
Proof.
  unfold Beaconing.analyzeGroup. cbn [fst snd].
  destruct (PrimFloat.ltb _ minC); [discriminate |].
  destruct (List.length _ =? 0)%nat; [discriminate |].
  destruct (PrimFloat.eqb _ 0); [discriminate |].
  destruct (PrimFloat.ltb maxJ _); [discriminate |].
  destruct (fold_left Beaconing.bytesStep _ _) as [totalBytes byteCount].
  intros [= <-]. cbn [Beaconing.srcIp Beaconing.dstIp Beaconing.dstPort]. auto.
Qed.

(** The joined key of three texts without [|] splits into the three. *)
Lemma key_split (src dst port : string) :
  lacks "|"%char src = true -> lacks "|"%char dst = true ->
  lacks "|"%char port = true ->
  Js.split "|" (src ++ "|" ++ dst ++ "|" ++ port) = [src; dst; port].
Proof.
  intros Hs Hd Hp.
  change (Js.split "|" (src ++ "|" ++ dst ++ "|" ++ port))
    with (Js.split (Js.str1 "|"%char) (src ++ String "|"%char (dst ++ String "|"%char port))).
  rewrite (split_piece "|"%char src _ Hs), (split_piece "|"%char dst _ Hd),
    (split_piece_end "|"%char port Hp).
  reflexivity.
Qed.

(** The key of a record with a plain triple. *)
Lemma plainTriple_key (r : ZeekRecord) (n : nat) :
  Val.prop "id.resp_p" r = VNum (Js.ofNat n) ->
  numberToString rt (Js.ofNat n) = Js.natToString n ->
  Beaconing.keyOf rt r
  = (Beaconing.srcOf rt r ++ "|" ++ Beaconing.dstOf rt r ++ "|" ++ Js.natToString n)%string.
Proof.
  intros Hp Hn. unfold Beaconing.keyOf. rewrite Hp. cbn [Val.toString]. rewrite Hn.
  reflexivity.
Qed.

(** Among records with plain triples, the group of a key is the set of
    the records of one triple. *)
Lemma group_ofTriple (records : list ZeekRecord) (r0 : ZeekRecord) (n0 : nat) :
  (forall r, In r records -> Beaconing.usable rt r = true -> plainTriple rt r) ->
  lacks "|"%char (Beaconing.srcOf rt r0) = true ->
  lacks "|"%char (Beaconing.dstOf rt r0) = true ->
  Val.prop "id.resp_p" r0 = VNum (Js.ofNat n0) ->
  numberToString rt (Js.ofNat n0) = Js.natToString n0 ->
  timestampsOf rt (Beaconing.keyOf rt r0) records
  = tripleTimes rt (Beaconing.srcOf rt r0) (Beaconing.dstOf rt r0) (Js.ofNat n0) records.
Proof.
  intros Hplain Hs0 Hd0 Hp0 Hn0. unfold timestampsOf, tripleTimes. f_equal.
  apply filter_ext_in. intros r Hr. unfold ofTriple.
  destruct (Beaconing.usable rt r) eqn:Hu; [| reflexivity]. cbn [andb].
  destruct (Hplain r Hr Hu) as (Hs & Hd & n & _ & Hp & Hn).
  rewrite (plainTriple_key r n Hp Hn), (plainTriple_key r0 n0 Hp0 Hn0), Hp.
  cbn [Val.strictEq].
  assert (Hbar : isDigit "|"%char = false) by reflexivity.
  apply Bool.eq_true_iff_eq. rewrite !andb_true_iff, !String.eqb_eq. split.
  - intros Hkey. apply (f_equal (Js.split "|")) in Hkey.
    rewrite !key_split in Hkey by (assumption || apply natToString_lacks, Hbar).
    injection Hkey as -> -> Hnum. apply natToString_inj in Hnum. subst n.
    repeat split. apply ofNat_eqb_refl.
  - intros [[-> ->] Heq]. apply ofNat_eqb_eq in Heq.
    assert (Hnum : Js.natToString n = Js.natToString n0) by (rewrite <- Hn, <- Hn0, Heq; reflexivity).
    rewrite Hnum. reflexivity.
Qed.

(** A candidate made from records with plain triples names the triple
    of its group. *)
Lemma detectBeaconing_triple (records : list ZeekRecord) (minC maxJ : float)
    (c : Beaconing.BeaconCandidate) :
  (forall r, In r records -> Beaconing.usable rt r = true -> plainTriple rt r) ->
  In c (Beaconing.detectBeaconing rt records minC maxJ) ->
  exists key r0,
    In r0 records
    /\ ofTriple rt (Beaconing.srcIp c) (Beaconing.dstIp c) (Beaconing.dstPort c) r0 = true
    /\ Beaconing.analyzeGroup rt records minC maxJ
         (key, tripleTimes rt (Beaconing.srcIp c) (Beaconing.dstIp c) (Beaconing.dstPort c)
                 records) = Some c.
Proof.
  intros Hplain Hc. apply detectBeaconing_In in Hc. destruct Hc as (key & Hne & Ha).
  assert (Hr0 : exists r0, In r0 records /\ Beaconing.usable rt r0 = true
                           /\ Beaconing.keyOf rt r0 = key).
  { unfold timestampsOf in Hne.
    destruct (filter _ records) as [| r0 rest] eqn:E; [now destruct Hne |].
    assert (Hin : In r0 (filter (fun r => Beaconing.usable rt r
                                          && (Beaconing.keyOf rt r =? key)%string) records))
      by (rewrite E; left; reflexivity).
    apply filter_In in Hin. destruct Hin as [Hin Ht].
    apply andb_true_iff in Ht. destruct Ht as [Hu Hk]. apply String.eqb_eq in Hk.
    exists r0. auto. }
  destruct Hr0 as (r0 & Hin & Hu & <-).
  destruct (Hplain r0 Hin Hu) as (Hs & Hd & n & Hle & Hp & Hn).
  assert (Hbar : isDigit "|"%char = false) by reflexivity.
  destruct (analyzeGroup_names _ _ _ _ _ _ Ha) as (Hsrc & Hdst & Hport).
  rewrite (plainTriple_key r0 n Hp Hn),
    (key_split _ _ _ Hs Hd (natToString_lacks _ n Hbar)) in Hsrc, Hdst, Hport.
  cbn [nth] in Hsrc, Hdst, Hport.
  rewrite parseInt_natToString in Hport. cbn [Js.ofInt] in Hport.
  rewrite ofZ_ofNat in Hport by lia.
  rewrite (group_ofTriple records r0 n Hplain Hs Hd Hp Hn) in Ha.
  rewrite <- Hsrc, <- Hdst, <- Hport in Ha.
  exists (Beaconing.keyOf rt r0), r0. split; [exact Hin |]. split; [| exact Ha].
  unfold ofTriple. rewrite Hu, Hsrc, Hdst, Hport, Hp, !String.eqb_refl.
  cbn [andb Val.strictEq]. apply ofNat_eqb_refl.
Qed.

End BeaconFacts.

(** C6, as stated, fails in two ways.  Where the jitter is no number:
    two connections with infinite timestamps have the interval NaN, so a
    mean and a jitter of NaN, which pass both tests; the group is
    reported although its jitter is not at most 30.  And where two
    triples have the same joined key: the connections from [a|b] to [c]
    and those from [a] to [b|c], six of each, are counted together, and
    so are the connections to the port 443 and those to the port ["443"];
    with [minConnections] 10 a candidate of 12 connections is reported in
    both cases, although each triple has 6; in the first case it names
    the source [a] and the destination [b], a pair that no record has. *)
Lemma detectBeaconing_counterexample :
  map (fun c => (Beaconing.srcIp c, Beaconing.dstIp c, Beaconing.connectionCount c))
      (Beaconing.detectBeaconing Host.runtime infiniteTimes 2 30)
  = [("10.0.0.5", "10.0.0.9", 2)]
  /\ PrimFloat.is_nan (Beaconing.jitterOf (intervalsFor Host.runtime "10.0.0.5|10.0.0.9|443" infiniteTimes))
     = true
  /\ PrimFloat.leb (Beaconing.jitterOf (intervalsFor Host.runtime "10.0.0.5|10.0.0.9|443" infiniteTimes)) 30
     = false
  /\ map (fun c => (Beaconing.srcIp c, Beaconing.dstIp c, Beaconing.connectionCount c))
         (Beaconing.detectBeaconing Host.runtime sharedKey 10 30)
     = [("a", "b", 12)]
  /\ List.length (tripleTimes Host.runtime "a|b" "c" 443 sharedKey) = 6
  /\ List.length (tripleTimes Host.runtime "a" "b|c" 443 sharedKey) = 6
  /\ filter (fun r => (Beaconing.srcOf Host.runtime r =? "a")%string
                      && (Beaconing.dstOf Host.runtime r =? "b")%string) sharedKey
     = []
  /\ map (fun c => (Beaconing.srcIp c, Beaconing.dstIp c, Beaconing.dstPort c,
                    Beaconing.connectionCount c))
         (Beaconing.detectBeaconing Host.runtime mixedPorts 10 30)
     = [("10.0.0.5", "10.0.0.9", 443%float, 12)]
  /\ List.length (tripleTimes Host.runtime "10.0.0.5" "10.0.0.9" 443 mixedPorts) = 6.
Proof.
  repeat split; vm_compute; reflexivity.
Qed.

Section BeaconTheorem.
Context (rt : Runtime).

(** C6, amended: among records with plain triples (no address holds the
    character [|], and the port is a whole number from 0 to 65535), every
    candidate that [detectBeaconing] returns names a (source, destination,
    destination port) triple that occurs in the records; its connection
    count is the number of timestamped records of the triple, which is
    not below [minConnections]; the mean interval of the triple is not
    zero; and its jitter, the population standard deviation of the
    consecutive intervals over their mean times 100, is not above
    [maxJitterPercent]: it is at most [maxJitterPercent] whenever both
    are numbers.  A triple with fewer than [minConnections] timestamped
    records yields no candidate, whatever its intervals. *)
Theorem detectBeaconing_candidates
    (records : list ZeekRecord) (minConnections maxJitterPercent : float) :
  (forall r, In r records -> Beaconing.usable rt r = true -> plainTriple rt r) ->
  (forall c, In c (Beaconing.detectBeaconing rt records minConnections maxJitterPercent) ->
     (exists r, In r records
                /\ ofTriple rt (Beaconing.srcIp c) (Beaconing.dstIp c) (Beaconing.dstPort c) r
                   = true)
     /\ Beaconing.connectionCount c
        = List.length (tripleTimes rt (Beaconing.srcIp c) (Beaconing.dstIp c)
                         (Beaconing.dstPort c) records)
     /\ PrimFloat.ltb
          (Js.ofNat (List.length (tripleTimes rt (Beaconing.srcIp c) (Beaconing.dstIp c)
                                    (Beaconing.dstPort c) records)))
          minConnections = false
     /\ (PrimFloat.is_nan minConnections = false ->
         PrimFloat.leb minConnections
           (Js.ofNat (List.length (tripleTimes rt (Beaconing.srcIp c) (Beaconing.dstIp c)
                                     (Beaconing.dstPort c) records))) = true)
     /\ PrimFloat.eqb
          (Beaconing.meanOf (tripleIntervals rt (Beaconing.srcIp c) (Beaconing.dstIp c)
                               (Beaconing.dstPort c) records)) 0 = false
     /\ PrimFloat.ltb maxJitterPercent
          (Beaconing.jitterOf (tripleIntervals rt (Beaconing.srcIp c) (Beaconing.dstIp c)
                                 (Beaconing.dstPort c) records)) = false
     /\ (PrimFloat.is_nan
           (Beaconing.jitterOf (tripleIntervals rt (Beaconing.srcIp c) (Beaconing.dstIp c)
                                  (Beaconing.dstPort c) records)) = false ->
         PrimFloat.is_nan maxJitterPercent = false ->
         PrimFloat.leb
           (Beaconing.jitterOf (tripleIntervals rt (Beaconing.srcIp c) (Beaconing.dstIp c)
                                  (Beaconing.dstPort c) records))
           maxJitterPercent = true))
  /\ (forall (src dst : string) (port : float),
        PrimFloat.ltb (Js.ofNat (List.length (tripleTimes rt src dst port records)))
          minConnections = true ->
        forall c, In c (Beaconing.detectBeaconing rt records minConnections maxJitterPercent) ->
          ~ (Beaconing.srcIp c = src /\ Beaconing.dstIp c = dst
             /\ Beaconing.dstPort c = port)).
Proof.
  intros Hplain.
  assert (Hcand : forall c,
            In c (Beaconing.detectBeaconing rt records minConnections maxJitterPercent) ->
            (exists r, In r records
                       /\ ofTriple rt (Beaconing.srcIp c) (Beaconing.dstIp c)
                            (Beaconing.dstPort c) r = true)
            /\ Beaconing.connectionCount c
               = List.length (tripleTimes rt (Beaconing.srcIp c) (Beaconing.dstIp c)
                                (Beaconing.dstPort c) records)
            /\ PrimFloat.ltb
                 (Js.ofNat (List.length (tripleTimes rt (Beaconing.srcIp c)
                                           (Beaconing.dstIp c) (Beaconing.dstPort c) records)))
                 minConnections = false
            /\ PrimFloat.eqb
                 (Beaconing.meanOf (tripleIntervals rt (Beaconing.srcIp c) (Beaconing.dstIp c)
                                      (Beaconing.dstPort c) records)) 0 = false
            /\ PrimFloat.ltb maxJitterPercent
                 (Beaconing.jitterOf (tripleIntervals rt (Beaconing.srcIp c)
                                        (Beaconing.dstIp c) (Beaconing.dstPort c) records))
               = false).
  { intros c Hc.
    destruct (detectBeaconing_triple rt records _ _ c Hplain Hc) as (key & r0 & Hin & Ht & Ha).
    destruct (analyzeGroup_Some rt _ _ _ _ _ _ Ha) as (Hn & Hmin & Hmean & Hjit).
    split; [exists r0; auto |]. unfold tripleIntervals. auto. }
  split.
  - intros c Hc. destruct (Hcand c Hc) as (Hex & Hn & Hmin & Hmean & Hjit).
    split; [exact Hex |]. split; [exact Hn |]. split; [exact Hmin |].
    split; [| split; [exact Hmean | split; [exact Hjit |]]].
    + intros Hnan. apply not_ltb_leb; [apply ofNat_not_nan | exact Hnan | exact Hmin].
    + intros Hj Hm. apply not_ltb_leb; assumption.
  - intros src dst port Hfew c Hc (<- & <- & <-).
    destruct (Hcand c Hc) as (_ & _ & Hmin & _). congruence.
Qed.

End BeaconTheorem.

Lemma detectBeaconing_candidates_witness :
  Beaconing.connectionCount
    {| Beaconing.srcIp := "192.168.1.100"; Beaconing.dstIp := "45.33.32.156";
       Beaconing.dstPort := 443; Beaconing.connectionCount := 20;
       Beaconing.avgInterval := 60; Beaconing.stdDevInterval := 0;
       Beaconing.jitter := 0; Beaconing.avgBytes := 300; Beaconing.score := 73 |}
  = List.length (tripleTimes Host.runtime "192.168.1.100" "45.33.32.156" 443 (beacons 20))
  /\ PrimFloat.leb 10
       (Js.ofNat (List.length
                    (tripleTimes Host.runtime "192.168.1.100" "45.33.32.156" 443 (beacons 20))))
     = true
  /\ PrimFloat.ltb 30
       (Beaconing.jitterOf
          (tripleIntervals Host.runtime "192.168.1.100" "45.33.32.156" 443 (beacons 20)))
     = false.
Proof.
  assert (Hplain : forall r, In r (beacons 20) -> Beaconing.usable Host.runtime r = true ->
                             plainTriple Host.runtime r).
  { intros r Hr _. apply in_map_iff in Hr. destruct Hr as (i & <- & _).
    split; [reflexivity |]. split; [reflexivity |].
    exists 443%nat. split; [vm_compute; discriminate |].
    split; vm_compute; reflexivity. }
  destruct (proj1 (detectBeaconing_candidates Host.runtime (beacons 20) 10 30 Hplain)
              {| Beaconing.srcIp := "192.168.1.100"; Beaconing.dstIp := "45.33.32.156";
                 Beaconing.dstPort := 443; Beaconing.connectionCount := 20;
                 Beaconing.avgInterval := 60; Beaconing.stdDevInterval := 0;
                 Beaconing.jitter := 0; Beaconing.avgBytes := 300; Beaconing.score := 73 |})
    as (_ & Hn & _ & Hmin & _ & Hjit & _).
  - vm_compute. left. reflexivity.
  - split; [exact Hn | split; [apply Hmin; reflexivity | exact Hjit]].
Defined.

Lemma detectPortScans_threshold_witness :
  (50 < List.length (distinctPorts Host.runtime "192.168.1.50" hundredPorts))%nat.
Proof.
  apply (proj1 (detectPortScans_threshold Host.runtime hundredPorts)).
  vm_compute. eexists. split; [left; reflexivity | split; reflexivity].
Defined.

(** * Further properties of the code *)

(** ** What a query returns *)

Section QueryFacts.
Context (rt : Runtime).

Lemma filter_all {A : Type} (l : list A) : filter (fun _ => true) l = l.
Proof. induction l as [|x l IH]; simpl; [reflexivity | now rewrite IH]. Qed.

(** The records that the executor sorts are the records that pass every
    filter of the query. *)
Lemma sortedMatches_perm (options : Engine.QueryOptions) (records : list ZeekRecord) :
  Permutation
    (filter (fun r => forallb (Engine.applyFilter rt r) (filtersOf options)) records)
    (Engine.sortedMatches rt options records).
Proof.
  unfold Engine.sortedMatches, filtersOf.
  destruct (Engine.filters options) as [[|f fs]|].
  - simpl. rewrite filter_all. apply sort_perm.
  - apply sort_perm.
  - simpl. rewrite filter_all. apply sort_perm.
Qed.

Lemma executeQuery_In (config : Engine.ZeekConfig) (options : Engine.QueryOptions)
    (records : list ZeekRecord) (r : ZeekRecord) :
  In r (Engine.executeQuery rt config options records) ->
  In r records /\ forallb (Engine.applyFilter rt r) (filtersOf options) = true.
Proof.
  unfold Engine.executeQuery. intros H. apply In_slice0 in H.
  apply (Permutation_in _ (Permutation_sym (sortedMatches_perm options records))) in H.
  apply filter_In in H. exact H.
Qed.

(** X15 (executeQuery): every record that a query returns is one of the
    records read and passes every filter of the query: the filters are
    combined by AND, and the executor invents no record. *)
Theorem executeQuery_returns_matches
    (config : Engine.ZeekConfig) (options : Engine.QueryOptions)
    (records : list ZeekRecord) (r : ZeekRecord) :
  In r (Engine.executeQuery rt config options records) ->
  In r records
  /\ (forall f, In f (filtersOf options) -> Engine.applyFilter rt r f = true).
Proof.
  intros H. apply executeQuery_In in H. destruct H as [Hin Hall].
  split; [exact Hin|].
  intros f Hf. rewrite forallb_forall in Hall. now apply Hall.
Qed.

(** X16 (executeQuery): when the records that pass the filters are no more
    than the limit in force, the query returns all of them, each as often
    as it was read, in sorted order: nothing is lost below the limit. *)
Theorem executeQuery_returns_all_below_limit
    (config : Engine.ZeekConfig) (options : Engine.QueryOptions)
    (records : list ZeekRecord) :
  (Z.of_nat (List.length
     (filter (fun r => forallb (Engine.applyFilter rt r) (filtersOf options)) records))
   <= Z.min (requestedLimit options) (Engine.maxResults config))%Z ->
  Permutation
    (filter (fun r => forallb (Engine.applyFilter rt r) (filtersOf options)) records)
    (Engine.executeQuery rt config options records)
  /\ Engine.executeQuery rt config options records = Engine.sortedMatches rt options records.
Proof.
  intros Hle.
  assert (Hlen : List.length (Engine.sortedMatches rt options records)
                 = List.length (filter (fun r => forallb (Engine.applyFilter rt r)
                                                   (filtersOf options)) records)).
  { symmetry. apply Permutation_length, sortedMatches_perm. }
  assert (Heq : Engine.executeQuery rt config options records
                = Engine.sortedMatches rt options records).
  { unfold Engine.executeQuery.
    fold (requestedLimit options).
    rewrite slice0_nonneg by lia.
    apply firstn_all2. lia. }
  split; [|exact Heq].
  rewrite Heq. apply sortedMatches_perm.
Qed.

End QueryFacts.

Lemma executeQuery_returns_matches_witness :
  In [("uid", VStr "a"); ("duration", VNum 5)] durations
  /\ (forall f, In f (filtersOf (ConnectionTools.longConnectionsQuery 2 None None 100)) ->
        Engine.applyFilter Host.runtime [("uid", VStr "a"); ("duration", VNum 5)] f = true).
Proof.
  apply (executeQuery_returns_matches Host.runtime ceilingThousand
           (ConnectionTools.longConnectionsQuery 2 None None 100) durations).
  vm_compute. tauto.
Defined.

Lemma executeQuery_returns_all_below_limit_witness :
  Engine.executeQuery Host.runtime ceilingThousand (byDuration Engine.Asc) durations
  = Engine.sortedMatches Host.runtime (byDuration Engine.Asc) durations.
Proof.
  refine (proj2 (executeQuery_returns_all_below_limit Host.runtime ceilingThousand
                   (byDuration Engine.Asc) durations _)).
  vm_compute. discriminate.
Defined.

(** ** The queries of the connection tools *)

Section ToolFacts.
Context (rt : Runtime).



Lemma applyFilter_gte (r : ZeekRecord) (field : string) (m : float) :
  Engine.applyFilter rt r
    {| Engine.field := field; Engine.op := Engine.OpGte; Engine.value := VNum m |} = true ->
  exists d, Aggregation.getNestedValue r field = VNum d /\ PrimFloat.leb m d = true.
Proof.
  unfold Engine.applyFilter. simpl.
  destruct (Aggregation.getNestedValue r field); try discriminate.
  intros H. eexists. split; [reflexivity | exact H].
Qed.



(** X20 (zeek_long_connections): every connection that the long-connections
    tool lists carries a numeric duration that is at least the minimum
    asked for; a record without a duration, or with one that is not a
    number, is never listed. *)
Theorem long_connections_duration
    (config : Engine.ZeekConfig) (minDuration : float) (timeFrom timeTo : option string)
    (limit : Z) (records : list ZeekRecord) (r : ZeekRecord) :
  In r (Engine.executeQuery rt config
          (ConnectionTools.longConnectionsQuery minDuration timeFrom timeTo limit) records) ->
  exists d, Aggregation.getNestedValue r "duration" = VNum d
            /\ PrimFloat.leb minDuration d = true.
Proof.
  intros H. apply executeQuery_In in H. destruct H as [_ H].
  simpl in H. rewrite andb_true_r in H.
  now apply applyFilter_gte.
Qed.


End ToolFacts.

Lemma long_connections_duration_witness :
  exists d, Aggregation.getNestedValue [("uid", VStr "d"); ("duration", VNum 3)] "duration"
            = VNum d
            /\ PrimFloat.leb 2 d = true.
Proof.
  apply (long_connections_duration Host.runtime ceilingThousand 2 None None 100 durations).
  vm_compute. tauto.
Defined.


(** ** CIDR blocks of IPv4 addresses *)

Section Ipv4BlockFacts.

(** Masking with [-2^s] clears the [s] low bits. *)
Lemma land_high_mask (x s : Z) :
  (0 <= s)%Z -> Z.land x (- 2 ^ s) = (x / 2 ^ s * 2 ^ s)%Z.
Proof.
  intros Hs.
  replace (- 2 ^ s)%Z with (Z.lnot (Z.ones s)).
  - rewrite <- Z.ldiff_land, Z.ldiff_ones_r by exact Hs.
    rewrite Z.shiftl_mul_pow2, Z.shiftr_div_pow2 by exact Hs. reflexivity.
  - rewrite Z.ones_equiv. unfold Z.lnot. lia.
Qed.

(** The signed reading of a 32-bit number has the same high bits. *)
Lemma toInt32_div (n m s : Z) :
  (0 <= n < 2 ^ 32)%Z -> (0 <= m < 2 ^ 32)%Z -> (0 <= s <= 31)%Z ->
  (Js.toInt32 n / 2 ^ s = Js.toInt32 m / 2 ^ s <-> n / 2 ^ s = m / 2 ^ s)%Z.
Proof.
  intros Hn Hm Hs.
  assert (Hp : (0 < 2 ^ s)%Z) by (apply Z.pow_pos_nonneg; lia).
  assert (H32 : (2 ^ 32 = 2 ^ (32 - s) * 2 ^ s)%Z).
  { rewrite <- Z.pow_add_r by lia. f_equal. lia. }
  assert (H31 : (2 ^ 31 = 2 ^ s * 2 ^ (31 - s))%Z).
  { rewrite <- Z.pow_add_r by lia. f_equal. lia. }
  assert (Hq : (2 ^ (32 - s) = 2 * 2 ^ (31 - s))%Z).
  { replace (32 - s)%Z with (Z.succ (31 - s)) by lia. rewrite Z.pow_succ_r by lia. reflexivity. }
  assert (Hhigh : forall k, (2 ^ 31 <= k < 2 ^ 32)%Z ->
            (Js.toInt32 k / 2 ^ s = k / 2 ^ s - 2 ^ (32 - s)
             /\ 2 ^ (31 - s) <= k / 2 ^ s < 2 ^ (32 - s))%Z).
  { intros k Hk. rewrite toInt32_high by exact Hk. split.
    - replace (k - 2 ^ 32)%Z with (k + (- 2 ^ (32 - s)) * 2 ^ s)%Z by lia.
      rewrite Z.div_add by lia. lia.
    - split.
      + apply Z.div_le_lower_bound; lia.
      + apply Z.div_lt_upper_bound; lia. }
  assert (Hlow : forall k, (0 <= k < 2 ^ 31)%Z ->
            (Js.toInt32 k / 2 ^ s = k / 2 ^ s /\ 0 <= k / 2 ^ s < 2 ^ (31 - s))%Z).
  { intros k Hk. rewrite toInt32_small by lia. split; [reflexivity|]. split.
    - apply Z.div_pos; lia.
    - apply Z.div_lt_upper_bound; lia. }
  destruct (Z_lt_dec n (2 ^ 31)) as [Ln | Gn], (Z_lt_dec m (2 ^ 31)) as [Lm | Gm].
  - destruct (Hlow n) as [-> _]; [lia|]. destruct (Hlow m) as [-> _]; [lia|]. tauto.
  - destruct (Hlow n) as [-> Rn]; [lia|]. destruct (Hhigh m) as [-> Rm]; [lia|]. lia.
  - destruct (Hhigh n) as [-> Rn]; [lia|]. destruct (Hlow m) as [-> Rm]; [lia|]. lia.
  - destruct (Hhigh n) as [-> _]; [lia|]. destruct (Hhigh m) as [-> _]; [lia|]. lia.
Qed.

(** The mask of a prefix length other than 0: [~0 << (32 - p)], the shift
    count read modulo 32. *)
Lemma mask32_shift (p : Z) :
  p <> 0%Z -> Filters.mask32 (Some p) = (- 2 ^ ((32 - p) mod 32))%Z.
Proof.
  intros Hp.
  assert (Hs : (0 <= (32 - p) mod 32 < 32)%Z) by (apply Z.mod_pos_bound; lia).
  assert (Hpow : (0 < 2 ^ ((32 - p) mod 32) <= 2 ^ 31)%Z).
  { split; [apply Z.pow_pos_nonneg; lia | apply Z.pow_le_mono_r; lia]. }
  transitivity (Js.shl (-1) (32 - p)).
  - destruct p; [contradiction | reflexivity | reflexivity].
  - unfold Js.shl. change (Js.toInt32 (-1)) with (-1)%Z.
    rewrite toInt32_small by lia. lia.
Qed.

(** Two 32-bit numbers agree under the mask that clears [s] bits exactly
    when they agree above those bits. *)
Lemma band_mask_eqb (n m s : Z) :
  (0 <= n < 2 ^ 32)%Z -> (0 <= m < 2 ^ 32)%Z -> (0 <= s <= 31)%Z ->
  (Js.band n (- 2 ^ s) =? Js.band m (- 2 ^ s))%Z = true
  <-> (n / 2 ^ s = m / 2 ^ s)%Z.
Proof.
  intros Hn Hm Hs.
  assert (Hp : (0 < 2 ^ s)%Z) by (apply Z.pow_pos_nonneg; lia).
  assert (Hpow : (2 ^ s <= 2 ^ 31)%Z) by (apply Z.pow_le_mono_r; lia).
  unfold Js.band. rewrite (toInt32_small (- 2 ^ s)) by lia.
  rewrite !land_high_mask by lia. rewrite Z.eqb_eq.
  rewrite <- (toInt32_div n m s) by assumption.
  split; [intros H; nia | intros ->; reflexivity].
Qed.

Lemma includes_slash (net ps : string) :
  Js.includes (net ++ "/" ++ ps) "/" = true.
Proof.
  change "/" with (Js.str1 "/"%char) at 2. rewrite includes_char.
  change (net ++ "/" ++ ps)%string with (net ++ String "/"%char ps)%string.
  rewrite lacks_append. cbn [lacks]. rewrite Ascii.eqb_refl.
  rewrite andb_false_r. reflexivity.
Qed.

Lemma split_slash (net ps : string) :
  lacks "/"%char net = true -> lacks "/"%char ps = true ->
  Js.split "/" (net ++ "/" ++ ps) = [net; ps].
Proof.
  intros Hnet Hps.
  change "/" with (Js.str1 "/"%char) at 1.
  change (net ++ "/" ++ ps)%string with (net ++ String "/"%char ps)%string.
  rewrite split_piece by exact Hnet. rewrite split_piece_end by exact Hps. reflexivity.
Qed.

Lemma dotted_lacks (c : ascii) (a b c' d : string) :
  isDigit c = false -> c <> "."%char ->
  isOctet a = true -> isOctet b = true -> isOctet c' = true -> isOctet d = true ->
  lacks c (dotted a b c' d) = true.
Proof. apply quad_lacks. Qed.

Lemma addressNumber_range (a b c d : string) :
  isOctet a = true -> isOctet b = true -> isOctet c = true -> isOctet d = true ->
  (0 <= addressNumber a b c d < 2 ^ 32)%Z.
Proof.
  intros Ha Hb Hc Hd. unfold addressNumber.
  destruct (octet_parse a Ha) as [_ Ra], (octet_parse b Hb) as [_ Rb],
    (octet_parse c Hc) as [_ Rc], (octet_parse d Hd) as [_ Rd].
  lia.
Qed.

(** What both matchers compute on two dotted quads and a prefix string. *)
Lemma matchCidr_dotted (a1 b1 c1 d1 a2 b2 c2 d2 ps : string) :
  isOctet a1 = true -> isOctet b1 = true -> isOctet c1 = true -> isOctet d1 = true ->
  isOctet a2 = true -> isOctet b2 = true -> isOctet c2 = true -> isOctet d2 = true ->
  lacks "/"%char ps = true ->
  Engine.matchCidr (dotted a1 b1 c1 d1) (dotted a2 b2 c2 d2 ++ "/" ++ ps)
  = (Js.band (addressNumber a1 b1 c1 d1) (Filters.mask32 (Js.parseInt ps 10))
     =? Js.band (addressNumber a2 b2 c2 d2) (Filters.mask32 (Js.parseInt ps 10)))%Z
  /\ Filters.matchCidr (dotted a1 b1 c1 d1) (dotted a2 b2 c2 d2 ++ "/" ++ ps)
     = Engine.matchCidr (dotted a1 b1 c1 d1) (dotted a2 b2 c2 d2 ++ "/" ++ ps).
Proof.
  intros Ha1 Hb1 Hc1 Hd1 Ha2 Hb2 Hc2 Hd2 Hps.
  assert (Hslash : lacks "/"%char (dotted a2 b2 c2 d2) = true)
    by (apply dotted_lacks; try assumption; [reflexivity | discriminate]).
  split.
  - unfold Engine.matchCidr.
    rewrite includes_slash, split_slash by assumption.
    cbn [negb nth]. rewrite !engine_ipv4ToNum. unfold dotted.
    rewrite !ipv4ToNum_packed by assumption. reflexivity.
  - apply filters_matchCidr_ipv4.
    + change ":" with (Js.str1 ":"%char). rewrite includes_char.
      rewrite dotted_lacks; try assumption; [reflexivity | reflexivity | discriminate].
    + rewrite split_slash by assumption. cbn [nth].
      change ":" with (Js.str1 ":"%char). rewrite includes_char.
      rewrite dotted_lacks; try assumption; [reflexivity | reflexivity | discriminate].
Qed.

Lemma numeral_parse (ps : string) :
  isNumeral ps = true ->
  Js.parseInt ps 10 = Some (decimal 0 ps)
  /\ (0 <= decimal 0 ps)%Z
  /\ lacks "/"%char ps = true.
Proof.
  unfold isNumeral. rewrite andb_true_iff, negb_true_iff. intros [Hne Hd].
  apply String.eqb_neq in Hne. repeat split.
  - now apply parseInt_decimal.
  - apply decimal_nonneg; [exact Hd | lia].
  - apply digits_lack; [reflexivity | exact Hd].
Qed.

(** X1 (matchCidr, IPv4): for two dotted quads and a prefix length from 1
    to 32, [matchCidr] answers true exactly when the two addresses agree
    on their first [p] bits, that is, when their 32-bit numbers have the
    same quotient by [2^(32-p)].  The engine's private [matchCidr] gives
    the same answer as the one of [filters.ts]. *)
Theorem matchCidr_ipv4_block (a1 b1 c1 d1 a2 b2 c2 d2 ps : string) :
  isOctet a1 = true -> isOctet b1 = true -> isOctet c1 = true -> isOctet d1 = true ->
  isOctet a2 = true -> isOctet b2 = true -> isOctet c2 = true -> isOctet d2 = true ->
  isNumeral ps = true ->
  (1 <= decimal 0 ps <= 32)%Z ->
  (Filters.matchCidr (dotted a1 b1 c1 d1) (dotted a2 b2 c2 d2 ++ "/" ++ ps) = true
   <-> (addressNumber a1 b1 c1 d1 / 2 ^ (32 - decimal 0 ps)
        = addressNumber a2 b2 c2 d2 / 2 ^ (32 - decimal 0 ps))%Z)
  /\ Engine.matchCidr (dotted a1 b1 c1 d1) (dotted a2 b2 c2 d2 ++ "/" ++ ps)
     = Filters.matchCidr (dotted a1 b1 c1 d1) (dotted a2 b2 c2 d2 ++ "/" ++ ps).
Proof.
  intros Ha1 Hb1 Hc1 Hd1 Ha2 Hb2 Hc2 Hd2 Hps Hp.
  destruct (numeral_parse ps Hps) as (Hparse & _ & Hslash).
  destruct (matchCidr_dotted a1 b1 c1 d1 a2 b2 c2 d2 ps) as [He Hf]; try assumption.
  split; [|now rewrite Hf].
  rewrite Hf, He, Hparse, mask32_shift by lia.
  assert (Hs : ((32 - decimal 0 ps) mod 32 = 32 - decimal 0 ps)%Z).
  { destruct (Z.eq_dec (decimal 0 ps) 32) as [-> | Hne]; [reflexivity|].
    apply Z.mod_small. lia. }
  destruct (Z.eq_dec (decimal 0 ps) 32) as [E32 | Hne].
  - rewrite E32. change ((32 - 32) mod 32)%Z with 0%Z. change (32 - 32)%Z with 0%Z.
    apply band_mask_eqb; try lia; now apply addressNumber_range.
  - rewrite Z.mod_small by lia.
    apply band_mask_eqb; try lia; now apply addressNumber_range.
Qed.

(** X2 (matchCidr, IPv4): the prefix length is not validated.  A length
    above 32 (and below [2^53], so that the number holds it exactly) is
    read modulo 32 by the shift (so [/40] compares 8 bits and [/64] all
    32), and a length that is not a number, the empty one included,
    compares all 32 bits: the block is the single address. *)
Theorem matchCidr_ipv4_prefix_not_validated (a1 b1 c1 d1 a2 b2 c2 d2 ps : string) :
  isOctet a1 = true -> isOctet b1 = true -> isOctet c1 = true -> isOctet d1 = true ->
  isOctet a2 = true -> isOctet b2 = true -> isOctet c2 = true -> isOctet d2 = true ->
  lacks "/"%char ps = true ->
  (isNumeral ps = true -> (32 < decimal 0 ps < 2 ^ 53)%Z ->
   (Filters.matchCidr (dotted a1 b1 c1 d1) (dotted a2 b2 c2 d2 ++ "/" ++ ps) = true
    <-> (addressNumber a1 b1 c1 d1 / 2 ^ ((32 - decimal 0 ps) mod 32)
         = addressNumber a2 b2 c2 d2 / 2 ^ ((32 - decimal 0 ps) mod 32))%Z))
  /\ (Js.parseInt ps 10 = None ->
      (Filters.matchCidr (dotted a1 b1 c1 d1) (dotted a2 b2 c2 d2 ++ "/" ++ ps) = true
       <-> addressNumber a1 b1 c1 d1 = addressNumber a2 b2 c2 d2)).
Proof.
  intros Ha1 Hb1 Hc1 Hd1 Ha2 Hb2 Hc2 Hd2 Hslash.
  destruct (matchCidr_dotted a1 b1 c1 d1 a2 b2 c2 d2 ps) as [He Hf]; try assumption.
  pose proof (addressNumber_range a1 b1 c1 d1 Ha1 Hb1 Hc1 Hd1) as R1.
  pose proof (addressNumber_range a2 b2 c2 d2 Ha2 Hb2 Hc2 Hd2) as R2.
  split.
  - intros Hps Hp. destruct (numeral_parse ps Hps) as (Hparse & _ & _).
    rewrite Hf, He, Hparse, mask32_shift by lia.
    assert (Hs : (0 <= (32 - decimal 0 ps) mod 32 < 32)%Z) by (apply Z.mod_pos_bound; lia).
    apply band_mask_eqb; try assumption; lia.
  - intros Hnan. rewrite Hf, He, Hnan.
    change (Filters.mask32 None) with (- 2 ^ 0)%Z.
    rewrite band_mask_eqb by (try assumption; lia).
    change (2 ^ 0)%Z with 1%Z. rewrite !Z.div_1_r. tauto.
Qed.

End Ipv4BlockFacts.

Lemma matchCidr_ipv4_block_witness :
  Filters.matchCidr (dotted "192" "168" "1" "100") (dotted "192" "168" "1" "0" ++ "/" ++ "24")
  = true
  <-> (addressNumber "192" "168" "1" "100" / 2 ^ (32 - decimal 0 "24")
       = addressNumber "192" "168" "1" "0" / 2 ^ (32 - decimal 0 "24"))%Z.
Proof.
  refine (proj1 (matchCidr_ipv4_block "192" "168" "1" "100" "192" "168" "1" "0" "24"
                   _ _ _ _ _ _ _ _ _ _)); try reflexivity.
  vm_compute. split; discriminate.
Defined.

Lemma matchCidr_ipv4_prefix_not_validated_witness :
  (Filters.matchCidr (dotted "10" "200" "3" "4") (dotted "10" "0" "0" "0" ++ "/" ++ "40") = true
   <-> (addressNumber "10" "200" "3" "4" / 2 ^ ((32 - decimal 0 "40") mod 32)
        = addressNumber "10" "0" "0" "0" / 2 ^ ((32 - decimal 0 "40") mod 32))%Z)
  /\ (Filters.matchCidr (dotted "10" "0" "0" "1") (dotted "10" "0" "0" "0" ++ "/" ++ "x") = true
      <-> addressNumber "10" "0" "0" "1" = addressNumber "10" "0" "0" "0").
Proof.
  split.
  - refine (proj1 (matchCidr_ipv4_prefix_not_validated
                     "10" "200" "3" "4" "10" "0" "0" "0" "40" _ _ _ _ _ _ _ _ _) _ _);
      try reflexivity.
    split; reflexivity.
  - refine (proj2 (matchCidr_ipv4_prefix_not_validated
                     "10" "0" "0" "1" "10" "0" "0" "0" "x" _ _ _ _ _ _ _ _ _) _);
      reflexivity.
Defined.

(** ** CIDR blocks of IPv6 addresses *)

Section Ipv6BlockFacts.

Lemma band_255 (x : Z) : Js.band x 255 = (Js.toInt32 x mod 256)%Z.
Proof.
  unfold Js.band. change (Js.toInt32 255) with (Z.ones 8).
  rewrite Z.land_ones by lia. reflexivity.
Qed.

Lemma band_255_byte (x : Z) : isByte (Js.band x 255).
Proof.
  rewrite band_255. unfold isByte.
  pose proof (Z.mod_pos_bound (Js.toInt32 x) 256). lia.
Qed.

Lemma groupBytes_bytes (groups : list string) :
  forall bytes, Filters.groupBytes groups = Some bytes ->
    List.length bytes = 2 * List.length groups /\ Forall isByte bytes.
Proof.
  induction groups as [|g gs IH]; intros bytes H; simpl in H.
  - injection H as <-. split; [reflexivity | constructor].
  - destruct (Js.parseInt g 16) as [val|]; [|discriminate].
    destruct (Filters.groupBytes gs) as [bs|]; [|discriminate].
    injection H as <-. destruct (IH bs eq_refl) as [Hl Hb].
    split; [simpl; lia|].
    constructor; [apply band_255_byte|]. constructor; [apply band_255_byte | exact Hb].
Qed.

Lemma ipv6ToBytes_bytes (ip : string) (bytes : list Z) :
  Filters.ipv6ToBytes ip = Some bytes ->
  List.length bytes = 16 /\ Forall isByte bytes.
Proof.
  unfold Filters.ipv6ToBytes.
  destruct (Filters.expandIpv6 ip) as [expanded|]; [|discriminate].
  destruct (expanded =? "")%string; [discriminate|].
  destruct (List.length (Js.split ":" expanded) =? 8)%nat eqn:Hlen; [|discriminate].
  cbn [negb]. intros H. apply groupBytes_bytes in H.
  apply Nat.eqb_eq in Hlen. rewrite Hlen in H. exact H.
Qed.

(** X3 (ipv6ToBytes): an address that [ipv6ToBytes] accepts becomes
    exactly 16 bytes, each between 0 and 255, whatever the text was. *)
Theorem ipv6ToBytes_sixteen_bytes (ip : string) (bytes : list Z) :
  Filters.ipv6ToBytes ip = Some bytes ->
  List.length bytes = 16 /\ Forall isByte bytes.
Proof. apply ipv6ToBytes_bytes. Qed.

Lemma bytesNumber_range (bytes : list Z) :
  Forall isByte bytes ->
  (0 <= bytesNumber bytes < 256 ^ Z.of_nat (List.length bytes))%Z.
Proof.
  induction 1 as [|b rest Hb _ IH]; [simpl; lia|].
  cbn [bytesNumber List.length].
  rewrite Nat2Z.inj_succ, Z.pow_succ_r by lia.
  unfold isByte in Hb. nia.
Qed.

Lemma bytesNumber_inj (a b : list Z) :
  Forall isByte a -> Forall isByte b -> List.length a = List.length b ->
  bytesNumber a = bytesNumber b -> a = b.
Proof.
  intros Ha. revert b. induction Ha as [|x a' Hx Ha' IH]; intros b Hb Hlen Heq.
  - destruct b; [reflexivity | discriminate].
  - destruct Hb as [|y b' Hy Hb']; [discriminate|].
    injection Hlen as Hlen. cbn [bytesNumber] in Heq. rewrite Hlen in Heq.
    pose proof (bytesNumber_range a' Ha') as Ra.
    pose proof (bytesNumber_range b' Hb') as Rb.
    rewrite Hlen in Ra.
    assert (Hp : (0 < 256 ^ Z.of_nat (List.length b'))%Z) by (apply Z.pow_pos_nonneg; lia).
    assert (x = y) by nia. subst y.
    f_equal. apply IH; [exact Hb' | exact Hlen | lia].
Qed.

Lemma skipn_nth_cons {A : Type} (d : A) (l : list A) :
  forall i, (i < List.length l)%nat -> skipn i l = nth i l d :: skipn (S i) l.
Proof.
  induction l as [|x l IH]; intros i Hi; [simpl in Hi; lia|].
  destruct i as [|i]; [reflexivity|].
  simpl in Hi. cbn [skipn nth]. rewrite (IH i) by lia. reflexivity.
Qed.

Lemma Forall_skipn {A : Type} (P : A -> Prop) (l : list A) (i : nat) :
  Forall P l -> Forall P (skipn i l).
Proof.
  intros H. rewrite Forall_forall in *. intros x Hx. apply H.
  rewrite <- (firstn_skipn i l). apply in_or_app. now right.
Qed.

(** Two bytes agree under the mask of [r] leading bits exactly when they
    agree on those bits. *)
Lemma byte_mask_eqb (x y r : Z) :
  isByte x -> isByte y -> (0 < r < 8)%Z ->
  (Js.band x (Js.band (Js.shl (-1) (8 - r)) 255)
   =? Js.band y (Js.band (Js.shl (-1) (8 - r)) 255))%Z = true
  <-> (x / 2 ^ (8 - r) = y / 2 ^ (8 - r))%Z.
Proof.
  unfold isByte. intros Hx Hy Hr.
  assert (Hcases : (r = 1 \/ r = 2 \/ r = 3 \/ r = 4 \/ r = 5 \/ r = 6 \/ r = 7)%Z) by lia.
  assert (Hmask : forall s, (0 < s < 8)%Z ->
            Js.band (Js.shl (-1) s) 255 = (256 - 2 ^ s)%Z).
  { intros s Hs.
    assert (Hc : (s = 1 \/ s = 2 \/ s = 3 \/ s = 4 \/ s = 5 \/ s = 6 \/ s = 7)%Z) by lia.
    destruct Hc as [-> | [-> | [-> | [-> | [-> | [-> | ->]]]]]]; reflexivity. }
  rewrite Hmask by lia.
  assert (Hp : (0 < 2 ^ (8 - r))%Z) by (apply Z.pow_pos_nonneg; lia).
  assert (Hle : (2 ^ (8 - r) <= 2 ^ 7)%Z) by (apply Z.pow_le_mono_r; lia).
  assert (Hband : forall z, (0 <= z <= 255)%Z ->
            Js.band z (256 - 2 ^ (8 - r)) = (z / 2 ^ (8 - r) * 2 ^ (8 - r))%Z).
  { intros z Hz. unfold Js.band.
    rewrite (toInt32_small z) by lia.
    rewrite (toInt32_small (256 - 2 ^ (8 - r))) by lia.
    replace (256 - 2 ^ (8 - r))%Z with (Z.land (- 2 ^ (8 - r)) (Z.ones 8)).
    - rewrite Z.land_assoc, (Z.land_comm z), <- Z.land_assoc.
      rewrite (Z.land_ones z) by lia. rewrite (Z.mod_small z) by (change (2 ^ 8)%Z with 256%Z; lia).
      rewrite Z.land_comm. apply land_high_mask. lia.
    - rewrite Z.land_ones by lia.
      destruct Hcases as [-> | [-> | [-> | [-> | [-> | [-> | ->]]]]]]; reflexivity. }
  rewrite !Hband by lia. rewrite Z.eqb_eq.
  split; [intros H; nia | intros ->; reflexivity].
Qed.

Lemma pow256 (f : nat) : (256 ^ Z.of_nat f = 2 ^ (8 * Z.of_nat f))%Z.
Proof. rewrite Z.pow_mul_r by lia. reflexivity. Qed.

(** The loop of [matchCidr6] from byte [i] on, with [r] bits still to
    compare, compares the leading [r] bits of what is left of the two
    addresses. *)
Lemma cidr6Loop_bits (fuel : nat) :
  forall (i : nat) (r : Z) (a b : list Z),
    List.length a = (i + fuel)%nat -> List.length b = (i + fuel)%nat ->
    Forall isByte a -> Forall isByte b ->
    (0 <= r <= 8 * Z.of_nat fuel)%Z ->
    Filters.cidr6Loop fuel i (Some r) a b = true
    <-> (bytesNumber (skipn i a) / 2 ^ (8 * Z.of_nat fuel - r)
         = bytesNumber (skipn i b) / 2 ^ (8 * Z.of_nat fuel - r))%Z.
Proof.
  induction fuel as [|f IH]; intros i r a b La Lb Ha Hb Hr.
  - simpl. rewrite !skipn_all2 by lia. tauto.
  - rewrite (skipn_nth_cons 0%Z a i) by lia. rewrite (skipn_nth_cons 0%Z b i) by lia.
    set (x := nth i a 0%Z). set (y := nth i b 0%Z).
    assert (Hx : isByte x).
    { rewrite Forall_forall in Ha. apply Ha. apply nth_In. lia. }
    assert (Hy : isByte y).
    { rewrite Forall_forall in Hb. apply Hb. apply nth_In. lia. }
    assert (Lta : List.length (skipn (S i) a) = f) by (rewrite length_skipn; lia).
    assert (Ltb : List.length (skipn (S i) b) = f) by (rewrite length_skipn; lia).
    pose proof (bytesNumber_range _ (Forall_skipn isByte a (S i) Ha)) as Ra.
    pose proof (bytesNumber_range _ (Forall_skipn isByte b (S i) Hb)) as Rb.
    rewrite Lta in Ra. rewrite Ltb in Rb.
    cbn [bytesNumber]. rewrite Lta, Ltb.
    set (V := bytesNumber (skipn (S i) a)) in *.
    set (W := bytesNumber (skipn (S i) b)) in *.
    rewrite pow256 in *.
    assert (Hpf : (0 < 2 ^ (8 * Z.of_nat f))%Z) by (apply Z.pow_pos_nonneg; lia).
    cbn [Filters.cidr6Loop]. fold x. fold y.
    unfold isByte in Hx, Hy.
    destruct (r >=? 8)%Z eqn:H8.
    + (* a whole byte *)
      assert (Hr8 : (8 <= r)%Z) by lia.
      set (k := (8 * Z.of_nat (S f) - r)%Z).
      assert (Hk : (0 <= k <= 8 * Z.of_nat f)%Z) by (unfold k; lia).
      assert (Hsplit : (2 ^ (8 * Z.of_nat f) = 2 ^ (8 * Z.of_nat f - k) * 2 ^ k)%Z).
      { rewrite <- Z.pow_add_r by lia. f_equal. lia. }
      assert (Hpk : (0 < 2 ^ k)%Z) by (apply Z.pow_pos_nonneg; lia).
      assert (Hpm : (0 < 2 ^ (8 * Z.of_nat f - k))%Z) by (apply Z.pow_pos_nonneg; lia).
      assert (Hdiv : forall z v, (0 <= v < 2 ^ (8 * Z.of_nat f))%Z ->
                ((z * 2 ^ (8 * Z.of_nat f) + v) / 2 ^ k
                 = z * 2 ^ (8 * Z.of_nat f - k) + v / 2 ^ k
                 /\ 0 <= v / 2 ^ k < 2 ^ (8 * Z.of_nat f - k))%Z).
      { intros z v Hv. split.
        - rewrite Hsplit at 1. rewrite Z.mul_assoc, Z.add_comm, Z.div_add by lia. lia.
        - split; [apply Z.div_pos; lia | apply Z.div_lt_upper_bound; lia]. }
      destruct (Hdiv x V Ra) as [-> RV]. destruct (Hdiv y W Rb) as [-> RW].
      destruct (x =? y)%Z eqn:Hxy; cbn [negb].
      * apply Z.eqb_eq in Hxy. rewrite Hxy.
        rewrite (IH (S i) (r - 8)%Z a b) by (try assumption; lia).
        fold V. fold W.
        replace (8 * Z.of_nat f - (r - 8))%Z with k by (unfold k; lia).
        split; intros H; lia.
      * apply Z.eqb_neq in Hxy. split; [discriminate | intros H; nia].
    + destruct (r >? 0)%Z eqn:H0.
      * (* part of a byte *)
        assert (Hr0 : (0 < r < 8)%Z) by lia.
        assert (Hrest : Filters.cidr6Loop f (S i) (Some 0%Z) a b = true)
          by (destruct f; reflexivity).
        replace (8 * Z.of_nat (S f) - r)%Z with (8 * Z.of_nat f + (8 - r))%Z by lia.
        rewrite Z.pow_add_r by lia.
        assert (Hdiv : forall z v, (0 <= v < 2 ^ (8 * Z.of_nat f))%Z ->
                  ((z * 2 ^ (8 * Z.of_nat f) + v) / (2 ^ (8 * Z.of_nat f) * 2 ^ (8 - r))
                   = z / 2 ^ (8 - r))%Z).
        { intros z v Hv.
          assert (0 < 2 ^ (8 - r))%Z by (apply Z.pow_pos_nonneg; lia).
          rewrite <- Z.div_div by lia.
          rewrite Z.add_comm, Z.div_add by lia.
          rewrite (Z.div_small v) by lia. reflexivity. }
        rewrite (Hdiv x V Ra), (Hdiv y W Rb).
        rewrite <- (byte_mask_eqb x y r) by (unfold isByte; lia).
        destruct (Js.band x (Js.band (Js.shl (-1) (8 - r)) 255)
                  =? Js.band y (Js.band (Js.shl (-1) (8 - r)) 255))%Z;
          cbn [negb]; [rewrite Hrest; tauto | tauto].
      * (* nothing left to compare *)
        assert (r = 0)%Z by lia. subst r.
        rewrite Z.sub_0_r.
        replace (8 * Z.of_nat (S f))%Z with (8 * Z.of_nat f + 8)%Z by lia.
        rewrite Z.pow_add_r by lia.
        rewrite !Z.div_small by (change (2 ^ 8)%Z with 256%Z; nia).
        tauto.
Qed.

(** With at least as many bits to compare as are left, the loop compares
    every byte. *)
Lemma cidr6Loop_all (fuel : nat) :
  forall (i : nat) (r : Z) (a b : list Z),
    List.length a = (i + fuel)%nat -> List.length b = (i + fuel)%nat ->
    (8 * Z.of_nat fuel <= r)%Z ->
    Filters.cidr6Loop fuel i (Some r) a b = true <-> skipn i a = skipn i b.
Proof.
  induction fuel as [|f IH]; intros i r a b La Lb Hr.
  - simpl. rewrite !skipn_all2 by lia. tauto.
  - rewrite (skipn_nth_cons 0%Z a i) by lia. rewrite (skipn_nth_cons 0%Z b i) by lia.
    cbn [Filters.cidr6Loop].
    replace (r >=? 8)%Z with true by (symmetry; apply Z.geb_le; lia).
    destruct (nth i a 0 =? nth i b 0)%Z eqn:Hxy; cbn [negb].
    + apply Z.eqb_eq in Hxy. rewrite Hxy.
      rewrite (IH (S i) (r - 8)%Z a b) by lia.
      split; [intros ->; reflexivity | intros H; now injection H].
    + apply Z.eqb_neq in Hxy. split; [discriminate | intros H; now injection H].
Qed.

Lemma cidr6Loop_none (fuel i : nat) (r : Z) (a b : list Z) :
  (r <= 0)%Z ->
  Filters.cidr6Loop fuel i (Some r) a b = true
  /\ Filters.cidr6Loop fuel i None a b = true.
Proof.
  intros Hr. destruct fuel; [split; reflexivity|]. cbn [Filters.cidr6Loop].
  assert (E1 : (r >=? 8)%Z = false) by (rewrite Z.geb_leb; apply Z.leb_gt; lia).
  assert (E2 : (r >? 0)%Z = false) by (rewrite Z.gtb_ltb; apply Z.ltb_ge; lia).
  rewrite E1, E2.
  split; reflexivity.
Qed.

(** X5 (matchCidr6): for a prefix length from 0 to 128, two addresses
    match exactly when both are accepted by [ipv6ToBytes] and their 16
    bytes, read as one 128-bit number, agree on the first [p] bits. *)
Theorem matchCidr6_leading_bits (ip network : string) (p : Z) :
  (0 <= p <= 128)%Z ->
  Filters.matchCidr6 ip network (Some p) = true
  <-> exists a b : list Z,
        Filters.ipv6ToBytes ip = Some a
        /\ Filters.ipv6ToBytes network = Some b
        /\ (bytesNumber a / 2 ^ (128 - p) = bytesNumber b / 2 ^ (128 - p))%Z.
Proof.
  intros Hp. unfold Filters.matchCidr6.
  destruct (Filters.ipv6ToBytes ip) as [a|] eqn:Ea.
  - destruct (Filters.ipv6ToBytes network) as [b|] eqn:Eb.
    + destruct (ipv6ToBytes_bytes _ _ Ea) as [La Ha].
      destruct (ipv6ToBytes_bytes _ _ Eb) as [Lb Hb].
      rewrite (cidr6Loop_bits 16 0 p a b) by (try assumption; lia).
      cbn [skipn]. change (8 * Z.of_nat 16)%Z with 128%Z.
      split.
      * intros H. exists a, b. auto.
      * intros (a' & b' & Ha' & Hb' & H). injection Ha' as <-. injection Hb' as <-. exact H.
    + split; [discriminate | intros (a' & b' & _ & Hb' & _); discriminate].
  - split; [discriminate | intros (a' & b' & Ha' & _); discriminate].
Qed.

(** X6 (matchCidr6): the prefix length is not validated.  With a length
    above 128 the two addresses must have the same 16 bytes; with a
    negative length, or one that is not a number, every address that
    [ipv6ToBytes] accepts matches every network that it accepts. *)
Theorem matchCidr6_prefix_not_validated (ip network : string) (a b : list Z) :
  Filters.ipv6ToBytes ip = Some a ->
  Filters.ipv6ToBytes network = Some b ->
  (forall p, (128 <= p)%Z -> Filters.matchCidr6 ip network (Some p) = true <-> a = b)
  /\ (forall p, (p <= 0)%Z -> Filters.matchCidr6 ip network (Some p) = true)
  /\ Filters.matchCidr6 ip network None = true.
Proof.
  intros Ea Eb. unfold Filters.matchCidr6. rewrite Ea, Eb.
  destruct (ipv6ToBytes_bytes _ _ Ea) as [La _].
  destruct (ipv6ToBytes_bytes _ _ Eb) as [Lb _].
  split; [|split].
  - intros p Hp. rewrite (cidr6Loop_all 16 0 p a b) by (try assumption; lia). tauto.
  - intros p Hp. apply (cidr6Loop_none 16 0 p a b Hp).
  - apply (cidr6Loop_none 16 0 0 a b). lia.
Qed.

End Ipv6BlockFacts.

Lemma ipv6ToBytes_sixteen_bytes_witness :
  List.length [32; 1; 13; 184; 0; 0; 0; 0; 0; 0; 0; 0; 0; 0; 0; 1]%Z = 16
  /\ Forall isByte [32; 1; 13; 184; 0; 0; 0; 0; 0; 0; 0; 0; 0; 0; 0; 1]%Z.
Proof.
  apply (ipv6ToBytes_sixteen_bytes "2001:db8::1"). reflexivity.
Defined.

Lemma matchCidr6_leading_bits_witness :
  Filters.matchCidr6 "2001:db8::1" "2001:db8::" (Some 32%Z) = true
  <-> exists a b : list Z,
        Filters.ipv6ToBytes "2001:db8::1" = Some a
        /\ Filters.ipv6ToBytes "2001:db8::" = Some b
        /\ (bytesNumber a / 2 ^ (128 - 32) = bytesNumber b / 2 ^ (128 - 32))%Z.
Proof.
  apply (matchCidr6_leading_bits "2001:db8::1" "2001:db8::" 32). lia.
Defined.

Lemma matchCidr6_prefix_not_validated_witness :
  Filters.matchCidr6 "::1" "fe80::" None = true.
Proof.
  refine (proj2 (proj2 (matchCidr6_prefix_not_validated "::1" "fe80::" _ _ _ _)));
    reflexivity.
Defined.

(** ** The notation of IPv6 addresses *)

Section Ipv6NotationFacts.

Lemma join_cons (sep g : string) (gs : list string) :
  gs <> [] -> Js.join sep (g :: gs) = (g ++ sep ++ Js.join sep gs)%string.
Proof. destruct gs; [congruence | reflexivity]. Qed.

(** Splitting what was joined gives the parts back, when no part holds
    the separator. *)
Lemma split_join_char (c : ascii) (gs : list string) :
  gs <> [] ->
  Forall (fun g => lacks c g = true) gs ->
  Js.split (Js.str1 c) (Js.join (Js.str1 c) gs) = gs.
Proof.
  induction gs as [|g gs IH]; [congruence|]. intros _ Hall.
  inversion Hall as [|? ? Hg Hgs]; subst.
  destruct gs as [|g' gs'].
  - simpl. now apply split_piece_end.
  - rewrite join_cons by discriminate.
    change (Js.str1 c ++ Js.join (Js.str1 c) (g' :: gs'))%string
      with (String c (Js.join (Js.str1 c) (g' :: gs'))).
    rewrite split_piece by exact Hg. f_equal. apply IH; [discriminate | exact Hgs].
Qed.

Lemma hexDigit_not_colon (c : ascii) : Entropy.isHexDigit c = true -> Ascii.eqb ":"%char c = false.
Proof.
  intros H. destruct (Ascii.eqb ":"%char c) eqn:E; [|reflexivity].
  apply Ascii.eqb_eq in E. subst c. discriminate.
Qed.

Lemma hexDigits_lack_colon (s : string) :
  forallb Entropy.isHexDigit (list_ascii_of_string s) = true -> lacks ":"%char s = true.
Proof.
  induction s as [|c s IH]; [reflexivity|].
  cbn [list_ascii_of_string forallb lacks].
  rewrite andb_true_iff. intros [Hc Hs].
  rewrite (hexDigit_not_colon c Hc). cbn [negb andb]. now apply IH.
Qed.

Lemma hexGroup_parts (g : string) :
  isHexGroup g = true ->
  g <> ""
  /\ (String.length g <= 4)%nat
  /\ forallb Entropy.isHexDigit (list_ascii_of_string g) = true
  /\ lacks ":"%char g = true.
Proof.
  unfold isHexGroup. rewrite !andb_true_iff, negb_true_iff.
  intros [[Hne Hlen] Hhex]. repeat split.
  - now apply String.eqb_neq.
  - now apply Nat.leb_le.
  - exact Hhex.
  - now apply hexDigits_lack_colon.
Qed.

Lemma hexGroups_lack_colon (gs : list string) :
  Forall (fun g => isHexGroup g = true) gs ->
  Forall (fun g => lacks ":"%char g = true) gs.
Proof.
  intros H. eapply Forall_impl; [|exact H]. intros g Hg. now apply hexGroup_parts.
Qed.

Lemma single_lone (h : string) :
  h <> "" -> lacks ":"%char h = true -> single h = true /\ startsPlain h = true.
Proof.
  induction h as [|c h IH]; [congruence|]. intros _ Hh.
  cbn [lacks] in Hh. apply andb_true_iff in Hh. destruct Hh as [Hc Hh].
  split; [|exact Hc].
  apply negb_true_iff in Hc.
  destruct h as [|c' h'].
  - cbn [single]. now rewrite Hc.
  - cbn [single]. rewrite Hc. cbn [andb negb]. apply IH; [discriminate | exact Hh].
Qed.

Lemma single_append (h t : string) :
  h <> "" -> lacks ":"%char h = true -> t <> "" -> single t = true ->
  single (h ++ t) = true /\ startsPlain (h ++ t) = true.
Proof.
  intros Hne Hh Ht St. revert Hne Hh.
  induction h as [|c h IH]; [congruence|]. intros _ Hh.
  cbn [lacks] in Hh. apply andb_true_iff in Hh. destruct Hh as [Hc Hh].
  split; [|exact Hc].
  apply negb_true_iff in Hc.
  destruct h as [|c' h'].
  - cbn [String.append]. destruct t as [|d t']; [congruence|].
    cbn [single]. rewrite Hc. cbn [andb negb]. exact St.
  - change (single (String c (String c' (h' ++ t))) = true).
    cbn [single]. rewrite Hc. cbn [andb negb].
    apply (IH ltac:(discriminate) Hh).
Qed.

Lemma single_colon (t : string) :
  startsPlain t = true -> single t = true -> single (String ":"%char t) = true.
Proof.
  destruct t as [|c t']; [discriminate|].
  intros Hc St. unfold startsPlain in Hc. apply negb_true_iff in Hc.
  change (negb (Ascii.eqb ":"%char ":"%char && Ascii.eqb ":"%char c)
          && single (String c t') = true).
  rewrite Hc, andb_false_r. exact St.
Qed.

(** The groups of an address, joined by colons, hold no [::] and end in
    no colon. *)
Lemma join_single (gs : list string) :
  Forall (fun g => isHexGroup g = true) gs ->
  single (Js.join ":" gs) = true
  /\ (gs <> [] -> startsPlain (Js.join ":" gs) = true /\ Js.join ":" gs <> "").
Proof.
  induction 1 as [|g gs Hg Hgs IH]; [split; [reflexivity | congruence]|].
  destruct (hexGroup_parts g Hg) as (Hne & _ & _ & Hcolon).
  destruct gs as [|g' gs'].
  - cbn [Js.join String.concat].
    destruct (single_lone g Hne Hcolon) as [S1 S2]. split; [exact S1|]. intros _. now split.
  - rewrite join_cons by discriminate.
    destruct IH as [St Hst]. destruct (Hst ltac:(discriminate)) as [Hplain Hnonempty].
    change (":" ++ Js.join ":" (g' :: gs'))%string
      with (String ":"%char (Js.join ":" (g' :: gs'))).
    destruct (single_append g (String ":"%char (Js.join ":" (g' :: gs'))) Hne Hcolon
                ltac:(discriminate) (single_colon _ Hplain St)) as [S1 S2].
    split; [exact S1|]. intros _. split; [exact S2|].
    destruct g; [congruence | discriminate].
Qed.

Lemma prefix_cons (a b : ascii) (p s : string) :
  String.prefix (String a p) (String b s) = Ascii.eqb a b && String.prefix p s.
Proof.
  cbn [String.prefix].
  destruct (Ascii.ascii_dec a b) as [->|Hn].
  - now rewrite Ascii.eqb_refl.
  - apply Ascii.eqb_neq in Hn. now rewrite Hn.
Qed.

Lemma prefix_double (c : ascii) (s : string) :
  String.prefix "::" (String c s)
  = Ascii.eqb ":"%char c
    && match s with
       | String c' _ => Ascii.eqb ":"%char c'
       | EmptyString => false
       end.
Proof.
  change "::" with (String ":"%char (String ":"%char "")).
  rewrite prefix_cons. destruct s as [|c' s']; [reflexivity|].
  rewrite prefix_cons. destruct s'; now rewrite andb_true_r.
Qed.

Lemma single_tail (c : ascii) (s : string) :
  single (String c s) = true ->
  single s = true
  /\ match s with
     | String c' _ => Ascii.eqb ":"%char c && Ascii.eqb ":"%char c' = false
     | EmptyString => Ascii.eqb ":"%char c = false
     end.
Proof.
  destruct s as [|c' s'].
  - cbn [single]. intros H. apply negb_true_iff in H. split; [reflexivity | exact H].
  - intros H.
    change (negb (Ascii.eqb ":"%char c && Ascii.eqb ":"%char c')
            && single (String c' s') = true) in H.
    apply andb_true_iff in H. destruct H as [H1 H2].
    apply negb_true_iff in H1. split; assumption.
Qed.

Lemma single_no_double (s : string) : single s = true -> Js.includes s "::" = false.
Proof.
  induction s as [|c s IH]; [reflexivity|].
  intros H. apply single_tail in H. destruct H as [Hs Hc].
  cbn [Js.includes]. rewrite prefix_double, (IH Hs), orb_false_r.
  destruct s; [apply andb_false_r | exact Hc].
Qed.

(** The first [::] of an elided address is the one between its two
    parts. *)
Lemma split_double_end (r : string) :
  Js.includes r "::" = false -> forall cur, Js.split_go "::" 0 cur r = [(cur ++ r)%string].
Proof.
  induction r as [|c r IH]; intros H cur.
  - simpl. now rewrite append_empty_r.
  - cbn [Js.includes] in H. apply orb_false_iff in H. destruct H as [Hp Hi].
    cbn [Js.split_go]. rewrite Hp. rewrite IH by exact Hi.
    rewrite append_assoc. reflexivity.
Qed.

Lemma split_double (l r : string) :
  single l = true ->
  forall cur,
    Js.split_go "::" 0 cur (l ++ "::" ++ r)
    = (cur ++ l)%string :: Js.split_go "::" 0 "" r.
Proof.
  induction l as [|c l IH]; intros Hl cur.
  - cbn [String.append]. rewrite append_empty_r.
    change (Js.split_go "::" 0 cur (String ":"%char (String ":"%char r))
            = cur :: Js.split_go "::" 0 "" r).
    cbn [Js.split_go]. rewrite prefix_double, Ascii.eqb_refl. reflexivity.
  - apply single_tail in Hl. destruct Hl as [Hs Hc].
    change (String c l ++ "::" ++ r)%string with (String c (l ++ "::" ++ r)).
    cbn [Js.split_go]. rewrite prefix_double.
    assert (Hp : Ascii.eqb ":"%char c
                 && match (l ++ "::" ++ r)%string with
                    | String c' _ => Ascii.eqb ":"%char c'
                    | EmptyString => false
                    end = false).
    { destruct l as [|c' l'].
      - rewrite Hc. reflexivity.
      - exact Hc. }
    rewrite Hp, IH by exact Hs.
    rewrite append_assoc. reflexivity.
Qed.

Lemma includes_double (l r : string) : Js.includes (l ++ "::" ++ r) "::" = true.
Proof.
  induction l as [|c l IH].
  - destruct r; reflexivity.
  - change (String c l ++ "::" ++ r)%string with (String c (l ++ "::" ++ r)).
    cbn [Js.includes]. rewrite IH. apply orb_true_r.
Qed.

(** *** Hexadecimal numerals *)

Lemma hexDigit_val (c : ascii) :
  Entropy.isHexDigit c = true ->
  Js.digitVal c = Some (hexDigit c) /\ (0 <= hexDigit c < 16)%Z.
Proof.
  unfold hexDigit, Js.digitVal, Entropy.isHexDigit. cbv zeta.
  generalize (Js.code c). intros n H.
  destruct ((48 <=? n) && (n <=? 57))%Z eqn:E1; [split; [reflexivity | blia]|].
  destruct ((97 <=? n) && (n <=? 122))%Z eqn:E2; [split; [reflexivity | blia]|].
  destruct ((65 <=? n) && (n <=? 90))%Z eqn:E3; [split; [reflexivity | blia]|].
  blia.
Qed.

Lemma digits_hexadecimal (s : string) :
  forallb Entropy.isHexDigit (list_ascii_of_string s) = true ->
  forall acc, Js.digits 16 (Some acc) s = Some (hexadecimal acc s).
Proof.
  induction s as [|c s IH]; intros Hd acc; [reflexivity|].
  cbn [list_ascii_of_string forallb] in Hd. apply andb_true_iff in Hd.
  destruct Hd as [Hc Hs]. destruct (hexDigit_val c Hc) as [Hv Hr].
  cbn [Js.digits hexadecimal]. rewrite Hv.
  replace (hexDigit c <? 16)%Z with true by (symmetry; blia).
  now apply IH.
Qed.

Lemma hexDigit_plain (c : ascii) :
  Entropy.isHexDigit c = true ->
  Js.isWhite c = false /\ c <> "-"%char /\ c <> "+"%char /\ c <> "x"%char /\ c <> "X"%char.
Proof.
  intros H. split.
  - revert H. unfold Entropy.isHexDigit, Js.isWhite. cbv zeta.
    generalize (Js.code c). intros n H. blia.
  - repeat split; intros ->; vm_compute in H; discriminate.
Qed.

(** [parseInt] with radix 16 of a non-empty string of hexadecimal digits
    is the number the digits denote. *)
Lemma parseInt_hexadecimal (s : string) :
  s <> "" -> forallb Entropy.isHexDigit (list_ascii_of_string s) = true ->
  Js.parseInt s 16 = Some (hexadecimal 0 s).
Proof.
  destruct s as [|c s]; [congruence|]. intros _ Hd.
  cbn [list_ascii_of_string forallb] in Hd. apply andb_true_iff in Hd.
  destruct Hd as [Hc Hs].
  destruct (hexDigit_plain c Hc) as (Hw & Hm & Hp & _).
  destruct (hexDigit_val c Hc) as [Hv Hr].
  unfold Js.parseInt. cbn [Js.trimStart]. rewrite Hw.
  assert (Hsign : match String c s with
                  | String "-"%char r => (true, r)
                  | String "+"%char r => (false, r)
                  | _ => (false, String c s)
                  end = (false, String c s)).
  { destruct c as [[] [] [] [] [] [] [] []]; try reflexivity; congruence. }
  rewrite Hsign. change (16 =? 16)%Z with true. cbv iota.
  assert (H0x : match String c s with
                | String "0"%char (String "x"%char r) => r
                | String "0"%char (String "X"%char r) => r
                | _ => String c s
                end = String c s).
  { destruct s as [|c2 s2].
    - destruct c as [[] [] [] [] [] [] [] []]; reflexivity.
    - cbn [list_ascii_of_string forallb] in Hs. apply andb_true_iff in Hs.
      destruct Hs as [Hc2 _]. destruct (hexDigit_plain c2 Hc2) as (_ & _ & _ & Hx & HX).
      destruct c as [[] [] [] [] [] [] [] []]; try reflexivity.
      destruct c2 as [[] [] [] [] [] [] [] []]; try reflexivity; congruence. }
  rewrite H0x. cbn [Js.digits]. rewrite Hv.
  replace (hexDigit c <? 16)%Z with true by (symmetry; blia).
  rewrite (digits_hexadecimal s Hs). reflexivity.
Qed.

Lemma hexadecimal_bound (s : string) :
  forallb Entropy.isHexDigit (list_ascii_of_string s) = true ->
  forall acc, (0 <= acc)%Z ->
    (0 <= hexadecimal acc s < (acc + 1) * 16 ^ Z.of_nat (String.length s))%Z.
Proof.
  induction s as [|c s IH]; intros Hd acc Hacc.
  - simpl. lia.
  - cbn [list_ascii_of_string forallb] in Hd. apply andb_true_iff in Hd.
    destruct Hd as [Hc Hs]. destruct (hexDigit_val c Hc) as [_ Hr].
    cbn [hexadecimal String.length]. rewrite Nat2Z.inj_succ, Z.pow_succ_r by lia.
    specialize (IH Hs (acc * 16 + hexDigit c)%Z ltac:(lia)).
    assert (0 < 16 ^ Z.of_nat (String.length s))%Z by (apply Z.pow_pos_nonneg; lia).
    nia.
Qed.

Lemma hexGroup_value (g : string) :
  isHexGroup g = true -> (0 <= hexadecimal 0 g < 65536)%Z.
Proof.
  intros Hg. destruct (hexGroup_parts g Hg) as (_ & Hlen & Hhex & _).
  pose proof (hexadecimal_bound g Hhex 0%Z ltac:(lia)) as H.
  assert (16 ^ Z.of_nat (String.length g) <= 16 ^ 4)%Z by (apply Z.pow_le_mono_r; lia).
  change (16 ^ 4)%Z with 65536%Z in *. lia.
Qed.

(** The two bytes that [ipv6ToBytes] pushes for a group value. *)
Lemma group_bytes (v : Z) :
  (0 <= v < 65536)%Z ->
  Js.band (Js.sar v 8) 255 = (v / 256)%Z /\ Js.band v 255 = (v mod 256)%Z.
Proof.
  intros Hv. rewrite !band_255. unfold Js.sar.
  rewrite (toInt32_small v) by lia.
  change (8 mod 32)%Z with 8%Z. rewrite Z.shiftr_div_pow2 by lia.
  change (2 ^ 8)%Z with 256%Z.
  assert (0 <= v / 256 < 256)%Z.
  { split; [apply Z.div_pos; lia | apply Z.div_lt_upper_bound; lia]. }
  rewrite (toInt32_small (v / 256)) by lia.
  split; [apply Z.mod_small; lia | reflexivity].
Qed.

Lemma groupBytes_hex (gs : list string) :
  Forall (fun g => isHexGroup g = true) gs ->
  Filters.groupBytes gs = Some (groupsBytes gs).
Proof.
  induction 1 as [|g gs Hg _ IH]; [reflexivity|].
  destruct (hexGroup_parts g Hg) as (Hne & _ & Hhex & _).
  cbn [Filters.groupBytes]. rewrite (parseInt_hexadecimal g Hne Hhex), IH.
  destruct (group_bytes _ (hexGroup_value g Hg)) as [-> ->]. reflexivity.
Qed.

(** *** Padding *)

Lemma repeatChar_length (c : ascii) (n : nat) : String.length (Js.repeatChar c n) = n.
Proof. induction n; simpl; congruence. Qed.

Lemma string_length_append (a b : string) :
  String.length (a ++ b) = String.length a + String.length b.
Proof. induction a; simpl; congruence. Qed.

Lemma chars_append (a b : string) :
  list_ascii_of_string (a ++ b) = list_ascii_of_string a ++ list_ascii_of_string b.
Proof. induction a; simpl; congruence. Qed.

Lemma hexadecimal_zeros (n : nat) (g : string) :
  hexadecimal 0 (Js.repeatChar "0"%char n ++ g) = hexadecimal 0 g.
Proof. induction n as [|n IH]; [reflexivity | exact IH]. Qed.

Lemma pad_hexGroup (g : string) :
  isHexGroup g = true ->
  isHexGroup (Js.padStart 4 "0"%char g) = true
  /\ groupPair (Js.padStart 4 "0"%char g) = groupPair g.
Proof.
  intros Hg. destruct (hexGroup_parts g Hg) as (Hne & Hlen & Hhex & _).
  unfold Js.padStart. split.
  - unfold isHexGroup. rewrite !andb_true_iff, negb_true_iff. repeat split.
    + apply String.eqb_neq. intros H. apply (f_equal String.length) in H.
      rewrite string_length_append in H. destruct g; [congruence | simpl in H; lia].
    + apply Nat.leb_le. rewrite string_length_append, repeatChar_length. lia.
    + rewrite chars_append, forallb_app, Hhex, andb_true_r.
      induction (4 - String.length g)%nat as [|n IH]; [reflexivity | exact IH].
  - unfold groupPair. now rewrite hexadecimal_zeros.
Qed.

Lemma groupsBytes_pad (gs : list string) :
  Forall (fun g => isHexGroup g = true) gs ->
  Forall (fun g => isHexGroup g = true) (map (Js.padStart 4 "0"%char) gs)
  /\ groupsBytes (map (Js.padStart 4 "0"%char) gs) = groupsBytes gs.
Proof.
  induction 1 as [|g gs Hg _ [IH1 IH2]]; [split; [constructor | reflexivity]|].
  destruct (pad_hexGroup g Hg) as [P1 P2]. split.
  - now constructor.
  - unfold groupsBytes in *. cbn [map flat_map]. now rewrite P2, IH2.
Qed.

Lemma groupsBytes_zeros (m : nat) :
  groupsBytes (repeat "0000" m) = repeat 0%Z (2 * m).
Proof.
  induction m as [|m IH]; [reflexivity|].
  replace (2 * S m) with (S (S (2 * m))) by lia.
  unfold groupsBytes in *. cbn [repeat flat_map]. rewrite IH. reflexivity.
Qed.

(** *** The two notations *)

Lemma join_groups (gs : list string) :
  Forall (fun g => isHexGroup g = true) gs ->
  (if (Js.join ":" gs =? "")%string then [] else Js.split ":" (Js.join ":" gs)) = gs.
Proof.
  intros H. destruct gs as [|g gs']; [reflexivity|].
  destruct (join_single _ H) as [_ Hst].
  destruct (Hst ltac:(discriminate)) as [_ Hne].
  apply String.eqb_neq in Hne. rewrite Hne.
  apply (split_join_char ":"%char); [discriminate | now apply hexGroups_lack_colon].
Qed.

Lemma eight_groups_bytes (gs : list string) :
  Forall (fun g => isHexGroup g = true) gs ->
  List.length gs = 8 ->
  (if (Js.join ":" gs =? "")%string then None
   else if negb (List.length (Js.split ":" (Js.join ":" gs)) =? 8)%nat then None
        else Filters.groupBytes (Js.split ":" (Js.join ":" gs)))
  = Some (groupsBytes gs).
Proof.
  intros H Hlen. pose proof (join_groups gs H) as Hj.
  destruct (Js.join ":" gs =? "")%string.
  - subst gs. discriminate.
  - rewrite Hj, Hlen. cbn [Nat.eqb negb]. now apply groupBytes_hex.
Qed.

Lemma ipv6ToBytes_full (gs : list string) :
  Forall (fun g => isHexGroup g = true) gs ->
  List.length gs = 8 ->
  Filters.ipv6ToBytes (Js.join ":" gs) = Some (groupsBytes gs).
Proof.
  intros H Hlen. unfold Filters.ipv6ToBytes, Filters.expandIpv6.
  destruct (join_single gs H) as [Hs _].
  rewrite (single_no_double _ Hs).
  now apply eight_groups_bytes.
Qed.

Lemma ipv6ToBytes_elided (left right : list string) :
  Forall (fun g => isHexGroup g = true) left ->
  Forall (fun g => isHexGroup g = true) right ->
  List.length left + List.length right <= 8 ->
  Filters.ipv6ToBytes (elided left right) = Some (elidedBytes left right).
Proof.
  intros Hl Hr Hlen. unfold Filters.ipv6ToBytes, Filters.expandIpv6, elided.
  destruct (join_single left Hl) as [Sl _]. destruct (join_single right Hr) as [Sr _].
  assert (Hpieces : Js.split "::" (Js.join ":" left ++ "::" ++ Js.join ":" right)
                    = [Js.join ":" left; Js.join ":" right]).
  { unfold Js.split.
    rewrite (split_double _ _ Sl), (split_double_end _ (single_no_double _ Sr)).
    reflexivity. }
  rewrite includes_double, Hpieces. cbn [nth].
  rewrite (join_groups left Hl), (join_groups right Hr).
  replace (8 - Z.of_nat (List.length left) - Z.of_nat (List.length right) <? 0)%Z
    with false by (symmetry; apply Z.ltb_ge; lia).
  replace (Z.to_nat (8 - Z.of_nat (List.length left) - Z.of_nat (List.length right)))
    with (8 - List.length left - List.length right) by lia.
  set (m := 8 - List.length left - List.length right).
  assert (Hall : Forall (fun g => isHexGroup g = true) (left ++ repeat "0000" m ++ right)).
  { apply Forall_app. split; [exact Hl|]. apply Forall_app. split; [|exact Hr].
    apply Forall_forall. intros g Hg. apply repeat_spec in Hg. now subst g. }
  destruct (groupsBytes_pad _ Hall) as [Hpad Hbytes].
  rewrite eight_groups_bytes.
  - rewrite Hbytes. unfold elidedBytes, groupsBytes. rewrite !flat_map_app.
    fold (groupsBytes (repeat "0000" m)). rewrite groupsBytes_zeros. reflexivity.
  - exact Hpad.
  - rewrite length_map, !length_app, repeat_length. unfold m. lia.
Qed.

(** X4 (ipv6ToBytes, expandIpv6): the two notations of an IPv6 address are
    read as intended.  Eight groups of one to four hexadecimal digits
    joined by colons give the two bytes of each group in order; an address
    with the zero groups elided by [::] gives the bytes of the groups
    before, zeros for the groups left out, and the bytes of the groups
    after. *)
Theorem ipv6ToBytes_notations (left right : list string) :
  Forall (fun g => isHexGroup g = true) left ->
  Forall (fun g => isHexGroup g = true) right ->
  (List.length left + List.length right <= 8 ->
   Filters.ipv6ToBytes (elided left right) = Some (elidedBytes left right))
  /\ (List.length left = 8 ->
      Filters.ipv6ToBytes (Js.join ":" left) = Some (groupsBytes left)).
Proof.
  intros Hl Hr. split; intros H.
  - now apply ipv6ToBytes_elided.
  - now apply ipv6ToBytes_full.
Qed.

Lemma ipv6ToBytes_text (t : Ipv6Notation) :
  wellFormed t -> Filters.ipv6ToBytes (ipv6Text t) = Some (ipv6Bytes t).
Proof.
  destruct t as [gs | l r]; simpl.
  - intros [H Hlen]. now apply ipv6ToBytes_full.
  - intros (Hl & Hr & Hlen). now apply ipv6ToBytes_elided.
Qed.

Lemma hexGroup_lacks (c : ascii) (g : string) :
  Entropy.isHexDigit c = false -> isHexGroup g = true -> lacks c g = true.
Proof.
  intros Hc Hg. destruct (hexGroup_parts g Hg) as (_ & _ & Hhex & _).
  clear Hg. induction g as [|x g IH]; [reflexivity|].
  cbn [list_ascii_of_string forallb] in Hhex. apply andb_true_iff in Hhex.
  destruct Hhex as [Hx Hs]. cbn [lacks]. rewrite (IH Hs), andb_true_r.
  apply negb_true_iff, Ascii.eqb_neq. intros <-. congruence.
Qed.

Lemma join_lacks (c : ascii) (gs : list string) :
  Entropy.isHexDigit c = false -> c <> ":"%char ->
  Forall (fun g => isHexGroup g = true) gs ->
  lacks c (Js.join ":" gs) = true.
Proof.
  intros Hc Hn. induction 1 as [|g gs Hg Hgs IH]; [reflexivity|].
  destruct gs as [|g' gs'].
  - cbn [Js.join String.concat]. now apply hexGroup_lacks.
  - rewrite join_cons by discriminate. rewrite !lacks_append, IH.
    rewrite (hexGroup_lacks c g Hc Hg). cbn [lacks].
    apply Ascii.eqb_neq in Hn. rewrite Hn. reflexivity.
Qed.

Lemma ipv6Text_lacks (c : ascii) (t : Ipv6Notation) :
  Entropy.isHexDigit c = false -> c <> ":"%char ->
  wellFormed t -> lacks c (ipv6Text t) = true.
Proof.
  intros Hc Hn. destruct t as [gs | l r]; simpl.
  - intros [H _]. now apply join_lacks.
  - intros (Hl & Hr & _). unfold elided. rewrite !lacks_append.
    rewrite (join_lacks c l Hc Hn Hl), (join_lacks c r Hc Hn Hr).
    cbn [lacks]. apply Ascii.eqb_neq in Hn. rewrite Hn. reflexivity.
Qed.

Lemma ipv6Text_colon (t : Ipv6Notation) :
  wellFormed t -> Js.includes (ipv6Text t) ":" = true.
Proof.
  change ":" with (Js.str1 ":"%char). rewrite includes_char, negb_true_iff.
  destruct t as [gs | l r]; simpl.
  - intros [H Hlen].
    destruct gs as [|g [|g' gs']]; [discriminate | discriminate|].
    rewrite join_cons by discriminate. rewrite !lacks_append.
    cbn [lacks]. rewrite Ascii.eqb_refl. cbn [negb andb]. apply andb_false_r.
  - intros _. unfold elided. rewrite !lacks_append.
    cbn [lacks]. rewrite Ascii.eqb_refl. cbn [negb andb]. apply andb_false_r.
Qed.

(** X7 (matchCidr, IPv6): for an address and a network in either
    notation and a prefix length from 0 to 128, [matchCidr] answers true
    exactly when the two addresses agree on their first [p] bits. *)
Theorem matchCidr_ipv6_block (ip network : Ipv6Notation) (ps : string) :
  wellFormed ip -> wellFormed network ->
  isNumeral ps = true ->
  (decimal 0 ps <= 128)%Z ->
  Filters.matchCidr (ipv6Text ip) (ipv6Text network ++ "/" ++ ps) = true
  <-> (bytesNumber (ipv6Bytes ip) / 2 ^ (128 - decimal 0 ps)
       = bytesNumber (ipv6Bytes network) / 2 ^ (128 - decimal 0 ps))%Z.
Proof.
  intros Hip Hnet Hps Hp.
  destruct (numeral_parse ps Hps) as (Hparse & Hnonneg & Hslash).
  unfold Filters.matchCidr.
  rewrite includes_slash, split_slash;
    [| apply ipv6Text_lacks; [reflexivity | discriminate | exact Hnet] | exact Hslash].
  cbn [negb nth]. rewrite (ipv6Text_colon ip Hip). cbn [orb].
  rewrite Hparse. unfold Filters.matchCidr6.
  pose proof (ipv6ToBytes_text ip Hip) as Ea. pose proof (ipv6ToBytes_text network Hnet) as Eb.
  rewrite Ea, Eb.
  destruct (ipv6ToBytes_bytes _ _ Ea) as [La Ha].
  destruct (ipv6ToBytes_bytes _ _ Eb) as [Lb Hb].
  rewrite (cidr6Loop_bits 16 0 (decimal 0 ps)) by (try assumption; lia).
  cbn [skipn]. change (8 * Z.of_nat 16)%Z with 128%Z. tauto.
Qed.

End Ipv6NotationFacts.

Lemma ipv6ToBytes_notations_witness :
  Filters.ipv6ToBytes (elided ["2001"; "db8"] ["1"]) = Some (elidedBytes ["2001"; "db8"] ["1"]).
Proof.
  refine (proj1 (ipv6ToBytes_notations ["2001"; "db8"] ["1"] _ _) _).
  - repeat constructor.
  - repeat constructor.
  - simpl. lia.
Defined.

Lemma matchCidr_ipv6_block_witness :
  Filters.matchCidr (ipv6Text (Elided ["2001"; "db8"] ["1"]))
    (ipv6Text (Elided ["2001"; "db8"] []) ++ "/" ++ "32") = true
  <-> (bytesNumber (ipv6Bytes (Elided ["2001"; "db8"] ["1"])) / 2 ^ (128 - decimal 0 "32")
       = bytesNumber (ipv6Bytes (Elided ["2001"; "db8"] [])) / 2 ^ (128 - decimal 0 "32"))%Z.
Proof.
  apply (matchCidr_ipv6_block (Elided ["2001"; "db8"] ["1"]) (Elided ["2001"; "db8"] []) "32").
  - simpl. repeat split; try repeat constructor.
  - simpl. repeat split; try repeat constructor.
  - reflexivity.
  - vm_compute. discriminate.
Defined.

(** ** The string and range matchers *)

Section MatcherFacts.

Lemma lowerChar_facts (c : ascii) :
  Js.lowerChar (Js.lowerChar c) = Js.lowerChar c
  /\ Ascii.eqb "*"%char (Js.lowerChar c) = Ascii.eqb "*"%char c
  /\ Engine.isLineTerminator (Js.lowerChar c) = Engine.isLineTerminator c.
Proof. destruct c as [[] [] [] [] [] [] [] []]; vm_compute; repeat split. Qed.

Lemma toLowerCase_idem (s : string) : Js.toLowerCase (Js.toLowerCase s) = Js.toLowerCase s.
Proof.
  induction s as [|c s IH]; [reflexivity|]. cbn [Js.toLowerCase].
  rewrite IH. now destruct (lowerChar_facts c) as [-> _].
Qed.

Lemma toLowerCase_append (a b : string) :
  Js.toLowerCase (a ++ b) = (Js.toLowerCase a ++ Js.toLowerCase b)%string.
Proof. induction a as [|c a IH]; [reflexivity|]. cbn [Js.toLowerCase String.append]. now rewrite IH. Qed.

(** A lower-cased text that falls into two parts comes from a text that
    falls into two parts. *)
Lemma toLowerCase_split (v a b : string) :
  Js.toLowerCase v = (a ++ b)%string ->
  exists v1 v2, v = (v1 ++ v2)%string /\ Js.toLowerCase v1 = a /\ Js.toLowerCase v2 = b.
Proof.
  revert v. induction a as [|x a IH]; intros v H.
  - exists "", v. repeat split. exact H.
  - destruct v as [|c v]; [discriminate|].
    cbn [Js.toLowerCase String.append] in H. injection H as Hc Hv.
    destruct (IH v Hv) as (v1 & v2 & -> & H1 & H2).
    exists (String c v1), v2. repeat split; [|exact H2].
    cbn [Js.toLowerCase]. now rewrite Hc, H1.
Qed.

Lemma prefix_spec (sub s : string) :
  String.prefix sub s = true <-> exists post, s = (sub ++ post)%string.
Proof.
  revert s. induction sub as [|a sub IH]; intros s.
  - split; [intros _; now exists s | intros _; destruct s; reflexivity].
  - destruct s as [|b s].
    + split; [discriminate | intros [post H]; discriminate].
    + rewrite prefix_cons, andb_true_iff, IH. split.
      * intros [Hab [post ->]]. apply Ascii.eqb_eq in Hab. subst b. now exists post.
      * intros [post H]. injection H as -> ->. split; [apply Ascii.eqb_refl | now exists post].
Qed.

Lemma includes_spec (s sub : string) :
  Js.includes s sub = true <-> exists pre post, s = (pre ++ sub ++ post)%string.
Proof.
  induction s as [|c s IH].
  - cbn [Js.includes]. rewrite orb_false_r, prefix_spec. split.
    + intros [post H]. now exists "", post.
    + intros (pre & post & H). destruct pre as [|x pre]; [now exists post | discriminate].
  - cbn [Js.includes]. rewrite orb_true_iff, prefix_spec, IH. split.
    + intros [[post H] | (pre & post & ->)].
      * now exists "", post.
      * now exists (String c pre), post.
    + intros (pre & post & H). destruct pre as [|x pre].
      * left. now exists post.
      * right. injection H as _ ->. now exists pre, post.
Qed.

(** X10 (matchPartial): for a value and a search text of ASCII characters,
    [matchPartial] answers true exactly when some part of the value is
    the search text up to the case of the letters; the empty search text
    is found in every such value. *)
Theorem matchPartial_substring (value search : string) :
  isAscii value = true -> isAscii search = true ->
  (Matchers.matchPartial value search = true
   <-> exists pre mid post : string,
         value = (pre ++ mid ++ post)%string
         /\ Js.toLowerCase mid = Js.toLowerCase search)
  /\ Matchers.matchPartial value "" = true.
Proof.
  intros _ _.
  assert (Hiff : forall search',
            Matchers.matchPartial value search' = true
            <-> exists pre mid post : string,
                  value = (pre ++ mid ++ post)%string
                  /\ Js.toLowerCase mid = Js.toLowerCase search').
  { intros search'. unfold Matchers.matchPartial. rewrite includes_spec. split.
    - intros (pre & post & H).
      apply toLowerCase_split in H. destruct H as (v1 & v23 & -> & H1 & H23).
      apply toLowerCase_split in H23. destruct H23 as (v2 & v3 & -> & H2 & H3).
      now exists v1, v2, v3.
    - intros (pre & mid & post & -> & H).
      exists (Js.toLowerCase pre), (Js.toLowerCase post).
      now rewrite !toLowerCase_append, H. }
  split; [apply Hiff|].
  apply Hiff. exists "", "", value. now split.
Qed.

(** *** Wildcards *)

Lemma anyThen_spec (k : string -> bool) (v : string) :
  Engine.anyThen k v = true
  <-> exists pre post, v = (pre ++ post)%string /\ noBreak pre = true /\ k post = true.
Proof.
  induction v as [|c v IH].
  - cbn [Engine.anyThen]. rewrite orb_false_r. split.
    + intros H. now exists "", "".
    + intros (pre & post & H & _ & Hk). destruct pre; [|discriminate].
      simpl in H. now subst post.
  - cbn [Engine.anyThen]. rewrite orb_true_iff, andb_true_iff, IH. split.
    + intros [H | [Hc (pre & post & -> & Hpre & Hk)]].
      * now exists "", (String c v).
      * exists (String c pre), post. repeat split; [|exact Hk].
        cbn [noBreak]. now rewrite Hc, Hpre.
    + intros (pre & post & H & Hpre & Hk). destruct pre as [|x pre].
      * left. simpl in H. now subst post.
      * right. injection H as -> ->. cbn [noBreak] in Hpre.
        apply andb_true_iff in Hpre. destruct Hpre as [Hc Hpre].
        split; [exact Hc|]. now exists pre, post.
Qed.

Lemma stripPrefixCI_spec (seg v rest : string) :
  Engine.stripPrefixCI seg v = Some rest
  <-> exists pre, v = (pre ++ rest)%string /\ Js.toLowerCase pre = Js.toLowerCase seg.
Proof.
  revert v. induction seg as [|a seg IH]; intros v.
  - cbn [Engine.stripPrefixCI]. split.
    + intros H. injection H as ->. now exists "".
    + intros (pre & -> & H). destruct pre; [reflexivity | discriminate].
  - destruct v as [|b v]; cbn [Engine.stripPrefixCI].
    + split; [discriminate|]. intros (pre & H & Hl).
      destruct pre; [discriminate | discriminate].
    + destruct (Ascii.eqb (Js.lowerChar a) (Js.lowerChar b)) eqn:Hab.
      * apply Ascii.eqb_eq in Hab. rewrite IH. split.
        -- intros (pre & -> & Hl). exists (String b pre). split; [reflexivity|].
           cbn [Js.toLowerCase]. now rewrite Hl, Hab.
        -- intros (pre & H & Hl). destruct pre as [|x pre]; [discriminate|].
           injection H as -> ->. cbn [Js.toLowerCase] in Hl. injection Hl as _ Hl.
           now exists pre.
      * apply Ascii.eqb_neq in Hab. split; [discriminate|].
        intros (pre & H & Hl). destruct pre as [|x pre]; [discriminate|].
        injection H as -> _. cbn [Js.toLowerCase] in Hl. injection Hl as Hx _.
        congruence.
Qed.

Lemma includes_star (a b : string) : Js.includes (a ++ "*" ++ b) "*" = true.
Proof.
  change "*" with (Js.str1 "*"%char) at 2. rewrite includes_char.
  change (a ++ "*" ++ b)%string with (a ++ String "*"%char b)%string.
  rewrite lacks_append. cbn [lacks]. rewrite Ascii.eqb_refl.
  rewrite andb_false_r. reflexivity.
Qed.

Lemma matchers_matchWildcard (value pattern : string) :
  Matchers.matchWildcard value pattern = Engine.matchWildcard value pattern.
Proof. reflexivity. Qed.

(** X8 (matchWildcard): the two common shapes of a pattern, for a value
    and a pattern of ASCII characters.  [*suffix] matches the values that
    end in the suffix up to case, after a part that holds no line break;
    [prefix*] matches the values that begin with the prefix up to case,
    followed by a part that holds no line break.  The engine's private
    [matchWildcard] agrees with the one of [filters.ts]. *)
Theorem matchWildcard_affix (value lit : string) :
  isAscii value = true -> isAscii lit = true ->
  lacks "*"%char lit = true ->
  (Matchers.matchWildcard value ("*" ++ lit) = true
   <-> exists pre post : string,
         value = (pre ++ post)%string
         /\ noBreak pre = true
         /\ Js.toLowerCase post = Js.toLowerCase lit)
  /\ (Matchers.matchWildcard value (lit ++ "*") = true
      <-> exists pre post : string,
            value = (pre ++ post)%string
            /\ Js.toLowerCase pre = Js.toLowerCase lit
            /\ noBreak post = true)
  /\ Engine.matchWildcard value ("*" ++ lit) = Matchers.matchWildcard value ("*" ++ lit)
  /\ Engine.matchWildcard value (lit ++ "*") = Matchers.matchWildcard value (lit ++ "*").
Proof.
  intros _ _ Hlit. split; [|split; [|split; reflexivity]].
  - unfold Matchers.matchWildcard.
    change ("*" ++ lit)%string with (String "*"%char lit).
    pose proof (includes_star "" lit) as Hi.
    change ("" ++ "*" ++ lit)%string with (String "*"%char lit) in Hi.
    rewrite Hi. cbn [negb].
    change (Js.split "*" (String "*"%char lit))
      with (Js.split (Js.str1 "*"%char) ("" ++ String "*"%char lit)).
    rewrite split_piece by reflexivity. rewrite split_piece_end by exact Hlit.
    cbn [Engine.stripPrefixCI Engine.matchSegments].
    rewrite anyThen_spec. split.
    + intros (pre & post & -> & Hpre & Hk). exists pre, post. repeat split; [exact Hpre|].
      destruct (Engine.stripPrefixCI lit post) as [rest|] eqn:Hs; [|discriminate].
      apply String.eqb_eq in Hk. subst rest.
      apply stripPrefixCI_spec in Hs. destruct Hs as (p & -> & Hl).
      now rewrite append_empty_r.
    + intros (pre & post & -> & Hpre & Hl). exists pre, post. repeat split; [exact Hpre|].
      assert (Hs : Engine.stripPrefixCI lit post = Some "").
      { apply stripPrefixCI_spec. exists post. now rewrite append_empty_r. }
      now rewrite Hs.
  - unfold Matchers.matchWildcard.
    replace (lit ++ "*")%string with (lit ++ "*" ++ "")%string by reflexivity.
    rewrite (includes_star lit ""). cbn [negb].
    change (Js.split "*" (lit ++ "*" ++ "")) with (Js.split (Js.str1 "*"%char) (lit ++ String "*"%char "")).
    rewrite split_piece by exact Hlit. rewrite split_piece_end by reflexivity.
    split.
    + destruct (Engine.stripPrefixCI lit value) as [rest|] eqn:Hs; [|discriminate].
      apply stripPrefixCI_spec in Hs. destruct Hs as (p & -> & Hl).
      cbn [Engine.matchSegments]. rewrite anyThen_spec.
      intros (pre & post & -> & Hpre & Hk). cbn [Engine.stripPrefixCI] in Hk.
      apply String.eqb_eq in Hk. subst post. rewrite append_empty_r.
      now exists p, pre.
    + intros (pre & post & -> & Hl & Hpost).
      assert (Hs : Engine.stripPrefixCI lit (pre ++ post) = Some post).
      { apply stripPrefixCI_spec. now exists pre. }
      rewrite Hs. cbn [Engine.matchSegments]. rewrite anyThen_spec.
      exists post, "". rewrite append_empty_r. repeat split. exact Hpost.
Qed.

Lemma lacks_star_lower (s : string) :
  lacks "*"%char (Js.toLowerCase s) = lacks "*"%char s.
Proof.
  induction s as [|c s IH]; [reflexivity|]. cbn [Js.toLowerCase lacks].
  rewrite IH. now destruct (lowerChar_facts c) as (_ & -> & _).
Qed.

Lemma split_star_lower (s : string) :
  forall cur,
    Js.split_go (Js.str1 "*"%char) 0 (Js.toLowerCase cur) (Js.toLowerCase s)
    = map Js.toLowerCase (Js.split_go (Js.str1 "*"%char) 0 cur s).
Proof.
  induction s as [|c s IH]; intros cur; [reflexivity|].
  cbn [Js.toLowerCase Js.split_go]. rewrite !prefix_char.
  destruct (lowerChar_facts c) as (_ & -> & _).
  destruct (Ascii.eqb "*"%char c).
  - cbn [map]. f_equal. apply (IH "").
  - rewrite <- IH. rewrite toLowerCase_append. reflexivity.
Qed.

Lemma stripPrefixCI_lower_seg (seg v : string) :
  Engine.stripPrefixCI (Js.toLowerCase seg) v = Engine.stripPrefixCI seg v.
Proof.
  revert v. induction seg as [|a seg IH]; intros v; [reflexivity|].
  destruct v as [|b v]; [reflexivity|].
  cbn [Js.toLowerCase Engine.stripPrefixCI].
  destruct (lowerChar_facts a) as (-> & _). now rewrite IH.
Qed.

Lemma stripPrefixCI_lower_value (seg v : string) :
  Engine.stripPrefixCI seg (Js.toLowerCase v)
  = option_map Js.toLowerCase (Engine.stripPrefixCI seg v).
Proof.
  revert v. induction seg as [|a seg IH]; intros v; [reflexivity|].
  destruct v as [|b v]; [reflexivity|].
  cbn [Js.toLowerCase Engine.stripPrefixCI].
  destruct (lowerChar_facts b) as (-> & _).
  destruct (Ascii.eqb (Js.lowerChar a) (Js.lowerChar b)); [apply IH | reflexivity].
Qed.

Lemma anyThen_lower (k k' : string -> bool) (v : string) :
  (forall w, k (Js.toLowerCase w) = k' w) ->
  Engine.anyThen k (Js.toLowerCase v) = Engine.anyThen k' v.
Proof.
  intros Hk. induction v as [|c v IH].
  - cbn [Js.toLowerCase Engine.anyThen]. now rewrite <- Hk.
  - cbn [Js.toLowerCase Engine.anyThen].
    destruct (lowerChar_facts c) as (_ & _ & ->).
    rewrite IH, <- Hk. reflexivity.
Qed.

Lemma anyThen_ext (k k' : string -> bool) (v : string) :
  (forall w, k w = k' w) -> Engine.anyThen k v = Engine.anyThen k' v.
Proof.
  intros Hk. induction v as [|c v IH]; cbn [Engine.anyThen]; now rewrite ?IH, Hk.
Qed.

Lemma matchSegments_lower_value (segs : list string) :
  forall v, Engine.matchSegments segs (Js.toLowerCase v) = Engine.matchSegments segs v.
Proof.
  induction segs as [|seg rest IH]; intros v.
  - cbn [Engine.matchSegments]. destruct v; reflexivity.
  - cbn [Engine.matchSegments]. apply anyThen_lower. intros w.
    rewrite stripPrefixCI_lower_value.
    destruct (Engine.stripPrefixCI seg w); [apply IH | reflexivity].
Qed.

Lemma matchSegments_lower_segs (segs : list string) :
  forall v, Engine.matchSegments (map Js.toLowerCase segs) v = Engine.matchSegments segs v.
Proof.
  induction segs as [|seg rest IH]; intros v; [reflexivity|].
  cbn [map Engine.matchSegments]. apply anyThen_ext. intros w.
  rewrite stripPrefixCI_lower_seg.
  destruct (Engine.stripPrefixCI seg w); [apply IH | reflexivity].
Qed.

(** X9 (matchWildcard): for a value and a pattern of ASCII characters,
    matching ignores the case of the letters on both sides: lower-casing
    the value, or the pattern, changes no answer. *)
Theorem matchWildcard_ignores_case (value pattern : string) :
  isAscii value = true -> isAscii pattern = true ->
  Matchers.matchWildcard (Js.toLowerCase value) pattern
  = Matchers.matchWildcard value pattern
  /\ Matchers.matchWildcard value (Js.toLowerCase pattern)
     = Matchers.matchWildcard value pattern.
Proof.
  intros _ _. unfold Matchers.matchWildcard. split.
  - rewrite toLowerCase_idem.
    destruct (negb (Js.includes pattern "*")); [reflexivity|].
    destruct (Js.split "*" pattern) as [|seg rest]; [reflexivity|].
    rewrite stripPrefixCI_lower_value.
    destruct (Engine.stripPrefixCI seg value); [apply matchSegments_lower_value | reflexivity].
  - rewrite toLowerCase_idem.
    change "*" with (Js.str1 "*"%char). rewrite !includes_char, lacks_star_lower.
    destruct (negb (negb (lacks "*"%char pattern))); [reflexivity|].
    unfold Js.split. pose proof (split_star_lower pattern "") as Hs.
    change (Js.toLowerCase "") with "" in Hs. rewrite Hs.
    destruct (Js.split_go (Js.str1 "*"%char) 0 "" pattern) as [|seg rest]; [reflexivity|].
    cbn [map]. rewrite stripPrefixCI_lower_seg.
    destruct (Engine.stripPrefixCI seg value); [apply matchSegments_lower_segs | reflexivity].
Qed.

(** *** Ranges *)

Lemma is_nan_spec (a : float) :
  PrimFloat.is_nan a = true <-> Prim2SF a = S754_nan.
Proof.
  unfold PrimFloat.is_nan. rewrite FloatAxioms.eqb_spec. unfold SFeqb.
  destruct (Prim2SF a) as [s | s | | s m e] eqn:E; split; try discriminate; try reflexivity.
  - destruct s; discriminate.
  - simpl. rewrite Z.compare_refl, Pos.compare_cont_refl. destruct s; discriminate.
Qed.

Lemma ltb_nan (a b : float) :
  PrimFloat.is_nan a = true -> PrimFloat.ltb a b = false /\ PrimFloat.ltb b a = false.
Proof.
  intros H. apply is_nan_spec in H. rewrite !ltb_spec. unfold SFltb. rewrite H.
  split; [reflexivity|]. destruct (Prim2SF b) as [s | s | | s m e]; reflexivity.
Qed.

Lemma ltb_negb_leb (a b : float) :
  PrimFloat.is_nan a = false -> PrimFloat.is_nan b = false ->
  PrimFloat.ltb a b = negb (PrimFloat.leb b a).
Proof.
  intros Ha Hb. rewrite ltb_spec, leb_spec. unfold SFltb, SFleb.
  rewrite (SFcompare_antisym (Prim2SF a) (Prim2SF b)).
  destruct (not_nan_compare a b Ha Hb) as [c ->]. simpl.
  destruct c; reflexivity.
Qed.

(** X11 (inRange): an absent value is in no range.  Between numbers the
    test is [min <= value <= max], each bound optional.  A value that is
    NaN passes every range, because both comparisons with it are false. *)
Theorem inRange_bounds (v lo hi : float) (min max : option float) :
  Matchers.inRange None min max = false
  /\ (PrimFloat.is_nan v = false -> PrimFloat.is_nan lo = false ->
      PrimFloat.is_nan hi = false ->
      Matchers.inRange (Some v) (Some lo) (Some hi)
      = PrimFloat.leb lo v && PrimFloat.leb v hi)
  /\ (PrimFloat.is_nan v = false -> PrimFloat.is_nan lo = false ->
      Matchers.inRange (Some v) (Some lo) None = PrimFloat.leb lo v)
  /\ (PrimFloat.is_nan v = false -> PrimFloat.is_nan hi = false ->
      Matchers.inRange (Some v) None (Some hi) = PrimFloat.leb v hi)
  /\ Matchers.inRange (Some v) None None = true
  /\ (PrimFloat.is_nan v = true -> Matchers.inRange (Some v) min max = true).
Proof.
  unfold Matchers.inRange. repeat split.
  - intros Hv Hlo Hhi. rewrite (ltb_negb_leb v lo Hv Hlo), (ltb_negb_leb hi v Hhi Hv).
    destruct (PrimFloat.leb lo v), (PrimFloat.leb v hi); reflexivity.
  - intros Hv Hlo. rewrite (ltb_negb_leb v lo Hv Hlo).
    destruct (PrimFloat.leb lo v); reflexivity.
  - intros Hv Hhi. rewrite (ltb_negb_leb hi v Hhi Hv).
    destruct (PrimFloat.leb v hi); reflexivity.
  - intros Hv. destruct min as [m|], max as [m'|];
      rewrite ?(proj1 (ltb_nan v _ Hv)), ?(proj2 (ltb_nan v _ Hv)); reflexivity.
Qed.

End MatcherFacts.

Lemma matchWildcard_affix_witness :
  Matchers.matchWildcard "sub.Evil.com" ("*" ++ ".evil.com") = true
  <-> exists pre post : string,
        "sub.Evil.com" = (pre ++ post)%string
        /\ noBreak pre = true
        /\ Js.toLowerCase post = Js.toLowerCase ".evil.com".
Proof.
  refine (proj1 (matchWildcard_affix "sub.Evil.com" ".evil.com" _ _ _)); reflexivity.
Defined.

(** ** Buckets and their counts *)

Section BucketFacts.
Context (rt : Runtime).

Lemma fold_left_same {A B : Type} (f g : A -> B -> A) (l : list B) :
  (forall a x, f a x = g a x) -> forall a, fold_left f l a = fold_left g l a.
Proof.
  intros H. induction l as [|x l IH]; intros a; [reflexivity|].
  cbn [fold_left]. now rewrite H, IH.
Qed.

Lemma fold_left_count {R : Type} (l : list R) :
  forall n, fold_left (fun (k : nat) (_ : R) => k + 1) l n = n + List.length l.
Proof.
  induction l as [|x l IH]; intros n; cbn [fold_left List.length]; [lia|].
  rewrite IH. lia.
Qed.

Lemma NoDup_firstn {A : Type} (n : nat) (l : list A) : NoDup l -> NoDup (firstn n l).
Proof.
  intros H. rewrite <- (firstn_skipn n l) in H. now apply NoDup_app_remove_r in H.
Qed.

(** What is kept of the buckets after sorting and cutting: distinct keys,
    each with the count the loop gave it. *)
Lemma kept_buckets {V : Type} (cmp : string * V -> string * V -> float) (fin : Z)
    (m : list (string * V)) :
  NoDup (map fst m) ->
  NoDup (map fst (Js.slice0 fin (Js.sort cmp m)))
  /\ (forall e, In e (Js.slice0 fin (Js.sort cmp m)) -> In e m)
  /\ List.length (Js.slice0 fin (Js.sort cmp m))
     = (if (fin <? 0)%Z
        then Nat.min (Z.to_nat (Z.max (Z.of_nat (List.length m) + fin) 0)) (List.length m)
        else Nat.min (Z.to_nat fin) (List.length m)).
Proof.
  intros Hm. split; [|split].
  - destruct (slice0_firstn fin (Js.sort cmp m)) as [n ->].
    rewrite <- firstn_map. apply NoDup_firstn.
    apply (Permutation_NoDup (l := map fst m)); [|exact Hm].
    apply Permutation_map, sort_perm.
  - intros e He. apply In_slice0 in He. now apply sort_In in He.
  - unfold Js.slice0. rewrite sort_length.
    destruct (fin <? 0)%Z; now rewrite length_firstn, sort_length.
Qed.

Lemma existsb_keys {V : Type} (k : string) (m : list (string * V)) :
  existsb (String.eqb k) (map fst m)
  = match Js.mapGet k m with Some _ => true | None => false end.
Proof.
  induction m as [|[k' v] m IH]; [reflexivity|].
  cbn [map fst existsb Js.mapGet]. rewrite String.eqb_sym.
  destruct (k' =? k)%string; [reflexivity | exact IH].
Qed.

(** The keys of a grouping loop are the distinct keys of the selected
    records, in the order of their first occurrence. *)
Lemma group_keys {R V : Type} (sel : R -> bool) (keyOf : R -> string)
    (upd : V -> R -> V) (init : V) (rs : list R) :
  map fst (fold_left (groupStep sel keyOf upd init) rs [])
  = distinct String.eqb (map keyOf (filter sel rs)).
Proof.
  unfold distinct.
  change (@nil string) with (map fst (@nil (string * V))).
  generalize (@nil (string * V)) as m.
  induction rs as [|r rs IH]; intros m; [reflexivity|].
  cbn [fold_left filter]. rewrite IH. unfold groupStep.
  destruct (sel r); [|reflexivity].
  cbn [map fold_left]. f_equal.
  rewrite mapSet_keys. unfold Js.setAdd. rewrite existsb_keys.
  destruct (Js.mapGet (keyOf r) m); reflexivity.
Qed.

Lemma groupCount_step (field : string) :
  Aggregation.groupCount rt field
  = groupStep (fun _ => true) (bucketOf rt field) (fun (n : nat) _ => n + 1) 0.
Proof. reflexivity. Qed.

Lemma groupCount_In (field k : string) (n : nat) (records : list ZeekRecord) :
  In (k, n) (fold_left (Aggregation.groupCount rt field) records [])
  -> n = List.length (filter (fun r => (bucketOf rt field r =? k)%string) records)
     /\ 1 <= n.
Proof.
  rewrite groupCount_step, group_In, fold_left_count. unfold members. cbn [andb].
  intros [Hne ->]. split; [reflexivity|].
  destruct (filter _ records); [congruence | simpl; lia].
Qed.

(** X13 (groupBy): the groups that [groupBy] lists have distinct keys, and
    the count of each is the number of records whose value falls in its
    bucket, which is at least one; absent and null values, and the text
    ["(unset)"] itself, share one bucket.  With a limit that is not
    negative, the list has the limit's length or the number of buckets,
    whichever is smaller; the default limit is 20. *)
Theorem groupBy_buckets (records : list ZeekRecord) (field : string) (limit : option Z) :
  NoDup (map Aggregation.key (Aggregation.groups (Aggregation.groupBy rt records field limit)))
  /\ (forall g, In g (Aggregation.groups (Aggregation.groupBy rt records field limit)) ->
        Aggregation.count g
        = List.length (filter (fun r => (bucketOf rt field r =? Aggregation.key g)%string)
                         records)
        /\ 1 <= Aggregation.count g)
  /\ (forall n, limit = Some n -> (0 <= n)%Z ->
        List.length (Aggregation.groups (Aggregation.groupBy rt records field limit))
        = Nat.min (Z.to_nat n)
            (List.length (distinct String.eqb (map (bucketOf rt field) records))))
  /\ (limit = None ->
        List.length (Aggregation.groups (Aggregation.groupBy rt records field limit))
        = Nat.min 20 (List.length (distinct String.eqb (map (bucketOf rt field) records)))).
Proof.
  unfold Aggregation.groupBy. cbn [Aggregation.groups].
  set (counts := fold_left (Aggregation.groupCount rt field) records []).
  set (fin := match limit with Some n => n | None => 20%Z end).
  assert (Hnd : NoDup (map fst counts)).
  { unfold counts. rewrite groupCount_step. apply group_NoDup. constructor. }
  destruct (kept_buckets Aggregation.byCountDesc fin counts Hnd) as (Hkeys & Hin & Hlen).
  assert (Hcount : List.length counts
                   = List.length (distinct String.eqb (map (bucketOf rt field) records))).
  { rewrite <- (length_map fst counts). unfold counts.
    rewrite groupCount_step, group_keys, filter_all. reflexivity. }
  rewrite <- Hcount.
  split; [|split; [|split]].
  - rewrite map_map. cbn [Aggregation.key]. exact Hkeys.
  - intros g Hg. apply in_map_iff in Hg. destruct Hg as ([k n] & <- & He).
    cbn [Aggregation.count Aggregation.key fst snd].
    apply Hin in He. now apply groupCount_In in He.
  - intros n -> Hn. rewrite length_map, Hlen. unfold fin.
    replace (n <? 0)%Z with false by (symmetry; apply Z.ltb_ge; lia). reflexivity.
  - intros ->. rewrite length_map, Hlen. reflexivity.
Qed.

Lemma topStep_step (field : string) (counts : list (string * nat)) (record : ZeekRecord) :
  Counting.topStep rt field counts record
  = groupStep (present field) (printed rt field) (fun (n : nat) _ => n + 1) 0 counts record.
Proof.
  unfold Counting.topStep, groupStep, present, printed.
  destruct (Aggregation.getNestedValue record field); reflexivity.
Qed.

Lemma topStep_In (field k : string) (n : nat) (records : list ZeekRecord) :
  In (k, n) (fold_left (Counting.topStep rt field) records [])
  -> n = List.length (filter (fun r => present field r && (printed rt field r =? k)%string)
                        records)
     /\ 1 <= n.
Proof.
  rewrite (fold_left_same _ _ records (topStep_step field)).
  rewrite group_In, fold_left_count. unfold members.
  intros [Hne ->]. split; [reflexivity|].
  destruct (filter _ records); [congruence | simpl; lia].
Qed.

(** The set that [countUnique] builds is the set of keys that [topN]
    counts. *)
Lemma unique_keys (field : string) (records : list ZeekRecord) :
  forall m : list (string * nat),
    fold_left (Counting.uniqueStep rt field) records (map fst m)
    = map fst (fold_left (Counting.topStep rt field) records m).
Proof.
  induction records as [|r rs IH]; intros m; [reflexivity|].
  cbn [fold_left]. rewrite <- IH. f_equal.
  unfold Counting.uniqueStep, Counting.topStep.
  destruct (Aggregation.getNestedValue r field); try reflexivity;
    rewrite mapSet_keys; unfold Js.setAdd; rewrite existsb_keys;
    destruct (Js.mapGet _ m); reflexivity.
Qed.

Lemma countUnique_buckets (field : string) (records : list ZeekRecord) :
  Counting.countUnique rt records field
  = List.length (fold_left (Counting.topStep rt field) records []).
Proof.
  unfold Counting.countUnique.
  change (@nil string) with (map fst (@nil (string * nat))).
  rewrite (unique_keys field records []). apply length_map.
Qed.

Lemma group_length {R V : Type} (sel : R -> bool) (keyOf : R -> string)
    (upd : V -> R -> V) (init : V) (rs : list R) :
  forall m, List.length (fold_left (groupStep sel keyOf upd init) rs m)
            <= List.length m + List.length rs.
Proof.
  induction rs as [|r rs IH]; intros m; cbn [fold_left List.length]; [lia|].
  etransitivity; [apply IH|].
  unfold groupStep. destruct (sel r); [|lia].
  rewrite <- (length_map fst (Js.mapSet _ _ m)), mapSet_keys.
  destruct (Js.mapGet (keyOf r) m); rewrite ?length_app, length_map; simpl; lia.
Qed.

(** X14 (topN, countUnique): the entries of [topN] have distinct values;
    the count of each is the number of records that have a value for the
    field and print it as the entry's value, and is at least one; records
    without a value are not counted.  [countUnique] is the number of such
    values, it is at most the number of records, and [topN] returns [n] of
    them or all, whichever is less (10 by default). *)
Theorem topN_entries (records : list ZeekRecord) (field : string) (n : option Z) :
  NoDup (map Counting.value (Counting.topN rt records field n))
  /\ (forall e, In e (Counting.topN rt records field n) ->
        Counting.count e
        = List.length
            (filter (fun r => present field r
                              && (printed rt field r =? Counting.value e)%string) records)
        /\ 1 <= Counting.count e)
  /\ (forall k, n = Some k -> (0 <= k)%Z ->
        List.length (Counting.topN rt records field n)
        = Nat.min (Z.to_nat k) (Counting.countUnique rt records field))
  /\ (n = None ->
        List.length (Counting.topN rt records field n)
        = Nat.min 10 (Counting.countUnique rt records field))
  /\ Counting.countUnique rt records field
     = List.length (distinct String.eqb
                      (map (printed rt field) (filter (present field) records)))
  /\ Counting.countUnique rt records field <= List.length records.
Proof.
  rewrite countUnique_buckets. unfold Counting.topN.
  set (counts := fold_left (Counting.topStep rt field) records []).
  set (fin := match n with Some k => k | None => 10%Z end).
  assert (Hcounts : counts
                    = fold_left (groupStep (present field) (printed rt field)
                                   (fun (n : nat) _ => n + 1) 0) records []).
  { apply fold_left_same, topStep_step. }
  assert (Hnd : NoDup (map fst counts)).
  { rewrite Hcounts. apply group_NoDup. constructor. }
  destruct (kept_buckets Aggregation.byCountDesc fin counts Hnd) as (Hkeys & Hin & Hlen).
  split; [|split; [|split; [|split; [|split]]]].
  - rewrite map_map. cbn [Counting.value]. exact Hkeys.
  - intros e He. apply in_map_iff in He. destruct He as ([k c] & <- & He).
    cbn [Counting.count Counting.value fst snd].
    apply Hin in He. now apply topStep_In in He.
  - intros k -> Hk. rewrite length_map, Hlen. unfold fin.
    replace (k <? 0)%Z with false by (symmetry; apply Z.ltb_ge; lia). reflexivity.
  - intros ->. rewrite length_map, Hlen. reflexivity.
  - rewrite <- (length_map fst counts), Hcounts, group_keys. reflexivity.
  - rewrite Hcounts.
    apply (group_length (present field) (printed rt field) (fun (n : nat) _ => n + 1) 0
             records []).
Qed.

End BucketFacts.

(** ** Field paths *)

Section PathFacts.

(** X12 (getNestedValue): how a field name is resolved.  A name that is a
    key of the record gives the value of that key, dots in the name or
    not; a name without a dot is a plain lookup; for a dotted name that is
    no key, the part before the first dot is looked up in the record and
    the rest is walked from there. *)
Theorem getNestedValue_paths (record : ZeekRecord) (field a rest : string) :
  (Val.hasProp field record = true ->
   Aggregation.getNestedValue record field = Val.prop field record)
  /\ (lacks "."%char field = true ->
      Aggregation.getNestedValue record field = Val.prop field record)
  /\ (lacks "."%char a = true ->
      Val.hasProp (a ++ "." ++ rest) record = false ->
      Aggregation.getNestedValue record (a ++ "." ++ rest)
      = Aggregation.walk (Js.split "." rest) (Val.prop a record)).
Proof.
  unfold Aggregation.getNestedValue. split; [|split].
  - intros ->. reflexivity.
  - intros Hdot. destruct (Val.hasProp field record); [reflexivity|].
    change "." with (Js.str1 "."%char). rewrite split_piece_end by exact Hdot.
    reflexivity.
  - intros Hdot ->.
    change (a ++ "." ++ rest)%string with (a ++ String "."%char rest)%string.
    change "." with (Js.str1 "."%char). rewrite split_piece by exact Hdot.
    reflexivity.
Qed.

End PathFacts.

Lemma getNestedValue_paths_witness :
  Aggregation.getNestedValue
    [("id.orig_h", VStr "10.0.0.1"); ("id", VObj [("orig_h", VStr "10.9.9.9")])] "id.orig_h"
  = Val.prop "id.orig_h"
      [("id.orig_h", VStr "10.0.0.1"); ("id", VObj [("orig_h", VStr "10.9.9.9")])].
Proof.
  refine (proj1 (getNestedValue_paths
                   [("id.orig_h", VStr "10.0.0.1"); ("id", VObj [("orig_h", VStr "10.9.9.9")])]
                   "id.orig_h" "" "") _).
  reflexivity.
Defined.

(** ** Encodings that are not detected *)

Section EncodingFacts.

Lemma base64Tail_chars (s : string) :
  Entropy.base64Tail s = true ->
  forall c, In c (list_ascii_of_string s) -> Entropy.isBase64Char c = true \/ c = "="%char.
Proof.
  induction s as [|x s IH]; intros H c Hc; [destruct Hc|].
  cbn [Entropy.base64Tail] in H. rewrite !orb_true_iff, andb_true_iff in H.
  destruct H as [[[Hx Hs] | H] | H].
  - destruct Hc as [<- | Hc]; [now left | now apply IH].
  - apply String.eqb_eq in H. injection H as -> ->.
    destruct Hc as [<- | []]. now right.
  - apply String.eqb_eq in H. injection H as -> ->.
    destruct Hc as [<- | [<- | []]]; now right.
Qed.

Lemma base64Re_chars (s : string) :
  Entropy.base64Re s = true ->
  forall c, In c (list_ascii_of_string s) -> Entropy.isBase64Char c = true \/ c = "="%char.
Proof.
  destruct s as [|x s]; [discriminate|].
  cbn [Entropy.base64Re]. rewrite andb_true_iff. intros [Hx Hs] c [<- | Hc].
  - now left.
  - now apply (base64Tail_chars s Hs).
Qed.

(** X23 (detectEncoding): what is reported as no encoding, and what as
    the other one.  A text of at most ten characters is never classified.
    A text with a character outside [A-Za-z0-9+/=], such as the [-] and
    [_] of URL-safe base64, is never classified.  A text of more than ten
    hexadecimal digits whose length is odd is reported as base64. *)
Theorem detectEncoding_edges (s : string) :
  ((String.length s <= 10)%nat -> Entropy.detectEncoding s = None)
  /\ ((exists c, In c (list_ascii_of_string s)
                 /\ Entropy.isBase64Char c = false /\ c <> "="%char) ->
      Entropy.detectEncoding s = None)
  /\ (s <> "" -> forallb Entropy.isHexDigit (list_ascii_of_string s) = true ->
      (10 < String.length s)%nat -> Nat.even (String.length s) = false ->
      Entropy.detectEncoding s = Some Entropy.Base64).
Proof.
  split; [|split].
  - intros Hlen. unfold Entropy.detectEncoding.
    replace (10 <? String.length s)%nat with false by (symmetry; apply Nat.ltb_ge; lia).
    now rewrite !andb_false_r.
  - intros (c & Hc & Hb & Heq).
    assert (H64 : Entropy.base64Re s = false).
    { destruct (Entropy.base64Re s) eqn:E; [|reflexivity].
      destruct (base64Re_chars s E c Hc); congruence. }
    assert (Hhex : Entropy.hexRe s = false).
    { rewrite hexRe_forallb. destruct s as [|x s']; [reflexivity|]. cbn [String.eqb negb andb].
      destruct (forallb Entropy.isHexDigit (list_ascii_of_string (String x s'))) eqn:E;
        [|reflexivity].
      rewrite forallb_forall in E. specialize (E c Hc).
      apply hexDigit_is_base64Char in E. congruence. }
    unfold Entropy.detectEncoding. now rewrite H64, Hhex.
  - intros Hne Hhex Hlen Hodd. rewrite detectEncoding_hexCondition.
    unfold hexCondition. rewrite Hodd, andb_false_r.
    replace (10 <? String.length s)%nat with true by (symmetry; apply Nat.ltb_lt; lia).
    destruct s as [|x s']; [congruence|].
    cbn [Entropy.base64Re]. cbn [list_ascii_of_string forallb] in Hhex.
    apply andb_true_iff in Hhex. destruct Hhex as [Hx Hs].
    rewrite (hexDigit_is_base64Char x Hx), (base64Tail_of_hex s' Hs). reflexivity.
Qed.

End EncodingFacts.

Lemma detectEncoding_edges_witness :
  Entropy.detectEncoding "aGVsbG8td29ybGQ_dGhpcw" = None
  /\ Entropy.detectEncoding "48656c6c6f576f726c6" = Some Entropy.Base64.
Proof.
  split.
  - refine (proj1 (proj2 (detectEncoding_edges "aGVsbG8td29ybGQ_dGhpcw")) _).
    exists "_"%char. repeat split; [simpl; tauto | discriminate].
  - refine (proj2 (proj2 (detectEncoding_edges "48656c6c6f576f726c6")) _ _ _ _);
      [discriminate | reflexivity | simpl; lia | reflexivity].
Defined.

(** ** Beacon candidates *)

Section CandidateFacts.
Context (rt : Runtime).





End CandidateFacts.

(** ** The configuration *)

Section ConfigFacts.

Lemma getConfig_inr (env : string -> option string) (config : Engine.ZeekConfig) :
  Config.getConfig env = inr config ->
  (Engine.logFormat config = "json" \/ Engine.logFormat config = "tsv")
  /\ (1 <= Engine.maxResults config)%Z
  /\ Js.parseInt (match env "ZEEK_MAX_RESULTS" with Some v => v | None => "1000" end) 10
     = Some (Engine.maxResults config)
  /\ Engine.logFormat config
     = match env "ZEEK_LOG_FORMAT" with Some v => v | None => "json" end
  /\ Engine.logDir config
     = match env "ZEEK_LOG_DIR" with Some v => v | None => "/opt/zeek/logs/current" end
  /\ Engine.logArchive config
     = match env "ZEEK_LOG_ARCHIVE" with Some v => v | None => "/opt/zeek/logs" end.
Proof.
  unfold Config.getConfig.
  set (fmt := match env "ZEEK_LOG_FORMAT" with Some v => v | None => "json" end).
  destruct (negb (fmt =? "json")%string && negb (fmt =? "tsv")%string) eqn:Hfmt;
    [discriminate|].
  destruct (Js.parseInt _ 10) as [n|]; [|discriminate].
  destruct (n <? 1)%Z eqn:Hn; [discriminate|].
  intros H. injection H as <-. cbn [Engine.logFormat Engine.maxResults Engine.logDir
                                     Engine.logArchive].
  repeat split; try reflexivity.
  - apply andb_false_iff in Hfmt. rewrite !negb_false_iff in Hfmt.
    destruct Hfmt as [H | H]; apply String.eqb_eq in H; auto.
  - apply Z.ltb_ge in Hn. lia.
Qed.

(** X18 (getConfig, executeQuery): a configuration that [getConfig] returns
    has the log format ["json"] or ["tsv"] and a ceiling of at least one
    result.  Under such a configuration a query whose limit is left out
    or is not negative returns at most the smaller of its limit and the
    ceiling.  With no variable set the configuration is the default one,
    with the ceiling 1000. *)
Theorem getConfig_validated (env : string -> option string) (config : Engine.ZeekConfig) :
  Config.getConfig env = inr config ->
  (Engine.logFormat config = "json" \/ Engine.logFormat config = "tsv")
  /\ (1 <= Engine.maxResults config)%Z
  /\ (forall (rt : Runtime) (options : Engine.QueryOptions) (records : list ZeekRecord),
        limitNotNegative options ->
        (Z.of_nat (List.length (Engine.executeQuery rt config options records))
         <= Z.min (requestedLimit options) (Engine.maxResults config))%Z)
  /\ Config.getConfig (envOf []) = inr ceilingThousand.
Proof.
  intros H. destruct (getConfig_inr env config H) as (Hfmt & Hmax & _).
  split; [exact Hfmt|]. split; [exact Hmax|]. split; [|reflexivity].
  intros rt options records Hlim. unfold Engine.executeQuery.
  fold (requestedLimit options). apply slice0_length_le.
  unfold requestedLimit. destruct (Engine.limit options) as [n|] eqn:E.
  - specialize (Hlim n E). lia.
  - lia.
Qed.

Lemma digits_stop (ds : string) (c : ascii) (rest : string) :
  Val.allDigits ds = true -> isDigit c = false ->
  forall acc, Js.digits 10 (Some acc) (ds ++ String c rest) = Some (decimal acc ds).
Proof.
  intros Hds Hc. induction ds as [|d ds IH]; intros acc.
  - cbn [String.append Js.digits decimal].
    unfold isDigit in Hc. unfold Js.digitVal. cbv zeta. rewrite Hc.
    destruct ((97 <=? Js.code c) && (Js.code c <=? 122))%Z eqn:E1.
    + replace (Js.code c - 87 <? 10)%Z with false by (symmetry; blia). reflexivity.
    + destruct ((65 <=? Js.code c) && (Js.code c <=? 90))%Z eqn:E2; [|reflexivity].
      replace (Js.code c - 55 <? 10)%Z with false by (symmetry; blia). reflexivity.
  - cbn [Val.allDigits] in Hds. apply andb_true_iff in Hds. destruct Hds as [Hd Hds].
    destruct (digitVal_digit d Hd) as [Hv Hr].
    cbn [String.append Js.digits decimal]. rewrite Hv.
    replace (Js.code d - 48 <? 10)%Z with true by (symmetry; blia).
    now apply IH.
Qed.

(** [parseInt] reads the leading decimal numeral and ignores what follows
    it. *)
Lemma parseInt_leading (ds : string) (c : ascii) (rest : string) :
  isNumeral ds = true -> isDigit c = false ->
  Js.parseInt (ds ++ String c rest) 10 = Some (decimal 0 ds).
Proof.
  unfold isNumeral. rewrite andb_true_iff, negb_true_iff. intros [Hne Hds] Hc.
  destruct ds as [|d ds]; [discriminate|].
  pose proof Hds as Hds'.
  cbn [Val.allDigits] in Hds. apply andb_true_iff in Hds. destruct Hds as [Hd Htail].
  destruct (digit_not_sign d Hd) as [Hm Hp].
  destruct (digitVal_digit d Hd) as [Hv Hr].
  unfold Js.parseInt. cbn [String.append Js.trimStart]. rewrite (digit_not_white d Hd).
  assert (Hsign : match String d (ds ++ String c rest) with
                  | String "-"%char r => (true, r)
                  | String "+"%char r => (false, r)
                  | _ => (false, String d (ds ++ String c rest))
                  end = (false, String d (ds ++ String c rest))).
  { destruct d as [[] [] [] [] [] [] [] []]; try reflexivity; congruence. }
  rewrite Hsign. change (10 =? 16)%Z with false. cbv iota.
  cbn [Js.digits]. rewrite Hv.
  replace (Js.code d - 48 <? 10)%Z with true by (symmetry; blia).
  rewrite (digits_stop ds c rest Htail Hc). reflexivity.
Qed.

(** X19 (getConfig): the ceiling is read by [parseInt], so a value of
    [ZEEK_MAX_RESULTS] that begins with a decimal numeral is accepted
    whatever follows the numeral, and the ceiling is the numeral alone:
    ["500abc"] gives 500, ["1e3"] gives 1 and ["2.9"] gives 2 (the
    numeral being below [2^53], so that the number holds it exactly).  A
    value whose numeral is 0 is rejected. *)
Theorem getConfig_leading_numeral
    (env : string -> option string) (ds : string) (c : ascii) (rest : string) :
  env "ZEEK_LOG_FORMAT" = None ->
  env "ZEEK_MAX_RESULTS" = Some (ds ++ String c rest)%string ->
  isNumeral ds = true -> isDigit c = false ->
  ((1 <= decimal 0 ds < 2 ^ 53)%Z ->
   exists config, Config.getConfig env = inr config
                  /\ Engine.maxResults config = decimal 0 ds)
  /\ (decimal 0 ds = 0%Z -> exists message, Config.getConfig env = inl message).
Proof.
  intros Hfmt Hmax Hds Hc. unfold Config.getConfig. rewrite Hfmt, Hmax.
  rewrite (parseInt_leading ds c rest Hds Hc). cbn [String.eqb negb andb].
  change (negb ("json" =? "json")%string && negb ("json" =? "tsv")%string) with false.
  cbv iota. split.
  - intros Hge. replace (decimal 0 ds <? 1)%Z with false by (symmetry; apply Z.ltb_ge; lia).
    eexists. split; reflexivity.
  - intros ->. cbn [Z.ltb Z.compare]. eexists. reflexivity.
Qed.

End ConfigFacts.

Lemma getConfig_validated_witness :
  (Engine.logFormat ceilingThousand = "json" \/ Engine.logFormat ceilingThousand = "tsv")
  /\ (1 <= Engine.maxResults ceilingThousand)%Z.
Proof.
  destruct (getConfig_validated (envOf []) ceilingThousand eq_refl) as (H1 & H2 & _).
  split; [exact H1 | exact H2].
Defined.

Lemma getConfig_leading_numeral_witness :
  exists config,
    Config.getConfig (envOf [("ZEEK_MAX_RESULTS", "500abc")]) = inr config
    /\ Engine.maxResults config = decimal 0 "500".
Proof.
  refine (proj1 (getConfig_leading_numeral (envOf [("ZEEK_MAX_RESULTS", "500abc")])
                   "500" "a"%char "bc" _ _ _ _) _);
    try reflexivity.
  split; [vm_compute; discriminate | reflexivity].
Defined.

(** ** The time window of a query *)

Section WindowFacts.
Context (rt : Runtime) (dateSeconds : string -> float).

(** X17 (queryLog): the time window.  A record that is returned is one of
    the records read, and its timestamp is neither before the start nor
    after the end given.  A bound that is left out, is empty, or is no
    date (NaN) excludes nothing, and a record whose timestamp is missing
    or is no number is always returned. *)
Theorem queryLog_window (timeFrom timeTo : option string) (allRecords : list ZeekRecord) :
  (forall r, In r (Parser.queryLog rt dateSeconds timeFrom timeTo allRecords) ->
     In r allRecords
     /\ (forall s, timeFrom = Some s -> s <> "" ->
           PrimFloat.ltb (Val.toNumber rt (Val.prop "ts" r)) (dateSeconds s) = false)
     /\ (forall s, timeTo = Some s -> s <> "" ->
           PrimFloat.ltb (dateSeconds s) (Val.toNumber rt (Val.prop "ts" r)) = false))
  /\ (forall r, In r allRecords ->
        PrimFloat.is_nan (Val.toNumber rt (Val.prop "ts" r)) = true ->
        In r (Parser.queryLog rt dateSeconds timeFrom timeTo allRecords))
  /\ ((forall s, timeFrom = Some s -> s <> "" -> PrimFloat.is_nan (dateSeconds s) = true) ->
      (forall s, timeTo = Some s -> s <> "" -> PrimFloat.is_nan (dateSeconds s) = true) ->
      Parser.queryLog rt dateSeconds timeFrom timeTo allRecords = allRecords).
Proof.
  unfold Parser.queryLog. split; [|split].
  - intros r Hr. apply filter_In in Hr. destruct Hr as [Hin Hw]. split; [exact Hin|].
    unfold Parser.inWindow, Parser.bound in Hw. split.
    + intros s -> Hs. apply String.eqb_neq in Hs. rewrite Hs in Hw.
      destruct (PrimFloat.ltb _ (dateSeconds s)); [discriminate | reflexivity].
    + intros s -> Hs. apply String.eqb_neq in Hs. rewrite Hs in Hw.
      destruct (match match timeFrom with
                      | Some s0 => if (s0 =? "")%string then None else Some (dateSeconds s0)
                      | None => None
                      end with
                | Some f => PrimFloat.ltb (Val.toNumber rt (Val.prop "ts" r)) f
                | None => false
                end); [discriminate|].
      destruct (PrimFloat.ltb (dateSeconds s) _); [discriminate | reflexivity].
  - intros r Hin Hnan. apply filter_In. split; [exact Hin|].
    unfold Parser.inWindow.
    destruct (Parser.bound dateSeconds timeFrom) as [f|],
             (Parser.bound dateSeconds timeTo) as [t|];
      rewrite ?(proj1 (ltb_nan _ _ Hnan)), ?(proj2 (ltb_nan _ _ Hnan)); reflexivity.
  - intros Hfrom Hto.
    assert (Hall : forall r, Parser.inWindow rt (Parser.bound dateSeconds timeFrom)
                               (Parser.bound dateSeconds timeTo) r = true).
    { intros r. unfold Parser.inWindow, Parser.bound.
      destruct timeFrom as [s|], timeTo as [s'|];
        repeat match goal with
               | |- context [(?x =? "")%string] =>
                   let E := fresh "E" in destruct (x =? "")%string eqn:E
               end;
        repeat match goal with
               | E : (?x =? "")%string = false |- _ => apply String.eqb_neq in E
               end;
        rewrite ?(proj2 (ltb_nan _ _ (Hfrom _ eq_refl ltac:(assumption)))),
                ?(proj1 (ltb_nan _ _ (Hto _ eq_refl ltac:(assumption))));
        reflexivity. }
    induction allRecords as [|r rs IH]; [reflexivity|].
    cbn [filter]. rewrite Hall, IH. reflexivity.
Qed.

End WindowFacts.

(** ** The other anomaly detectors *)

Section SameValueFacts.

Lemma float_eqb_sym (x y : float) : PrimFloat.eqb x y = PrimFloat.eqb y x.
Proof.
  rewrite !FloatAxioms.eqb_spec. unfold SFeqb.
  rewrite (SFcompare_antisym (Prim2SF x) (Prim2SF y)).
  destruct (SFcompare (Prim2SF x) (Prim2SF y)) as [[]|]; reflexivity.
Qed.

Lemma float_eqb_not_nan (x y : float) :
  PrimFloat.eqb x y = true -> PrimFloat.is_nan x = false /\ PrimFloat.is_nan y = false.
Proof.
  intros H.
  assert (Hx : PrimFloat.is_nan x = true -> False).
  { intros Hn. apply is_nan_spec in Hn. rewrite FloatAxioms.eqb_spec, Hn in H. discriminate. }
  assert (Hy : PrimFloat.is_nan y = true -> False).
  { intros Hn. apply is_nan_spec in Hn. rewrite FloatAxioms.eqb_spec, Hn in H.
    unfold SFeqb in H. destruct (Prim2SF x); discriminate. }
  destruct (PrimFloat.is_nan x), (PrimFloat.is_nan y); tauto.
Qed.

Lemma float_eqb_trans (x y z : float) :
  PrimFloat.eqb x y = true -> PrimFloat.eqb y z = true -> PrimFloat.eqb x z = true.
Proof.
  rewrite !FloatAxioms.eqb_spec. intros Hxy Hyz.
  destruct (SFeqb_cases _ _ Hxy) as [(s & s' & Ex & Ey) | [Exy Hx]];
    destruct (SFeqb_cases _ _ Hyz) as [(t & t' & Ey' & Ez) | [Eyz Hy]].
  - rewrite Ex, Ez. reflexivity.
  - rewrite Ex, <- Eyz, Ey. reflexivity.
  - rewrite Exy, Ey', Ez. reflexivity.
  - rewrite Exy, Eyz in *. unfold SFeqb. rewrite SFcompare_refl; [reflexivity | congruence].
Qed.

Lemma sameValueZero_sym (a b : Value) : Val.sameValueZero a b = Val.sameValueZero b a.
Proof.
  destruct a, b; try reflexivity; simpl.
  - destruct b, b0; reflexivity.
  - rewrite float_eqb_sym. f_equal. apply andb_comm.
  - apply String.eqb_sym.
Qed.

Lemma sameValueZero_trans (a b c : Value) :
  Val.sameValueZero a b = true -> Val.sameValueZero b c = true ->
  Val.sameValueZero a c = true.
Proof.
  destruct a, b; try discriminate; destruct c; try discriminate; simpl; try reflexivity.
  - intros H1 H2. apply Bool.eqb_prop in H1. apply Bool.eqb_prop in H2. subst.
    apply Bool.eqb_reflx.
  - rewrite !orb_true_iff, !andb_true_iff. intros [H1 | [N1 N1']] [H2 | [N2 N2']].
    + left. eapply float_eqb_trans; eassumption.
    + apply float_eqb_not_nan in H1. destruct H1. congruence.
    + apply float_eqb_not_nan in H2. destruct H2. congruence.
    + right. split; assumption.
  - intros H1 H2. apply String.eqb_eq in H1. apply String.eqb_eq in H2. subst.
    apply String.eqb_refl.
Qed.

Lemma sameValueZero_number (x : float) : Val.sameValueZero (VNum x) (VNum x) = true.
Proof.
  simpl. destruct (PrimFloat.is_nan x) eqn:Hn; [apply orb_true_r|].
  unfold PrimFloat.is_nan in Hn. apply negb_false_iff in Hn. now rewrite Hn.
Qed.

Lemma sameValueZero_false_l (a b c : Value) :
  Val.sameValueZero a b = true -> Val.sameValueZero b c = false ->
  Val.sameValueZero a c = false.
Proof.
  intros H1 H2. destruct (Val.sameValueZero a c) eqn:E; [|reflexivity].
  rewrite sameValueZero_sym in H1.
  now rewrite (sameValueZero_trans _ _ _ H1 E) in H2.
Qed.

Lemma portGet_same (k p : Value) (m : list (Value * nat)) :
  Val.sameValueZero p k = true -> Detectors.portGet p m = Detectors.portGet k m.
Proof.
  intros H. induction m as [|[k' n] m IH]; [reflexivity|].
  cbn [Detectors.portGet]. rewrite IH.
  destruct (Val.sameValueZero k' p) eqn:E.
  - now rewrite (sameValueZero_trans _ _ _ E H).
  - rewrite sameValueZero_sym in H.
    destruct (Val.sameValueZero k' k) eqn:E'; [|reflexivity].
    now rewrite (sameValueZero_trans _ _ _ E' H) in E.
Qed.

Lemma portGet_portSet_same (k p : Value) (v : nat) (m : list (Value * nat)) :
  Val.sameValueZero p k = true ->
  Detectors.portGet k (Detectors.portSet p v m) = Some v.
Proof.
  intros H. induction m as [|[k' n] m IH].
  - cbn [Detectors.portSet Detectors.portGet]. now rewrite H.
  - cbn [Detectors.portSet]. destruct (Val.sameValueZero k' p) eqn:E.
    + cbn [Detectors.portGet]. now rewrite (sameValueZero_trans _ _ _ E H).
    + cbn [Detectors.portGet].
      destruct (Val.sameValueZero k' k) eqn:E'; [|exact IH].
      rewrite sameValueZero_sym in H.
      now rewrite (sameValueZero_trans _ _ _ E' H) in E.
Qed.

Lemma portGet_portSet_other (k p : Value) (v : nat) (m : list (Value * nat)) :
  Val.sameValueZero p k = false ->
  Detectors.portGet k (Detectors.portSet p v m) = Detectors.portGet k m.
Proof.
  intros H. induction m as [|[k' n] m IH].
  - cbn [Detectors.portSet Detectors.portGet]. now rewrite H.
  - cbn [Detectors.portSet]. destruct (Val.sameValueZero k' p) eqn:E.
    + cbn [Detectors.portGet]. now rewrite (sameValueZero_false_l _ _ _ E H).
    + cbn [Detectors.portGet]. now rewrite IH.
Qed.

Lemma portSet_keys (p : Value) (v : nat) (m : list (Value * nat)) :
  map fst (Detectors.portSet p v m) = Js.setAdd sameKey p (map fst m).
Proof.
  unfold Js.setAdd. induction m as [|[k' n] m IH]; [reflexivity|].
  cbn [Detectors.portSet map fst existsb]. unfold sameKey at 1.
  destruct (Val.sameValueZero k' p); [reflexivity|].
  cbn [map fst orb]. rewrite IH.
  destruct (existsb (sameKey p) (map fst m)); reflexivity.
Qed.

Lemma In_portGet (k : Value) (n : nat) (m : list (Value * nat)) :
  (forall s1 y s2, map fst m = s1 ++ y :: s2 -> existsb (sameKey y) s1 = false) ->
  Val.sameValueZero k k = true ->
  In (k, n) m -> Detectors.portGet k m = Some n.
Proof.
  intros Hapart Hk. induction m as [|[k' n'] m IH]; intros Hin; [destruct Hin|].
  cbn [Detectors.portGet]. destruct Hin as [Heq | Hin].
  - injection Heq as -> ->. now rewrite Hk.
  - destruct (Val.sameValueZero k' k) eqn:E.
    + exfalso. apply in_split in Hin. destruct Hin as (m1 & m2 & ->).
      assert (Heq : map fst ((k', n') :: m1 ++ (k, n) :: m2)
                    = (k' :: map fst m1) ++ k :: map fst m2).
      { cbn [map fst app]. rewrite map_app. reflexivity. }
      specialize (Hapart _ _ _ Heq).
      cbn [existsb] in Hapart. unfold sameKey at 1 in Hapart. rewrite E in Hapart.
      discriminate.
    + apply IH; [|exact Hin].
      intros s1 y s2 Hs. specialize (Hapart (k' :: s1) y s2).
      cbn [map fst] in Hapart. rewrite Hs in Hapart. specialize (Hapart eq_refl).
      cbn [existsb] in Hapart. apply orb_false_iff in Hapart. tauto.
Qed.

End SameValueFacts.

Section DetectorFacts.
Context (rt : Runtime) (toFixed1 : float -> string).

Lemma portStep_keys (records : list ZeekRecord) :
  forall m,
    map fst (fold_left (Detectors.portStep rt) records m)
    = fold_left (fun s x => Js.setAdd sameKey x s)
        (map Anomaly.portOf (filter (Detectors.unusual rt) records)) (map fst m).
Proof.
  induction records as [|r rs IH]; intros m; [reflexivity|].
  cbn [fold_left filter]. rewrite IH. unfold Detectors.portStep.
  destruct (Detectors.unusual rt r); [|reflexivity].
  cbn [map fold_left]. now rewrite portSet_keys.
Qed.

Lemma portStep_get (k : Value) (records : list ZeekRecord) :
  Detectors.portGet k (fold_left (Detectors.portStep rt) records [])
  = match connectionsTo rt k records with
    | [] => None
    | _ :: _ => Some (List.length (connectionsTo rt k records))
    end.
Proof.
  induction records as [|r rs IH] using rev_ind; [reflexivity|].
  rewrite fold_left_app. cbn [fold_left].
  unfold connectionsTo in *. rewrite filter_app. cbn [filter].
  unfold Detectors.portStep at 1.
  destruct (Detectors.unusual rt r); cbn [andb].
  - destruct (Val.sameValueZero (Anomaly.portOf r) k) eqn:Hk.
    + rewrite (portGet_portSet_same _ _ _ _ Hk), (portGet_same _ _ _ Hk), IH.
      rewrite length_app. cbn [List.length].
      destruct (filter _ rs); cbn [app List.length]; f_equal; lia.
    + rewrite (portGet_portSet_other _ _ _ _ Hk), IH, app_nil_r. reflexivity.
  - rewrite IH, app_nil_r. reflexivity.
Qed.

Lemma portStep_In (x : float) (n : nat) (records : list ZeekRecord) :
  In (VNum x, n) (fold_left (Detectors.portStep rt) records []) ->
  n = List.length (connectionsTo rt (VNum x) records).
Proof.
  intros Hin.
  apply In_portGet in Hin.
  - rewrite portStep_get in Hin.
    destruct (connectionsTo rt (VNum x) records); [discriminate|].
    now injection Hin as <-.
  - rewrite (portStep_keys records []). apply distinct_pairwise.
  - apply sameValueZero_number.
Qed.

Lemma portStep_unusual (records : list ZeekRecord) (k : Value) (n : nat) :
  In (k, n) (fold_left (Detectors.portStep rt) records []) ->
  exists r, In r records /\ Detectors.unusual rt r = true /\ Anomaly.portOf r = k.
Proof.
  intros Hin. apply (in_map fst) in Hin. cbn [fst] in Hin.
  rewrite (portStep_keys records []) in Hin. cbn [map] in Hin.
  assert (Hgen : forall (l : list Value) (s : list Value),
            In k (fold_left (fun s x => Js.setAdd sameKey x s) l s) -> In k s \/ In k l).
  { induction l as [|y l IHl]; intros s H; [now left|].
    cbn [fold_left] in H. apply IHl in H. destruct H as [H | H]; [|right; now right].
    unfold Js.setAdd in H. destruct (existsb (sameKey y) s); [now left|].
    apply in_app_or in H. destruct H as [H | [<- | []]]; [now left | right; now left]. }
  apply Hgen in Hin. destruct Hin as [[] | Hin].
  apply in_map_iff in Hin. destruct Hin as (r & <- & Hr).
  apply filter_In in Hr. exists r. tauto.
Qed.

(** X25 (detectUnusualPorts): at most ten ports are reported, each with
    the severity low.  A reported port is the port of a connection that
    has no service, is no common port and lies between 0 and 65536, and it
    was seen on more than twenty such connections; for a numeric port the
    count reported is exactly their number. *)
Theorem detectUnusualPorts_reports (records : list ZeekRecord) :
  List.length (Detectors.detectUnusualPorts rt records) <= 10
  /\ (forall a, In a (Detectors.detectUnusualPorts rt records) ->
        Detectors.type a = "unusual_port"
        /\ Detectors.severity a = Anomaly.Low
        /\ exists d, Detectors.details a = Detectors.UnusualPort d
             /\ 20 < Detectors.connectionCount d
             /\ (exists r, In r records /\ Detectors.unusual rt r = true
                           /\ Anomaly.portOf r = Detectors.port d)
             /\ (forall x, Detectors.port d = VNum x ->
                   Detectors.connectionCount d
                   = List.length (connectionsTo rt (VNum x) records)
                   /\ existsb (fun c => PrimFloat.eqb c x) Detectors.commonPorts = false
                   /\ PrimFloat.ltb 0 x = true /\ PrimFloat.ltb x 65536 = true)).
Proof.
  unfold Detectors.detectUnusualPorts. split.
  - rewrite length_map.
    pose proof (slice0_length_le 10 (Detectors.highVolumePorts rt records)). lia.
  - intros a Ha. apply in_map_iff in Ha. destruct Ha as ([k n] & <- & He).
    cbn [Detectors.unusualPortReport Detectors.type Detectors.severity Detectors.details
         fst snd].
    split; [reflexivity|]. split; [reflexivity|].
    eexists. split; [reflexivity|]. cbn [Detectors.connectionCount Detectors.port].
    apply In_slice0 in He. unfold Detectors.highVolumePorts in He.
    apply sort_In in He. apply filter_In in He. destruct He as [Hin Hn].
    cbn [snd] in Hn. apply Nat.ltb_lt in Hn.
    split; [exact Hn|].
    destruct (portStep_unusual records k n Hin) as (r & Hr & Hu & Hp).
    split; [now exists r|].
    intros x ->. split; [now apply portStep_In|].
    unfold Detectors.unusual in Hu. rewrite Hp in Hu.
    rewrite !andb_true_iff, negb_true_iff in Hu.
    destruct Hu as ((((_ & Hcommon) & Hpos) & Hmax) & _).
    cbn [Val.toNumber] in Hpos, Hmax. split; [|split; assumption].
    assert (Hx : PrimFloat.is_nan x = false).
    { destruct (PrimFloat.is_nan x) eqn:Hnan; [|reflexivity].
      rewrite (proj2 (ltb_nan x 0 Hnan)) in Hpos. discriminate. }
    assert (Hpt : forall c, Val.sameValueZero (VNum c) (VNum x) = PrimFloat.eqb c x).
    { intros c. cbn [Val.sameValueZero]. now rewrite Hx, andb_false_r, orb_false_r. }
    rewrite <- Hcommon. clear - Hpt.
    induction Detectors.commonPorts as [|c l IH]; [reflexivity|].
    cbn [existsb]. now rewrite IH, Hpt.
Qed.

Lemma bytesStep_step (srcBytes : list (string * float)) (record : ZeekRecord) :
  Detectors.bytesStep rt srcBytes record
  = groupStep sends (Anomaly.srcOf rt) (fun total r => (total + sentBytes r)%float) 0%float
      srcBytes record.
Proof.
  unfold Detectors.bytesStep, groupStep, sends, sentBytes.
  destruct (Val.prop "orig_bytes" record); reflexivity.
Qed.

Lemma exfiltrationReport_In (threshold iqr : float) (entry : string * float)
    (a : Detectors.AnomalyResult) :
  In a (Detectors.exfiltrationReport rt toFixed1 threshold iqr entry) ->
  Detectors.type a = "data_exfiltration"
  /\ Detectors.details a
     = Detectors.Exfiltration
         {| Detectors.sourceIp := fst entry; Detectors.bytesSent := snd entry;
            Detectors.threshold := threshold; Detectors.iqr := iqr |}
  /\ PrimFloat.ltb threshold (snd entry) = true
  /\ PrimFloat.ltb 104857600 (snd entry) = true
  /\ Detectors.severity a
     = (if PrimFloat.ltb 1073741824 (snd entry) then Anomaly.Critical else Anomaly.High).
Proof.
  unfold Detectors.exfiltrationReport.
  destruct (PrimFloat.ltb threshold (snd entry) && PrimFloat.ltb 104857600 (snd entry))
    eqn:E; [|intros []].
  apply andb_true_iff in E. destruct E as [E1 E2].
  intros [<- | []]. cbn. auto.
Qed.

(** X26 (detectDataExfiltration): with fewer than three sources that sent
    a positive number of bytes nothing is reported.  Each anomaly names a
    source whose bytes, added up over its records with a positive
    [orig_bytes], exceed both 100 MiB and the threshold [q3 + 3 * iqr],
    which is the same for all; its severity is critical above 1 GiB and
    high otherwise. *)
Theorem detectDataExfiltration_reports (records : list ZeekRecord) :
  (List.length (distinct String.eqb (map (Anomaly.srcOf rt) (filter sends records))) < 3 ->
   Detectors.detectDataExfiltration rt toFixed1 records = [])
  /\ (forall a, In a (Detectors.detectDataExfiltration rt toFixed1 records) ->
        Detectors.type a = "data_exfiltration"
        /\ exists d, Detectors.details a = Detectors.Exfiltration d
             /\ Detectors.bytesSent d = totalSent rt (Detectors.sourceIp d) records
             /\ PrimFloat.ltb 104857600 (Detectors.bytesSent d) = true
             /\ PrimFloat.ltb (Detectors.threshold d) (Detectors.bytesSent d) = true
             /\ Detectors.severity a
                = (if PrimFloat.ltb 1073741824 (Detectors.bytesSent d)
                   then Anomaly.Critical else Anomaly.High)
             /\ Detectors.iqr d
                = (Detectors.q3Of
                     (Detectors.sortedBytes (fold_left (Detectors.bytesStep rt) records []))
                   - Detectors.q1Of
                       (Detectors.sortedBytes (fold_left (Detectors.bytesStep rt) records [])))%float
             /\ Detectors.threshold d
                = (Detectors.q3Of
                     (Detectors.sortedBytes (fold_left (Detectors.bytesStep rt) records []))
                   + 3 * Detectors.iqr d)%float).
Proof.
  unfold Detectors.detectDataExfiltration.
  set (srcBytes := fold_left (Detectors.bytesStep rt) records []).
  assert (Hsrc : srcBytes
                 = fold_left (groupStep sends (Anomaly.srcOf rt)
                                (fun total r => (total + sentBytes r)%float) 0%float)
                     records []).
  { apply fold_left_same, bytesStep_step. }
  assert (Hlen : List.length (map snd srcBytes)
                 = List.length (distinct String.eqb
                                  (map (Anomaly.srcOf rt) (filter sends records)))).
  { rewrite length_map, <- (length_map fst srcBytes), Hsrc, group_keys. reflexivity. }
  split.
  - intros H. rewrite Hlen. apply Nat.ltb_lt in H. now rewrite H.
  - intros a Ha.
    destruct (List.length (map snd srcBytes) <? 3)%nat; [destruct Ha|].
    apply in_flat_map in Ha. destruct Ha as ([src bytes] & Hin & Ha).
    apply exfiltrationReport_In in Ha. cbn [fst snd] in Ha.
    destruct Ha as (Ht & Hd & Hthr & Hmin & Hsev).
    split; [exact Ht|]. eexists. split; [exact Hd|].
    cbn [Detectors.bytesSent Detectors.sourceIp Detectors.threshold Detectors.iqr].
    rewrite Hsrc in Hin. apply group_In in Hin. destruct Hin as [_ ->].
    repeat split; assumption || reflexivity.
Qed.

Lemma detectPortScans_kinds (records : list ZeekRecord) (a : Anomaly.AnomalyResult) :
  In a (Anomaly.detectPortScans rt records) ->
  Anomaly.type a = "port_scan"
  /\ (Anomaly.severity a = Anomaly.Medium \/ Anomaly.severity a = Anomaly.High).
Proof.
  unfold Anomaly.detectPortScans. intros Ha.
  apply in_flat_map in Ha. destruct Ha as (entry & _ & Ha).
  apply report_In in Ha. destruct Ha as (_ & Ht & _ & _ & Hs).
  split; [exact Ht|]. rewrite Hs. destruct (200 <? _)%nat; auto.
Qed.

(** X27 (detectConnectionAnomalies): the combined list is the port scans,
    then the exfiltrations, then the unusual ports, and the kind of an
    anomaly fixes the range of its severity: a port scan is medium or
    high, an exfiltration high or critical, an unusual port low. *)
Theorem detectConnectionAnomalies_kinds (records : list ZeekRecord) :
  Detectors.detectConnectionAnomalies rt toFixed1 records
  = map Detectors.ofPortScan (Anomaly.detectPortScans rt records)
    ++ Detectors.detectDataExfiltration rt toFixed1 records
    ++ Detectors.detectUnusualPorts rt records
  /\ (forall a, In a (Detectors.detectConnectionAnomalies rt toFixed1 records) ->
        (Detectors.type a = "port_scan"
         /\ (Detectors.severity a = Anomaly.Medium \/ Detectors.severity a = Anomaly.High)
         /\ exists d, Detectors.details a = Detectors.PortScan d)
        \/ (Detectors.type a = "data_exfiltration"
            /\ (Detectors.severity a = Anomaly.High
                \/ Detectors.severity a = Anomaly.Critical)
            /\ exists d, Detectors.details a = Detectors.Exfiltration d)
        \/ (Detectors.type a = "unusual_port"
            /\ Detectors.severity a = Anomaly.Low
            /\ exists d, Detectors.details a = Detectors.UnusualPort d)).
Proof.
  split; [reflexivity|].
  unfold Detectors.detectConnectionAnomalies. intros a Ha.
  apply in_app_or in Ha. destruct Ha as [Ha | Ha]; [|apply in_app_or in Ha; destruct Ha as [Ha | Ha]].
  - left. apply in_map_iff in Ha. destruct Ha as (p & <- & Hp).
    apply detectPortScans_kinds in Hp. destruct Hp as [Ht Hs].
    cbn [Detectors.ofPortScan Detectors.type Detectors.severity Detectors.details].
    repeat split; [exact Ht | exact Hs | now eexists].
  - right. left.
    unfold Detectors.detectDataExfiltration in Ha.
    destruct (List.length _ <? 3)%nat; [destruct Ha|].
    apply in_flat_map in Ha. destruct Ha as (entry & _ & Ha).
    apply exfiltrationReport_In in Ha. destruct Ha as (Ht & Hd & _ & _ & Hs).
    repeat split; [exact Ht | | eexists; exact Hd].
    rewrite Hs. destruct (PrimFloat.ltb 1073741824 (snd entry)); auto.
  - right. right.
    unfold Detectors.detectUnusualPorts in Ha.
    apply in_map_iff in Ha. destruct Ha as (e & <- & _).
    cbn [Detectors.unusualPortReport Detectors.type Detectors.severity Detectors.details].
    repeat split. now eexists.
Qed.

End DetectorFacts.

(** ** The TSV reader *)

Section TsvFacts.
Context (parseFloat : string -> float) (rt : Runtime).

Lemma prop_mapSet_same (k : string) (v : Value) (m : ZeekRecord) :
  Val.prop k (Js.mapSet k v m) = v.
Proof.
  induction m as [|[k' v'] m IH]; cbn [Js.mapSet Val.prop].
  - now rewrite String.eqb_refl.
  - destruct (k' =? k)%string eqn:E; cbn [Val.prop]; rewrite E; [reflexivity | exact IH].
Qed.

Lemma prop_mapSet_other (k k0 : string) (v : Value) (m : ZeekRecord) :
  k <> k0 -> Val.prop k0 (Js.mapSet k v m) = Val.prop k0 m.
Proof.
  intros Hne. induction m as [|[k' v'] m IH]; cbn [Js.mapSet Val.prop].
  - apply String.eqb_neq in Hne. now rewrite Hne.
  - destruct (k' =? k)%string eqn:E; cbn [Val.prop].
    + apply String.eqb_eq in E. subst k'. apply String.eqb_neq in Hne. now rewrite Hne.
    + now rewrite IH.
Qed.

Lemma hasProp_mapSet (k k0 : string) (v : Value) (m : ZeekRecord) :
  Val.hasProp k0 (Js.mapSet k v m) = (k =? k0)%string || Val.hasProp k0 m.
Proof.
  unfold Val.hasProp. induction m as [|[k' v'] m IH]; cbn [Js.mapSet existsb fst].
  - reflexivity.
  - destruct (k' =? k)%string eqn:E; cbn [existsb fst].
    + apply String.eqb_eq in E. subst k'.
      destruct (k =? k0)%string; reflexivity.
    + rewrite IH. destruct (k' =? k0)%string, (k =? k0)%string; reflexivity.
Qed.

Lemma prop_hasProp (k : string) (m : ZeekRecord) :
  Val.prop k m <> VUndefined -> Val.hasProp k m = true.
Proof.
  unfold Val.hasProp. induction m as [|[k' v'] m IH]; cbn [Val.prop existsb fst].
  - congruence.
  - destruct (k' =? k)%string; [reflexivity | exact IH].
Qed.

Lemma columns_other (header : Tsv.TsvHeader) (k : string) (fs : list string) :
  forall ts vs rec r,
    Tsv.columns parseFloat header fs ts vs rec = Some r ->
    ~ In k fs ->
    Val.prop k r = Val.prop k rec /\ Val.hasProp k r = Val.hasProp k rec.
Proof.
  induction fs as [|f fs IH]; intros ts vs rec r H Hk.
  - cbn [Tsv.columns] in H. injection H as <-. now split.
  - destruct vs as [|raw vs]; cbn [Tsv.columns] in H.
    + injection H as <-. now split.
    + assert (Hf : f <> k) by (intros ->; apply Hk; now left).
      assert (Hfs : ~ In k fs) by (intros Hin; apply Hk; now right).
      destruct (raw =? Tsv.unsetField header)%string.
      * now apply (IH _ _ _ _ H).
      * destruct ts as [|t ts]; [discriminate|].
        destruct (IH _ _ _ _ H Hfs) as [-> ->].
        rewrite prop_mapSet_other by exact Hf. rewrite hasProp_mapSet.
        apply String.eqb_neq in Hf. rewrite Hf. now split.
Qed.

Lemma columns_nth (header : Tsv.TsvHeader) (fs : list string) :
  forall ts vs rec r i f raw,
    NoDup fs ->
    Tsv.columns parseFloat header fs ts vs rec = Some r ->
    nth_error fs i = Some f -> nth_error vs i = Some raw ->
    (raw = Tsv.unsetField header ->
     Val.prop f r = Val.prop f rec /\ Val.hasProp f r = Val.hasProp f rec)
    /\ (raw <> Tsv.unsetField header ->
        exists t, nth_error ts i = Some t
                  /\ Val.prop f r = cellValue parseFloat header t raw
                  /\ Val.hasProp f r = true).
Proof.
  induction fs as [|f0 fs IH]; intros ts vs rec r i f raw Hnd H Hf Hraw.
  - destruct i; discriminate.
  - destruct vs as [|raw0 vs]; [destruct i; discriminate|].
    inversion Hnd as [|? ? Hnot Hnd']; subst.
    cbn [Tsv.columns] in H. destruct i as [|i].
    + cbn [nth_error] in Hf, Hraw. injection Hf as ->. injection Hraw as ->.
      destruct (raw =? Tsv.unsetField header)%string eqn:E.
      * apply String.eqb_eq in E. split; [|congruence].
        intros _. now apply (columns_other header f fs _ _ _ _ H).
      * apply String.eqb_neq in E. split; [congruence|]. intros _.
        destruct ts as [|t ts]; [discriminate|].
        exists t. split; [reflexivity|].
        destruct (columns_other header f fs _ _ _ _ H Hnot) as [-> ->].
        rewrite prop_mapSet_same, hasProp_mapSet, String.eqb_refl. now split.
    + cbn [nth_error] in Hf, Hraw.
      assert (Hne : f0 <> f).
      { intros ->. apply Hnot. eapply nth_error_In; eassumption. }
      destruct (raw0 =? Tsv.unsetField header)%string.
      * destruct (IH _ _ _ _ _ _ _ Hnd' H Hf Hraw) as [H1 H2]. split; [exact H1|].
        intros Hset. destruct (H2 Hset) as (t & Ht & Hv).
        exists t. split; [|exact Hv]. destruct ts; [destruct i; discriminate | exact Ht].
      * destruct ts as [|t0 ts]; [discriminate|].
        destruct (IH _ _ _ _ _ _ _ Hnd' H Hf Hraw) as [H1 H2]. split.
        -- intros Hunset. destruct (H1 Hunset) as [-> ->].
           rewrite prop_mapSet_other by exact Hne. rewrite hasProp_mapSet.
           apply String.eqb_neq in Hne. rewrite Hne. now split.
        -- intros Hset. destruct (H2 Hset) as (t & Ht & Hv). now exists t.
Qed.

Lemma columns_keys (header : Tsv.TsvHeader) (k : string) (fs : list string) :
  forall ts vs rec r,
    Tsv.columns parseFloat header fs ts vs rec = Some r ->
    Val.hasProp k r = true -> Val.hasProp k rec = true \/ In k fs.
Proof.
  induction fs as [|f fs IH]; intros ts vs rec r H Hk.
  - cbn [Tsv.columns] in H. injection H as <-. now left.
  - destruct vs as [|raw vs]; cbn [Tsv.columns] in H.
    + injection H as <-. now left.
    + destruct (raw =? Tsv.unsetField header)%string.
      * destruct (IH _ _ _ _ H Hk); [now left | right; now right].
      * destruct ts as [|t ts]; [discriminate|].
        destruct (IH _ _ _ _ H Hk) as [H' | H']; [|right; now right].
        rewrite hasProp_mapSet in H'. apply orb_true_iff in H'.
        destruct H' as [H' | H']; [|now left].
        apply String.eqb_eq in H'. right. now left.
Qed.

Lemma columns_total (header : Tsv.TsvHeader) (fs : list string) :
  forall ts vs rec,
    List.length fs <= List.length ts ->
    exists r, Tsv.columns parseFloat header fs ts vs rec = Some r.
Proof.
  induction fs as [|f fs IH]; intros ts vs rec Hlen.
  - now exists rec.
  - destruct vs as [|raw vs]; [now exists rec|].
    destruct ts as [|t ts]; [simpl in Hlen; lia|].
    cbn [Tsv.columns tl]. simpl in Hlen.
    destruct (raw =? Tsv.unsetField header)%string; apply IH; lia.
Qed.

Lemma normalizeTs_other (k : string) (r : ZeekRecord) :
  Val.hasProp k (Tsv.normalizeTs parseFloat rt r) = Val.hasProp k r
  /\ (k <> "ts" -> Val.prop k (Tsv.normalizeTs parseFloat rt r) = Val.prop k r).
Proof.
  unfold Tsv.normalizeTs.
  assert (Hset : forall v, Val.prop "ts" r <> VUndefined ->
            Val.hasProp k (Js.mapSet "ts" v r) = Val.hasProp k r
            /\ (k <> "ts" -> Val.prop k (Js.mapSet "ts" v r) = Val.prop k r)).
  { intros v Hts. split.
    - rewrite hasProp_mapSet. destruct ("ts" =? k)%string eqn:E; [|reflexivity].
      apply String.eqb_eq in E. subst k. now rewrite (prop_hasProp "ts" r Hts).
    - intros Hk. apply prop_mapSet_other. congruence. }
  destruct (Val.prop "ts" r) eqn:E; try (apply Hset; congruence). now split.
Qed.

Lemma normalizeTs_number (r : ZeekRecord) :
  Val.prop "ts" (Tsv.normalizeTs parseFloat rt r) = VUndefined
  \/ exists x, Val.prop "ts" (Tsv.normalizeTs parseFloat rt r) = VNum x.
Proof.
  unfold Tsv.normalizeTs.
  destruct (Val.prop "ts" r) eqn:E; try (right; rewrite prop_mapSet_same; now eexists).
  left. exact E.
Qed.

(** X28 (parseTsvRecord): what a data line becomes.  With distinct field
    names in the header, a column that holds the unset marker leaves its
    field out of the record, and every other column stores under its
    field name the value converted by the column's type (the empty marker
    giving the empty value of the type); [ts] apart, which is made a
    number.  The record has no field that the header does not name. *)
Theorem parseTsvRecord_columns (line : string) (header : Tsv.TsvHeader) (record : ZeekRecord) :
  Tsv.parseTsvRecord parseFloat rt line header = Tsv.Parsed record ->
  NoDup (Tsv.fields header) ->
  (forall i field raw,
      nth_error (Tsv.fields header) i = Some field ->
      nth_error (Tsv.splitBy (Tsv.separator header) line) i = Some raw ->
      (raw = Tsv.unsetField header -> Val.hasProp field record = false)
      /\ (raw <> Tsv.unsetField header ->
          Val.hasProp field record = true
          /\ exists type, nth_error (Tsv.types header) i = Some type
               /\ (field <> "ts" ->
                   Val.prop field record = cellValue parseFloat header type raw)))
  /\ (forall k, Val.hasProp k record = true -> In k (Tsv.fields header))
  /\ (Val.prop "ts" record = VUndefined \/ exists x, Val.prop "ts" record = VNum x).
Proof.
  unfold Tsv.parseTsvRecord.
  destruct (String.prefix "#" line || (Js.trimStart line =? "")%string); [discriminate|].
  destruct (Tsv.columns parseFloat header (Tsv.fields header) (Tsv.types header)
              (Tsv.splitBy (Tsv.separator header) line) []) as [r|] eqn:Hcols;
    [|discriminate].
  intros H Hnd. injection H as <-. split; [|split].
  - intros i field raw Hf Hraw.
    destruct (columns_nth header _ _ _ _ _ i field raw Hnd Hcols Hf Hraw) as [H1 H2].
    destruct (normalizeTs_other field r) as [Hh Hp]. rewrite Hh. split.
    + intros Hunset. now destruct (H1 Hunset) as [_ ->].
    + intros Hset. destruct (H2 Hset) as (t & Ht & Hv & Hhas).
      split; [exact Hhas|]. exists t. split; [exact Ht|].
      intros Hts. now rewrite (Hp Hts).
  - intros k Hk. destruct (normalizeTs_other k r) as [Hh _]. rewrite Hh in Hk.
    destruct (columns_keys header k _ _ _ _ _ Hcols Hk) as [H | H]; [discriminate | exact H].
  - apply normalizeTs_number.
Qed.

(** X29 (parseTsvRecord): when a line gives a record.  A line that begins
    with [#] or holds white space only gives [null].  For every other line
    a header with a type for each field gives a record; a header with
    fields but no type at all makes the reader throw when the first
    column of the line is set. *)
Theorem parseTsvRecord_outcomes (line : string) (header : Tsv.TsvHeader) :
  (String.prefix "#" line = true \/ Js.trimStart line = "" ->
   Tsv.parseTsvRecord parseFloat rt line header = Tsv.Null)
  /\ (String.prefix "#" line = false -> Js.trimStart line <> "" ->
      List.length (Tsv.fields header) <= List.length (Tsv.types header) ->
      exists record, Tsv.parseTsvRecord parseFloat rt line header = Tsv.Parsed record)
  /\ (String.prefix "#" line = false -> Js.trimStart line <> "" ->
      Tsv.types header = [] ->
      forall field rest raw values,
        Tsv.fields header = field :: rest ->
        Tsv.splitBy (Tsv.separator header) line = raw :: values ->
        raw <> Tsv.unsetField header ->
        Tsv.parseTsvRecord parseFloat rt line header = Tsv.Thrown).
Proof.
  unfold Tsv.parseTsvRecord. split; [|split].
  - intros [-> | ->]; [reflexivity|].
    change ("" =? "")%string with true. now rewrite orb_true_r.
  - intros -> Hne Hlen. apply String.eqb_neq in Hne. rewrite Hne. cbn [orb].
    destruct (columns_total header (Tsv.fields header) (Tsv.types header)
                (Tsv.splitBy (Tsv.separator header) line) [] Hlen) as [r ->].
    now eexists.
  - intros -> Hne Hty field rest raw values Hf Hv Hraw.
    apply String.eqb_neq in Hne. rewrite Hne. cbn [orb].
    rewrite Hf, Hv, Hty. cbn [Tsv.columns].
    apply String.eqb_neq in Hraw. now rewrite Hraw.
Qed.

End TsvFacts.

Lemma parseTsvRecord_columns_witness :
  Val.hasProp "service"
    [("ts", VNum 1706745600); ("uid", VStr "C1a2b3c4d5");
     ("id.orig_h", VStr "192.168.1.100"); ("id.orig_p", VNum 52341);
     ("id.resp_h", VStr "93.184.216.34"); ("id.resp_p", VNum 443);
     ("proto", VStr "tcp")] = false.
Proof.
  refine (proj1 (proj1 (parseTsvRecord_columns readWhole Host.runtime
                   (tabbed ["1706745600"; "C1a2b3c4d5"; "192.168.1.100"; "52341";
                            "93.184.216.34"; "443"; "tcp"; "-"; "-"])
                   connHeader _ _ _) 7 "service" "-" _ _) _).
  - reflexivity.
  - repeat constructor; simpl; intuition discriminate.
  - reflexivity.
  - reflexivity.
  - reflexivity.
Defined.

Lemma parseTsvRecord_outcomes_witness :
  Tsv.parseTsvRecord readWhole Host.runtime "#close" connHeader = Tsv.Null.
Proof.
  refine (proj1 (parseTsvRecord_outcomes readWhole Host.runtime "#close" connHeader) _).
  left. reflexivity.
Defined.

(** ** The brute-force report *)

Section KeyedFacts.
Context {R V : Type}.
Context (keyOf : R -> string) (upd : option V -> R -> V).




End KeyedFacts.

Section BruteForceFacts.
Context (rt : Runtime) (toISOString : float -> option string).





End BruteForceFacts.


(** ** More of the repository's tests, replayed on the embedding *)

Section MoreTests.

Example test_matchPartial :
  Matchers.matchPartial "Mozilla/5.0 (Windows)" "mozilla" = true
  /\ Matchers.matchPartial "python-requests/2.28" "python" = true
  /\ Matchers.matchPartial "curl/7.68.0" "wget" = false
  /\ Matchers.matchPartial "User-Agent" "user-agent" = true.
Proof. repeat split; reflexivity. Qed.

Example test_inRange :
  Matchers.inRange (Some 100%float) (Some 50%float) None = true
  /\ Matchers.inRange (Some 50%float) (Some 100%float) None = false
  /\ Matchers.inRange (Some 50%float) None (Some 100%float) = true
  /\ Matchers.inRange (Some 150%float) None (Some 100%float) = false
  /\ Matchers.inRange (Some 75%float) (Some 50%float) (Some 100%float) = true
  /\ Matchers.inRange (Some 25%float) (Some 50%float) (Some 100%float) = false
  /\ Matchers.inRange (Some 150%float) (Some 50%float) (Some 100%float) = false
  /\ Matchers.inRange None (Some 50%float) None = false.
Proof. repeat split; reflexivity. Qed.

Example test_filters_wildcard :
  Matchers.matchWildcard "sub.evil.com" "*.evil.com" = true
  /\ Matchers.matchWildcard "evil.com" "*.evil.com" = false
  /\ Matchers.matchWildcard "api.example.com" "api.*" = true
  /\ Matchers.matchWildcard "www.example.com" "www.*.com" = true.
Proof. repeat split; reflexivity. Qed.

Example test_countUnique :
  Counting.countUnique Host.runtime testRecords "id.orig_h" = 3
  /\ Counting.countUnique Host.runtime testRecords "service" = 3.
Proof. split; reflexivity. Qed.

Example test_topN :
  List.length (Counting.topN Host.runtime testRecords "service" (Some 2%Z)) = 2
  /\ nth_error (Counting.topN Host.runtime testRecords "service" (Some 2%Z)) 0
     = Some {| Counting.value := "http"; Counting.count := 3 |}.
Proof. split; reflexivity. Qed.

Example test_tsv_record (parseFloat : string -> float) :
  Tsv.parseTsvRecord parseFloat Host.runtime
    (tabbed ["1706745600.000000"; "C1a2b3c4d5"; "192.168.1.100"; "52341";
             "93.184.216.34"; "443"; "tcp"; "ssl"; "1.234"])
    connHeader
  = Tsv.Parsed
      [ ("ts", VNum (parseFloat "1706745600.000000")); ("uid", VStr "C1a2b3c4d5");
        ("id.orig_h", VStr "192.168.1.100"); ("id.orig_p", VNum 52341);
        ("id.resp_h", VStr "93.184.216.34"); ("id.resp_p", VNum 443);
        ("proto", VStr "tcp"); ("service", VStr "ssl");
        ("duration", VNum (parseFloat "1.234")) ].
Proof. reflexivity. Qed.

Example test_tsv_unset (parseFloat : string -> float) :
  Tsv.parseTsvRecord parseFloat Host.runtime
    (tabbed ["1706745600.000000"; "C1a2b3c4d5"; "192.168.1.100"; "52341";
             "93.184.216.34"; "443"; "tcp"; "-"; "-"])
    connHeader
  = Tsv.Parsed
      [ ("ts", VNum (parseFloat "1706745600.000000")); ("uid", VStr "C1a2b3c4d5");
        ("id.orig_h", VStr "192.168.1.100"); ("id.orig_p", VNum 52341);
        ("id.resp_h", VStr "93.184.216.34"); ("id.resp_p", VNum 443);
        ("proto", VStr "tcp") ].
Proof. reflexivity. Qed.

Example test_tsv_skip (parseFloat : string -> float) :
  Tsv.parseTsvRecord parseFloat Host.runtime (tabbed ["#close"; "2024-02-01"]) connHeader
  = Tsv.Null
  /\ Tsv.parseTsvRecord parseFloat Host.runtime "" connHeader = Tsv.Null.
Proof. split; reflexivity. Qed.

Example test_tsv_collections (parseFloat : string -> float) :
  Tsv.convertValue parseFloat "HTTP,SSL" "set[string]" "," = VArr [VStr "HTTP"; VStr "SSL"]
  /\ Tsv.convertValue parseFloat "80,443,8080" "vector[port]" ","
     = VArr [VNum 80; VNum 443; VNum 8080]
  /\ Tsv.convertValue parseFloat "T" "bool" "," = VBool true
  /\ Tsv.convertValue parseFloat "F" "bool" "," = VBool false.
Proof. repeat split; reflexivity. Qed.

Example test_anomalies_port_scan (toFixed1 : float -> string) :
  map (fun a => (Detectors.type a, Detectors.severity a))
      (Detectors.detectConnectionAnomalies Host.runtime toFixed1 hundredPorts)
  = [("port_scan", Anomaly.Medium)].
Proof. vm_compute. reflexivity. Qed.

Example test_cidr_ipv6 :
  Filters.matchCidr "2001:db8::1" "2001:db8::/32" = true
  /\ Filters.matchCidr "2001:db9::1" "2001:db8::/32" = false
  /\ Filters.matchCidr "fe80::1" "fe80:0:0:0:0:0:0:0/10" = true
  /\ Filters.matchCidr "febf::1" "fe80::/10" = true
  /\ Filters.matchCidr "fec0::1" "fe80::/10" = false.
Proof. repeat split; reflexivity. Qed.

End MoreTests.

(** ** The properties at work on examples *)

Lemma matchPartial_substring_witness :
  Matchers.matchPartial "Mozilla/5.0 (Windows)" "mozilla" = true.
Proof.
  apply (proj1 (matchPartial_substring "Mozilla/5.0 (Windows)" "mozilla"
                  eq_refl eq_refl)).
  exists "", "Mozilla", "/5.0 (Windows)". split; reflexivity.
Defined.

Lemma matchWildcard_ignores_case_witness :
  Matchers.matchWildcard (Js.toLowerCase "Sub.EVIL.com") "*.Evil.Com" = true.
Proof.
  rewrite (proj1 (matchWildcard_ignores_case "Sub.EVIL.com" "*.Evil.Com"
                    eq_refl eq_refl)).
  reflexivity.
Defined.

Lemma inRange_bounds_witness :
  Matchers.inRange (Some 75%float) (Some 50%float) (Some 100%float) = true
  /\ Matchers.inRange (Some PrimFloat.nan) (Some 50%float) (Some 100%float) = true.
Proof.
  destruct (inRange_bounds 75 50 100 (Some 50%float) (Some 100%float))
    as (_ & H & _).
  destruct (inRange_bounds PrimFloat.nan 50 100 (Some 50%float) (Some 100%float))
    as (_ & _ & _ & _ & _ & Hnan).
  split; [rewrite H; reflexivity | apply Hnan; reflexivity].
Defined.

Lemma groupBy_buckets_witness :
  Aggregation.count
    {| Aggregation.key := "http"; Aggregation.count := 3; Aggregation.percentage := 60 |}
  = List.length
      (filter (fun r => (bucketOf Host.runtime "service" r =? "http")%string) testRecords).
Proof.
  refine (proj1 (proj1 (proj2 (groupBy_buckets Host.runtime testRecords "service" None))
                   {| Aggregation.key := "http"; Aggregation.count := 3;
                      Aggregation.percentage := 60 |} _)).
  vm_compute. left. reflexivity.
Defined.

Lemma topN_entries_witness :
  Counting.count {| Counting.value := "http"; Counting.count := 3 |}
  = List.length
      (filter (fun r => present "service" r
                        && (printed Host.runtime "service" r =? "http")%string) testRecords).
Proof.
  refine (proj1 (proj1 (proj2 (topN_entries Host.runtime testRecords "service" (Some 2%Z)))
                   {| Counting.value := "http"; Counting.count := 3 |} _)).
  vm_compute. left. reflexivity.
Defined.


Lemma queryLog_window_witness :
  Parser.queryLog Host.runtime secondsOf (Some "15") None timedRecords
  = [ [("ts", VNum 20); ("uid", VStr "b")]; [("uid", VStr "c")] ]
  /\ In [("uid", VStr "c")]
        (Parser.queryLog Host.runtime secondsOf (Some "15") None timedRecords).
Proof.
  split; [reflexivity|].
  refine (proj1 (proj2 (queryLog_window Host.runtime secondsOf (Some "15") None timedRecords))
            [("uid", VStr "c")] _ _).
  - simpl. tauto.
  - reflexivity.
Defined.

Lemma detectUnusualPorts_reports_witness :
  Detectors.detectUnusualPorts Host.runtime backdoorCalls
  = [ {| Detectors.type := "unusual_port";
         Detectors.severity := Anomaly.Low;
         Detectors.description :=
           "21 connections to unusual port 4444 without identified service";
         Detectors.details :=
           Detectors.UnusualPort
             {| Detectors.port := VNum 4444; Detectors.connectionCount := 21 |} |} ]
  /\ List.length (Detectors.detectUnusualPorts Host.runtime backdoorCalls) <= 10.
Proof.
  split; [vm_compute; reflexivity|].
  exact (proj1 (detectUnusualPorts_reports Host.runtime backdoorCalls)).
Defined.

Lemma detectDataExfiltration_reports_witness :
  map (fun a => (Detectors.type a, Detectors.severity a, Detectors.description a))
      (Detectors.detectDataExfiltration Host.runtime printTenths uploads)
  = [ ("data_exfiltration", Anomaly.Critical, "10.0.0.5 sent 4.7 GB - statistical outlier") ]
  /\ Detectors.detectDataExfiltration Host.runtime printTenths (firstn 2 uploads) = [].
Proof.
  split; [vm_compute; reflexivity|].
  refine (proj1 (detectDataExfiltration_reports Host.runtime printTenths (firstn 2 uploads)) _).
  vm_compute. lia.
Defined.

Lemma detectConnectionAnomalies_kinds_witness :
  Detectors.detectConnectionAnomalies Host.runtime printTenths (uploads ++ backdoorCalls)
  = map Detectors.ofPortScan (Anomaly.detectPortScans Host.runtime (uploads ++ backdoorCalls))
    ++ Detectors.detectDataExfiltration Host.runtime printTenths (uploads ++ backdoorCalls)
    ++ Detectors.detectUnusualPorts Host.runtime (uploads ++ backdoorCalls)
  /\ map Detectors.type
       (Detectors.detectConnectionAnomalies Host.runtime printTenths (uploads ++ backdoorCalls))
     = ["data_exfiltration"; "unusual_port"].
Proof.
  split.
  - exact (proj1 (detectConnectionAnomalies_kinds Host.runtime printTenths
                    (uploads ++ backdoorCalls))).
  - vm_compute. reflexivity.
Defined.

(** ** The repository's tests, replayed on the embedding *)

Section Tests.

(** tests/filters.test.ts *)

Example test_cidr_exact :
  Filters.matchCidr "192.168.1.100" "192.168.1.100" = true
  /\ Filters.matchCidr "192.168.1.100" "192.168.1.101" = false.
Proof. split; vm_compute; reflexivity. Qed.

Example test_cidr_24 :
  Filters.matchCidr "192.168.1.100" "192.168.1.0/24" = true
  /\ Filters.matchCidr "192.168.1.255" "192.168.1.0/24" = true
  /\ Filters.matchCidr "192.168.2.1" "192.168.1.0/24" = false.
Proof. repeat split; vm_compute; reflexivity. Qed.

Example test_cidr_16_8 :
  Filters.matchCidr "10.0.5.100" "10.0.0.0/16" = true
  /\ Filters.matchCidr "10.1.0.1" "10.0.0.0/16" = false
  /\ Filters.matchCidr "10.255.255.255" "10.0.0.0/8" = true
  /\ Filters.matchCidr "11.0.0.1" "10.0.0.0/8" = false.
Proof. repeat split; vm_compute; reflexivity. Qed.

Example test_cidr_32_0 :
  Filters.matchCidr "192.168.1.1" "192.168.1.1/32" = true
  /\ Filters.matchCidr "192.168.1.2" "192.168.1.1/32" = false
  /\ Filters.matchCidr "1.2.3.4" "0.0.0.0/0" = true
  /\ Filters.matchCidr "255.255.255.255" "0.0.0.0/0" = true.
Proof. repeat split; vm_compute; reflexivity. Qed.

Example test_cidr_invalid :
  Filters.matchCidr "not-an-ip" "192.168.1.0/24" = false
  /\ Filters.matchCidr "192.168.1.1" "not-a-cidr/24" = false.
Proof. split; vm_compute; reflexivity. Qed.

Example test_matchIp :
  Filters.matchIp "192.168.1.100" "192.168.1.0/24" = true
  /\ Filters.matchIp "10.0.0.1" "192.168.1.0/24" = false.
Proof. split; vm_compute; reflexivity. Qed.

Example test_wildcard :
  Engine.matchWildcard "example.com" "example.com" = true
  /\ Engine.matchWildcard "example.com" "example.org" = false
  /\ Engine.matchWildcard "Example.COM" "example.com" = true
  /\ Engine.matchWildcard "sub.evil.com" "*.evil.com" = true
  /\ Engine.matchWildcard "deep.sub.evil.com" "*.evil.com" = true
  /\ Engine.matchWildcard "evil.com" "*.evil.com" = false
  /\ Engine.matchWildcard "api.example.com" "api.*" = true
  /\ Engine.matchWildcard "web.example.com" "api.*" = false
  /\ Engine.matchWildcard "www.example.com" "www.*.com" = true.
Proof. repeat split; vm_compute; reflexivity. Qed.

Example test_groupBy :
  Aggregation.groupBy Host.runtime testRecords "service" None
  = {| Aggregation.field := "service";
       Aggregation.total := 5;
       Aggregation.groups :=
         [ {| Aggregation.key := "http"; Aggregation.count := 3; Aggregation.percentage := 60 |};
           {| Aggregation.key := "ssl"; Aggregation.count := 1; Aggregation.percentage := 20 |};
           {| Aggregation.key := "ssh"; Aggregation.count := 1; Aggregation.percentage := 20 |} ] |}.
Proof. vm_compute. reflexivity. Qed.

Example test_groupBy_limit :
  List.length (Aggregation.groups
                 (Aggregation.groupBy Host.runtime testRecords "id.orig_h" (Some 2%Z)))
  = 2.
Proof. vm_compute. reflexivity. Qed.

Example test_sum_avg :
  Aggregation.sumField testRecords "orig_bytes" = 800%float
  /\ Aggregation.avgField testRecords "orig_bytes" = 160%float.
Proof. split; vm_compute; reflexivity. Qed.

Example test_getNestedValue :
  Aggregation.getNestedValue
    [("ts", VNum 1); ("id.orig_h", VStr "192.168.1.1");
     ("nested", VObj [("deep", VObj [("value", VStr "found")])])]
    "id.orig_h" = VStr "192.168.1.1"
  /\ Aggregation.getNestedValue
       [("ts", VNum 1); ("id.orig_h", VStr "192.168.1.1");
        ("nested", VObj [("deep", VObj [("value", VStr "found")])])]
       "nested.deep.value" = VStr "found".
Proof. split; vm_compute; reflexivity. Qed.

(** tests/analytics.test.ts *)

Example test_detectEncoding :
  Entropy.detectEncoding "aGVsbG8td29ybGQtdGhpcw==" = Some Entropy.Base64
  /\ Entropy.detectEncoding "48656c6c6f576f726c64" = Some Entropy.Hex
  /\ Entropy.detectEncoding "hello" = None
  /\ Entropy.detectEncoding "www" = None
  /\ Entropy.detectEncoding "abc" = None
  /\ Entropy.detectEncoding "0a1b" = None.
Proof. repeat split; vm_compute; reflexivity. Qed.

Example test_beaconing_regular :
  Beaconing.detectBeaconing Host.runtime (beacons 20) 10 30
  = [ {| Beaconing.srcIp := "192.168.1.100"; Beaconing.dstIp := "45.33.32.156";
         Beaconing.dstPort := 443; Beaconing.connectionCount := 20;
         Beaconing.avgInterval := 60; Beaconing.stdDevInterval := 0;
         Beaconing.jitter := 0; Beaconing.avgBytes := 300; Beaconing.score := 73 |} ].
Proof. vm_compute. reflexivity. Qed.

Example test_beaconing_minimum :
  Beaconing.detectBeaconing Host.runtime (beacons 2) 10 30 = [].
Proof. vm_compute. reflexivity. Qed.

Example test_port_scan :
  map (fun a => (Anomaly.severity a, Anomaly.description a,
                 Anomaly.uniqueTargets (Anomaly.details a),
                 List.length (Anomaly.samplePorts (Anomaly.details a))))
      (Anomaly.detectPortScans Host.runtime hundredPorts)
  = [(Anomaly.Medium, "192.168.1.50 scanned 100 ports across 1 hosts", 1, 20)].
Proof. vm_compute. reflexivity. Qed.

End Tests.
